(** * Call-graph relationship extraction and aggregation

    A shallow embedding of [call_graph_processor.py]: name resolution for
    graph nodes, direction-aware relationship extraction, the per-file
    listing, the per-directory combined listing and the project-wide
    master listing.

    Python [str] values are modelled as [string]: the bytes of the text
    in UTF-8, which is also how the store keeps the content of a file.
    The byte-wise order on UTF-8 text coincides with Python's code-point
    order.  The tests the program makes on single characters (quotes,
    the comment sign, slashes, dots, the classes of its regular
    expressions, the letters of the directory names it looks for) are
    on ASCII characters, which UTF-8 keeps as single bytes that occur
    in no other character; [str.strip()] without argument also removes
    white space outside ASCII and is modelled on its encodings. *)

From stdpp Require Import base strings gmap sorting.
From Stdlib Require Import Ascii.
From Stdlib Require DecimalString.

(** ** Python string primitives used by the program *)

Module PyStr.

(** The double-quote character and the newline character. *)
Definition dquote : ascii := "034"%char.
Definition nl : string := String "010"%char "".

(** [s.startswith(p)] *)
Fixpoint startswith (p s : string) : bool :=
  match p, s with
  | "", _ => true
  | String _ _, "" => false
  | String a p', String b s' => if Ascii.eqb a b then startswith p' s' else false
  end.

(** [s.endswith(p)] *)
Definition endswith (p s : string) : bool :=
  startswith (String.rev p) (String.rev s).

(** [sub in s] *)
Fixpoint str_in (sub s : string) : bool :=
  startswith sub s ||
  match s with
  | "" => false
  | String _ s' => str_in sub s'
  end.

(** [s.split(sep)[0]] for a non-empty separator: the text before the
    first occurrence of [sep], all of [s] when there is none. *)
Fixpoint split_first (sep s : string) : string :=
  if startswith sep s then ""
  else match s with
       | "" => ""
       | String c s' => String c (split_first sep s')
       end.

(** Every character of [s] passes the test [p]. *)
Fixpoint all_chars (p : ascii → bool) (s : string) : bool :=
  match s with
  | "" => true
  | String c s' => p c && all_chars p s'
  end.

(** The rest of [s] after the prefix [p], when [s] starts with it. *)
Fixpoint strip_prefix (p s : string) : option string :=
  match p, s with
  | "", _ => Some s
  | String _ _, "" => None
  | String a p', String b s' => if Ascii.eqb a b then strip_prefix p' s' else None
  end.

Fixpoint lstrip (p : ascii → bool) (s : string) : string :=
  match s with
  | "" => ""
  | String c s' => if p c then lstrip p s' else s
  end.

Definition rstrip (p : ascii → bool) (s : string) : string :=
  String.rev (lstrip p (String.rev s)).

Definition strip (p : ascii → bool) (s : string) : string :=
  rstrip p (lstrip p s).

(** [s.strip(q)] where [q] is the double-quote character. *)
Definition strip_quotes : string → string := strip (Ascii.eqb dquote).

(** The characters for which [str.isspace] holds are U+0009 to U+000D,
    U+001C to U+0020, U+0085, U+00A0, U+1680, U+2000 to U+200A, U+2028,
    U+2029, U+202F, U+205F and U+3000.  In UTF-8 the first ten take one
    byte, the next two take two bytes (C2 85, C2 A0) and the others
    three (E1 9A 80; E2 80 80 to E2 80 8A, E2 80 A8, E2 80 A9, E2 80 AF;
    E2 81 9F; E3 80 80).  The three tests below recognise these
    encodings; [isspace] is the test for the one-byte ones. *)
Definition isspace (c : ascii) : bool :=
  let n := nat_of_ascii c in
  ((9 <=? n) && (n <=? 13)) || ((28 <=? n) && (n <=? 32)).

Definition isspace2 (a b : ascii) : bool :=
  (nat_of_ascii a =? 194)
  && ((nat_of_ascii b =? 133) || (nat_of_ascii b =? 160)).

Definition isspace3 (a b c : ascii) : bool :=
  let '(x, y, z) := (nat_of_ascii a, nat_of_ascii b, nat_of_ascii c) in
  ((x =? 225) && (y =? 154) && (z =? 128))
  || ((x =? 226) && (y =? 128)
      && (((128 <=? z) && (z <=? 138)) || (z =? 168) || (z =? 169) || (z =? 175)))
  || ((x =? 226) && (y =? 129) && (z =? 159))
  || ((x =? 227) && (y =? 128) && (z =? 128)).

(** [s] without the characters at its start that one of the tests
    recognises, each over as many bytes as the test takes. *)
Fixpoint lstrip_chars
    (one : ascii → bool) (two : ascii → ascii → bool)
    (three : ascii → ascii → ascii → bool) (s : string) : string :=
  match s with
  | "" => ""
  | String a s1 =>
      if one a then lstrip_chars one two three s1
      else match s1 with
           | "" => s
           | String b s2 =>
               if two a b then lstrip_chars one two three s2
               else match s2 with
                    | "" => s
                    | String c s3 =>
                        if three a b c then lstrip_chars one two three s3 else s
                    end
           end
  end.

(** Whether the tests recognise the text [w], of one, two or three
    bytes. *)
Definition recognised
    (one : ascii → bool) (two : ascii → ascii → bool)
    (three : ascii → ascii → ascii → bool) (w : string) : bool :=
  match w with
  | String a "" => one a
  | String a (String b "") => two a b
  | String a (String b (String c "")) => three a b c
  | _ => false
  end.

(** [s.lstrip()] and [s.rstrip()] on UTF-8 text; at the end of the text
    the bytes of a character are met last byte first. *)
Definition lstrip_ws : string → string := lstrip_chars isspace isspace2 isspace3.

Definition rstrip_ws (s : string) : string :=
  String.rev
    (lstrip_chars isspace (λ b a, isspace2 a b) (λ c b a, isspace3 a b c)
       (String.rev s)).

(** [s.strip()] *)
Definition strip_ws (s : string) : string := rstrip_ws (lstrip_ws s).

Definition lower_char (c : ascii) : ascii :=
  let n := nat_of_ascii c in
  if (65 <=? n) && (n <=? 90) then ascii_of_nat (n + 32) else c.

(** [s.lower()], as far as the program looks at it: the letters A to Z
    become a to z.  Python also lowers letters outside ASCII, but none
    of them gives one of the letters of [callee_caller], the only text
    searched for in a lowered name, and the bytes of their encodings
    are no ASCII letters. *)
Fixpoint lower (s : string) : string :=
  match s with
  | "" => ""
  | String c s' => String (lower_char c) (lower s')
  end.

(** Truthiness of a string: non-empty. *)
Definition truthy (s : string) : bool :=
  match s with "" => false | _ => true end.

(** [str(n)] for a length: its decimal digits. *)
Definition str_of_nat (n : nat) : string :=
  DecimalString.NilEmpty.string_of_uint (Nat.to_uint n).

(** The lines of a text as iterating over a file opened for reading
    yields them, without their terminator: a line ends at a line feed,
    at a carriage return, or at the two in a row; a last line without
    terminator is a line too. *)
Fixpoint lines_go (after_cr : bool) (cur : string) (s : string) : list string :=
  match s with
  | "" => match cur with "" => [] | _ => [String.rev cur] end
  | String c s' =>
      if Ascii.eqb c "010"%char then
        if after_cr then lines_go false "" s'
        else String.rev cur :: lines_go false "" s'
      else if Ascii.eqb c "013"%char then
        String.rev cur :: lines_go true "" s'
      else lines_go false (String c cur) s'
  end.
Definition lines : string → list string := lines_go false "".

(** The text left in a file by a sequence of [f.write] calls. *)
Definition written (chunks : list string) : string :=
  foldr String.append "" chunks.

(** [sorted(xs)] on strings. *)
Definition sorted (xs : list string) : list string :=
  merge_sort String.le xs.

End PyStr.

(** ** Regular expressions, as far as the program uses them

    Both patterns of the program are sequences of single characters and
    character classes, each taken once, or repeated greedily.  Matching
    is by backtracking: a repetition first tries to take one more
    character and gives characters back only when the rest fails. *)

Module Re.

Inductive quant := One | Star | Plus.

Record atom := Atom { cls : ascii → bool; rep : quant }.

Definition lit (c : ascii) : atom := Atom (Ascii.eqb c) One.
Definition none_of (c : ascii) (q : quant) : atom :=
  Atom (λ x, negb (Ascii.eqb c x)) q.

Section Greedy.
Context {R : Type} (p : ascii → bool) (k : string → option R).

(** Longest run first, then shorter ones. *)
Fixpoint star (s : string) : option (string * R) :=
  let more :=
    match s with
    | String c s' =>
        if p c then
          match star s' with
          | Some (m, r) => Some (String c m, r)
          | None => None
          end
        else None
    | "" => None
    end in
  match more with
  | Some res => Some res
  | None => match k s with Some r => Some ("", r) | None => None end
  end.

Definition plus (s : string) : option (string * R) :=
  match s with
  | String c s' =>
      if p c then
        match star s' with
        | Some (m, r) => Some (String c m, r)
        | None => None
        end
      else None
  | "" => None
  end.
End Greedy.

(** [match_here r s]: the text taken by each atom of [r] when [r]
    matches a prefix of [s]. *)
Fixpoint match_here (r : list atom) (s : string) : option (list string) :=
  match r with
  | [] => Some []
  | a :: r' =>
      match rep a with
      | One =>
          match s with
          | String c s' =>
              if cls a c then
                match match_here r' s' with
                | Some caps => Some (String c "" :: caps)
                | None => None
                end
              else None
          | "" => None
          end
      | Star =>
          match star (cls a) (match_here r') s with
          | Some (m, caps) => Some (m :: caps)
          | None => None
          end
      | Plus =>
          match plus (cls a) (match_here r') s with
          | Some (m, caps) => Some (m :: caps)
          | None => None
          end
      end
  end.

(** [re.search]: the match at the leftmost position that has one. *)
Fixpoint search (r : list atom) (s : string) : option (list string) :=
  match match_here r s with
  | Some caps => Some caps
  | None =>
      match s with
      | "" => None
      | String _ s' => search r s'
      end
  end.

(** Group 0: the whole matched text. *)
Definition group0 (caps : list string) : string :=
  foldr String.append "" caps.

(** The text of the atom at position [i]. *)
Definition group_at (i : nat) (caps : list string) : string :=
  nth i caps "".

End Re.

(** ** The graph model the loader hands over *)

Module Pydot.

Record Node := mkNode { get_name : string; get_label : option string }.

Record Edge := mkEdge { get_source : string; get_destination : string }.

Record Graph := mkGraph { get_nodes : list Node; get_edges : list Edge }.

End Pydot.

Import PyStr Pydot.

(** ** Name resolution *)

(** [r'<[^>]*>([^<]+)</[^>]*>'] ; group 1 is the atom at position 3. *)
Definition html_label_re : list Re.atom :=
  [ Re.lit "<"; Re.none_of ">" Re.Star; Re.lit ">";
    Re.none_of "<" Re.Plus;
    Re.lit "<"; Re.lit "/"; Re.none_of ">" Re.Star; Re.lit ">" ]%char.

Definition is_alpha_ (c : ascii) : bool :=
  let n := nat_of_ascii c in
  ((97 <=? n) && (n <=? 122)) || ((65 <=? n) && (n <=? 90)) || (n =? 95).

Definition is_alnum_ (c : ascii) : bool :=
  is_alpha_ c || (let n := nat_of_ascii c in (48 <=? n) && (n <=? 57)).

(** [r'[a-zA-Z_][a-zA-Z0-9_]*'] *)
Definition identifier_re : list Re.atom :=
  [ Re.Atom is_alpha_ Re.One; Re.Atom is_alnum_ Re.Star ].

(** The label after the two line-break cuts of [extract_function_name]. *)
Definition cut_line_breaks (node_label : string) : string :=
  let node_label :=
    if str_in "\l" node_label then split_first "\l" node_label else node_label in
  if str_in "\n" node_label then split_first "\n" node_label else node_label.

(** [node_label] as it stands when the test of line 76 is reached. *)
Definition stripped_label (node_obj : Node) : option string :=
  match get_label node_obj with
  | Some l => if truthy l then Some (strip_quotes l) else None
  | None => None
  end.

(** The last two rules: the first identifier-shaped part of the node
    name, else the node name. *)
Definition name_from_identifier (node_name : string) : string :=
  match Re.search identifier_re node_name with
  | Some caps => Re.group0 caps
  | None => node_name
  end.

(** No operation of the body raises in this model, so the [except]
    branch is never taken. *)
Definition extract_function_name (node_obj : Node) : string :=
  let node_name := strip_quotes (get_name node_obj) in
  match stripped_label node_obj with
  | Some node_label =>
      if truthy node_label then
        let node_label := cut_line_breaks node_label in
        if str_in "<" node_label && str_in ">" node_label then
          match Re.search html_label_re node_label with
          | Some caps => Re.group_at 3 caps
          | None => node_label
          end
        else node_label
      else name_from_identifier node_name
  | None => name_from_identifier node_name
  end.

(** ** Paths: the functions of [os.path] the program calls (POSIX flavour) *)

Module PosixPath.

(** The text before and after the last occurrence of [c]. *)
Fixpoint rpartition (c : ascii) (s : string) : option (string * string) :=
  match s with
  | "" => None
  | String a s' =>
      match rpartition c s' with
      | Some (h, t) => Some (String a h, t)
      | None => if Ascii.eqb a c then Some ("", s') else None
      end
  end.

Definition is_slash : ascii → bool := Ascii.eqb "/"%char.
Definition is_dot : ascii → bool := Ascii.eqb "."%char.

(** [p[:i]] for [i = p.rfind('/') + 1]. *)
Definition head_part (p : string) : string :=
  match rpartition "/" p with
  | Some (h, _) => h +:+ "/"
  | None => ""
  end.

Definition basename (p : string) : string :=
  match rpartition "/" p with
  | Some (_, t) => t
  | None => p
  end.

Definition dirname (p : string) : string :=
  let head := head_part p in
  if truthy head && negb (all_chars is_slash head)
  then rstrip is_slash head
  else head.

(** [os.path.join(a, b)] *)
Definition join (a b : string) : string :=
  if startswith "/" b then b
  else if negb (truthy a) || endswith "/" a then a +:+ b
  else a +:+ "/" +:+ b.

(** [os.path.splitext(p)]: the extension starts at the last dot of the
    base name, unless only dots precede it there. *)
Definition splitext (p : string) : string * string :=
  match rpartition "." (basename p) with
  | Some (stem, ext) =>
      if all_chars is_dot stem then (p, "")
      else (head_part p +:+ stem, "." +:+ ext)
  | None => (p, "")
  end.

End PosixPath.

(** ** The file store

    A store maps a path to a directory or to a regular file with its
    text.  Paths are compared as written.  The text of a file is what
    reading it gives: a file whose bytes do not decode has no place in
    a store. *)

Module FS.

Inductive entry := Dir | File (content : string).

Abbreviation store := (gmap string entry).

Definition isdir (fs : store) (p : string) : bool :=
  match fs !! p with Some Dir => true | _ => false end.

Definition isfile (fs : store) (p : string) : bool :=
  match fs !! p with Some (File _) => true | _ => false end.

Definition exists_ (fs : store) (p : string) : bool :=
  match fs !! p with Some _ => true | None => false end.

(** [open(p, 'r')] and reading the text; [None] stands for the
    [OSError] raised when [p] is not a regular file. *)
Definition read (fs : store) (p : string) : option string :=
  match fs !! p with Some (File c) => Some c | _ => None end.

(** [open(p, 'w')], writing [text] and closing; [None] stands for the
    [OSError] raised when [p] names a directory.  The directory that
    receives the file is taken to exist: the program only writes next
    to, or one level above, a file or directory it was handed. *)
Definition write (fs : store) (p : string) (text : string) : option store :=
  if isdir fs p then None else Some (<[p := File text]> fs).

(** The name under which [k] is an entry of directory [d], if it is. *)
Definition entry_name (d k : string) : option string :=
  let pre := if negb (truthy d) || endswith "/" d then d else d +:+ "/" in
  match strip_prefix pre k with
  | Some name =>
      if truthy name && negb (str_in "/" name) then Some name else None
  | None => None
  end.

(** [os.listdir(d)] *)
Definition listdir (fs : store) (d : string) : list string :=
  omap (entry_name d) (map fst (map_to_list fs)).

(** [os.walk(top)]: a directory, the names of its sub-directories and of
    its other entries, then the same for every sub-directory in turn.
    A [top] that is no directory yields nothing.  The depth of the
    descent is bounded by the number of entries of the store. *)
Fixpoint walk_go (fuel : nat) (fs : store) (top : string)
  : list (string * list string * list string) :=
  match fuel with
  | O => []
  | S fuel' =>
      if isdir fs top then
        let names := listdir fs top in
        let dirs := filter (λ x, isdir fs (PosixPath.join top x) = true) names in
        let nondirs := filter (λ x, isdir fs (PosixPath.join top x) = false) names in
        (top, dirs, nondirs)
          :: flat_map (λ d, walk_go fuel' fs (PosixPath.join top d)) dirs
      else []
  end.

Definition walk (fs : store) (top : string)
  : list (string * list string * list string) :=
  walk_go (size fs) fs top.

End FS.

Import PosixPath.

(** ** Relationship extraction *)

Definition get_output_directory (dot_file_path : string) : string :=
  let dir_path := dirname dot_file_path in
  let dir_name := basename dir_path in
  if String.eqb dir_name "dot_files" then dirname dir_path else dir_path.

Definition create_node_to_function_mapping (graph : Graph) : gmap string string :=
  foldl (λ node_to_function node,
           let node_id := strip_quotes (get_name node) in
           let function_name := extract_function_name node in
           <[node_id := function_name]> node_to_function)
        ∅ (get_nodes graph).

(** [d.get(k, k)] *)
Definition get_or_key (d : gmap string string) (k : string) : string :=
  default k (d !! k).

(** The body of the loop over the edges. *)
Definition edge_relationship
    (node_to_function : gmap string string) (is_icgraph : bool) (edge : Edge) : string :=
  let source_id := strip_quotes (get_source edge) in
  let dest_id := strip_quotes (get_destination edge) in
  let source_func := get_or_key node_to_function source_id in
  let dest_func := get_or_key node_to_function dest_id in
  if is_icgraph then dest_func +:+ " -> " +:+ source_func
  else source_func +:+ " -> " +:+ dest_func.

Definition extract_relationships_from_edges
    (graph : Graph) (node_to_function : gmap string string) (is_icgraph : bool)
  : list string :=
  foldl (λ relationships edge,
           relationships ++ [edge_relationship node_to_function is_icgraph edge])
        [] (get_edges graph).

(** The line of the header that names the direction of the entries. *)
Definition format_line (inverted : bool) : string :=
  if inverted then "# Format: callee -> caller" else "# Format: caller -> callee".

(** The text [write_relationships_to_file] puts into the file. *)
Definition relationships_text
    (relationships : list string) (dot_file_path : string) (is_icgraph : bool) : string :=
  written
    ([ "# Function call relationships from " +:+ basename dot_file_path +:+ nl;
       "# Total relationships: " +:+ str_of_nat (length relationships) +:+ nl;
       format_line is_icgraph +:+ nl +:+ nl ]
     ++ map (λ relationship, relationship +:+ nl) (sorted relationships)).

Definition write_relationships_to_file
    (fs : FS.store) (output_path : string) (relationships : list string)
    (dot_file_path : string) (is_icgraph : bool) : option FS.store :=
  FS.write fs output_path (relationships_text relationships dot_file_path is_icgraph).

(** Returns the store afterwards and the path written, [None] when the
    [except] branch is taken. *)
Definition generate_function_relationships_text
    (fs : FS.store) (graph : Graph) (dot_file_path : string)
  : FS.store * option string :=
  let output_dir := get_output_directory dot_file_path in
  let filename := basename (fst (splitext dot_file_path)) +:+ "_relationships.txt" in
  let output_path := join output_dir filename in
  let node_to_function := create_node_to_function_mapping graph in
  let is_icgraph := str_in "_icgraph" dot_file_path in
  let relationships := extract_relationships_from_edges graph node_to_function is_icgraph in
  match write_relationships_to_file fs output_path relationships dot_file_path is_icgraph with
  | Some fs' => (fs', Some output_path)
  | None => (fs, None)
  end.

(** ** Aggregation per directory *)

Definition find_dot_files (fs : FS.store) (directory : string) : list string :=
  let dot_files_subdir := join directory "dot_files" in
  if FS.isdir fs dot_files_subdir then
    foldl (λ dot_files file,
             if endswith ".dot" file then dot_files ++ [join dot_files_subdir file]
             else dot_files)
          [] (FS.listdir fs dot_files_subdir)
  else
    foldl (λ dot_files '(root, _, files),
             foldl (λ dot_files file,
                      if endswith ".dot" file then dot_files ++ [join root file]
                      else dot_files)
                   dot_files files)
          [] (FS.walk fs directory).

Definition find_relationship_files (fs : FS.store) (dot_files : list string) : list string :=
  foldl (λ rel_files dot_file,
           let rel_dir := get_output_directory dot_file in
           let dot_basename := basename (fst (splitext dot_file)) in
           let rel_filename := dot_basename +:+ "_relationships.txt" in
           let rel_filepath := join rel_dir rel_filename in
           if FS.exists_ fs rel_filepath then rel_files ++ [rel_filepath] else rel_files)
        [] dot_files.

(** A line that is neither a comment nor blank. *)
Definition is_entry_line (line : string) : bool :=
  negb (startswith "#" line || negb (truthy (strip_ws line))).

(** [None] when one of the files cannot be opened. *)
Definition collect_unique_relationships (fs : FS.store) (rel_files : list string)
  : option (gset string) :=
  foldl (λ acc rel_file,
           all_relationships ← acc;
           text ← FS.read fs rel_file;
           Some (foldl (λ all_relationships line,
                          if is_entry_line line
                          then {[ strip_ws line ]} ∪ all_relationships
                          else all_relationships)
                       all_relationships (lines text)))
        (Some ∅) rel_files.

Definition get_output_dir_for_combined_file (directory : string) : string :=
  if String.eqb (basename directory) "dot_files" then dirname directory else directory.

(** The text of the combined file. *)
Definition combined_text
    (output_dir : string) (all_relationships : gset string) (is_callee_caller : bool)
  : string :=
  written
    ([ "# Combined function call relationships from all dot files in "
         +:+ basename output_dir +:+ nl;
       "# Total unique relationships: " +:+ str_of_nat (size all_relationships) +:+ nl;
       format_line is_callee_caller +:+ nl +:+ nl ]
     ++ map (λ relationship, relationship +:+ nl) (sorted (elements all_relationships))).

Definition generate_combined_relationships_file
    (fs : FS.store) (directory : string) (dot_files : list string)
  : FS.store * option string :=
  let is_callee_caller := str_in "callee_caller" (lower (basename directory)) in
  let output_dir := get_output_dir_for_combined_file directory in
  let output_path := join output_dir "all_function_relationships.txt" in
  let rel_files := find_relationship_files fs dot_files in
  match collect_unique_relationships fs rel_files with
  | Some all_relationships =>
      match FS.write fs output_path
              (combined_text output_dir all_relationships is_callee_caller) with
      | Some fs' => (fs', Some output_path)
      | None => (fs, None)
      end
  | None => (fs, None)
  end.

(** ** The master listing: layout and sources *)

Definition read_relationships_from_file (fs : FS.store) (file_path : string)
  : gmap string bool :=
  if FS.isfile fs file_path then
    match FS.read fs file_path with
    | Some text =>
        foldl (λ relationships line,
                 if is_entry_line line
                 then <[strip_ws line := true]> relationships
                 else relationships)
              ∅ (lines text)
    | None => ∅ (* a regular file opens *)
    end
  else ∅.

(** The test on a file name in [collect_relationships_from_directory]. *)
Definition is_per_file_listing (file : string) : bool :=
  endswith "_relationships.txt" file
  && negb (String.eqb file "all_function_relationships.txt").

Definition collect_relationships_from_directory (fs : FS.store) (directory : string)
  : gmap string bool :=
  foldl (λ relationships '(root, _, files),
           foldl (λ relationships file,
                    if is_per_file_listing file then
                      let rel_file := join root file in
                      let file_relationships := read_relationships_from_file fs rel_file in
                      file_relationships ∪ relationships
                    else relationships)
                 relationships files)
        ∅ (FS.walk fs directory).

(** [sorted(d.keys())] *)
Definition sorted_keys (d : gmap string bool) : list string :=
  sorted (map fst (map_to_list d)).

Definition banner : string :=
  "# ==========================================================".

Definition master_text
    (base_directory : string)
    (callee_caller_relationships caller_callee_relationships : gmap string bool)
  : string :=
  written
    ([ "# MASTER FUNCTION RELATIONSHIP FILE" +:+ nl;
       "# Generated on: " +:+ basename base_directory +:+ nl +:+ nl;
       banner +:+ nl;
       "# CALLEE -> CALLER RELATIONSHIPS" +:+ nl;
       "# Total: " +:+ str_of_nat (size callee_caller_relationships) +:+ nl;
       banner +:+ nl +:+ nl ]
     ++ map (λ relationship, relationship +:+ nl) (sorted_keys callee_caller_relationships)
     ++ [ nl +:+ nl +:+ banner +:+ nl;
          "# CALLER -> CALLEE RELATIONSHIPS" +:+ nl;
          "# Total: " +:+ str_of_nat (size caller_callee_relationships) +:+ nl;
          banner +:+ nl +:+ nl ]
     ++ map (λ relationship, relationship +:+ nl) (sorted_keys caller_callee_relationships)
     ++ [ nl +:+ nl +:+ banner +:+ nl;
          "# STATISTICS" +:+ nl;
          banner +:+ nl;
          "# Total callee->caller relationships: "
            +:+ str_of_nat (size callee_caller_relationships) +:+ nl;
          "# Total caller->callee relationships: "
            +:+ str_of_nat (size caller_callee_relationships) +:+ nl;
          "# Total relationships: "
            +:+ str_of_nat (size callee_caller_relationships
                            + size caller_callee_relationships) +:+ nl ]).

Definition write_master_relationships_file
    (fs : FS.store) (output_path base_directory : string)
    (callee_caller_relationships caller_callee_relationships : gmap string bool)
  : option FS.store :=
  FS.write fs output_path
    (master_text base_directory callee_caller_relationships caller_callee_relationships).

(** Why [generate_master_relationships_file] returned [None]: the message
    about the missing category directories was printed, or the [except]
    branch was taken. *)
Inductive master_failure := NoCategoryDirectories | MasterIOError.

(** The relationships of one category: from its combined file when
    there is one, from the per-file listings below it otherwise, none
    when the directory is missing. *)
Definition category_relationships (fs : FS.store) (category_dir : string)
  : gmap string bool :=
  let category_exists := FS.isdir fs category_dir in
  let combined :=
    if category_exists
    then Some (join category_dir "all_function_relationships.txt") else None in
  match combined with
  | Some combined_path =>
      if category_exists && FS.isfile fs combined_path
      then read_relationships_from_file fs combined_path
      else if category_exists
           then collect_relationships_from_directory fs category_dir
           else ∅
  | None => ∅
  end.

Definition generate_master_relationships_file (fs : FS.store) (base_directory : string)
  : FS.store * (master_failure + string) :=
  let parent_directory := dirname base_directory in
  let output_path := join parent_directory "master_function_relationships.txt" in
  let callee_caller_dir := join base_directory "callee_caller_graph" in
  let caller_callee_dir := join base_directory "caller_callee_graph" in
  let callee_caller_exists := FS.isdir fs callee_caller_dir in
  let caller_callee_exists := FS.isdir fs caller_callee_dir in
  if negb callee_caller_exists && negb caller_callee_exists then
    (fs, inl NoCategoryDirectories)
  else
    let callee_caller_relationships := category_relationships fs callee_caller_dir in
    let caller_callee_relationships := category_relationships fs caller_callee_dir in
    match write_master_relationships_file fs output_path base_directory
            callee_caller_relationships caller_callee_relationships with
    | Some fs' => (fs', inr output_path)
    | None => (fs, inl MasterIOError)
    end.

(** ** Notions used in the statements

    The definitions above follow the program.  The ones below say what
    is expected of it; they are compared with the program's own
    definitions in the lemmas that follow. *)

(** *** Regular expressions: the text an atom may take *)

Definition accepts (a : Re.atom) (m : string) : Prop :=
  match Re.rep a with
  | Re.One => ∃ c, m = String c "" ∧ Re.cls a c = true
  | Re.Star => all_chars (Re.cls a) m = true
  | Re.Plus => m ≠ "" ∧ all_chars (Re.cls a) m = true
  end.

(** *** Name resolution *)

(** The label up to the leftmost occurrence of either line-break marker,
    found in one pass. *)
Fixpoint before_first_break (s : string) : string :=
  if startswith "\l" s || startswith "\n" s then ""
  else match s with
       | "" => ""
       | String c s' => String c (before_first_break s')
       end.

(** [inner] is a non-empty text without an opening bracket that stands
    in [s] between an opening tag and a closing tag. *)
Definition between_tags (s inner : string) : Prop :=
  ∃ pre t1 t2 post,
    s = pre +:+ "<" +:+ t1 +:+ ">" +:+ inner +:+ "</" +:+ t2 +:+ ">" +:+ post
    ∧ inner ≠ ""
    ∧ str_in "<" inner = false
    ∧ str_in ">" t1 = false
    ∧ str_in ">" t2 = false.

(** The inner text of the first tag pair of [s], as the pattern finds it. *)
Definition first_tag_inner (s : string) : option string :=
  Re.group_at 3 <$> Re.search html_label_re s.

(** A letter or underscore followed by letters, digits and underscores. *)
Definition identifier_shaped (s : string) : Prop :=
  match s with
  | String c cs => is_alpha_ c = true ∧ all_chars is_alnum_ cs = true
  | "" => False
  end.

(** [ident] is the first maximal identifier-shaped part of [name]. *)
Definition first_identifier (name ident : string) : Prop :=
  ∃ pre post,
    name = pre +:+ ident +:+ post
    ∧ all_chars (λ c, negb (is_alpha_ c)) pre = true
    ∧ identifier_shaped ident
    ∧ match post with String d _ => is_alnum_ d = false | "" => True end.

(** The fallback chain: the label cut at the first line break, replaced
    by the inner text of its first tag pair when it has one; without a
    label, the first identifier-shaped part of the node name, else the
    node name. *)
Definition resolve_chain (node : Node) : string :=
  match stripped_label node with
  | Some l =>
      if truthy l then
        let candidate := before_first_break l in
        default candidate (first_tag_inner candidate)
      else name_from_identifier (strip_quotes (get_name node))
  | None => name_from_identifier (strip_quotes (get_name node))
  end.

(** *** Relationships of a graph *)

(** The node that decides the name of identifier [id]: the last one
    declared under it. *)
Definition node_named (graph : Graph) (id : string) : option Node :=
  last (filter (λ n, strip_quotes (get_name n) = id) (get_nodes graph)).

(** The resolved name of an edge end point; an identifier without node
    stands for itself. *)
Definition resolved (graph : Graph) (id : string) : string :=
  from_option extract_function_name id (node_named graph id).

(** *** Listings in the file store *)

Definition entry_of_line (line : string) : option string :=
  if is_entry_line line then Some (strip_ws line) else None.

(** The relationship set a listing file holds. *)
Definition file_relationships (text : string) : gset string :=
  list_to_set (omap entry_of_line (lines text)).

(** [s] holds no line terminator. *)
Definition no_break (s : string) : bool :=
  all_chars (λ c, negb (Ascii.eqb c "010") && negb (Ascii.eqb c "013"))%char s.

(** A relationship string that the reader of a listing gives back as it
    was written: one line, no comment sign in front, no white space
    around it. *)
Definition clean_entry (r : string) : Prop :=
  no_break r = true ∧ is_entry_line r = true ∧ strip_ws r = r.

(** Where the listing of a dot file is kept. *)
Definition listing_path (dot_file : string) : string :=
  join (get_output_directory dot_file)
       (basename (fst (splitext dot_file)) +:+ "_relationships.txt").

(** The union of the relationship sets of the listings at [files]. *)
Definition union_of_listings (fs : FS.store) (files : list string) : gset string :=
  ⋃ (map (λ f, from_option file_relationships ∅ (FS.read fs f)) files).

(** The per-file listings that a walk from [directory] comes across. *)
Definition listings_below (fs : FS.store) (directory : string) : list string :=
  flat_map (λ '(root, _, files),
              map (join root) (filter (λ f, is_per_file_listing f = true) files))
           (FS.walk fs directory).

(** [root] is the directory [d] or lies below it. *)
Inductive reach (fs : FS.store) : string → string → Prop :=
  | reach_here d : FS.isdir fs d = true → reach fs d d
  | reach_step d name root :
      FS.isdir fs d = true →
      name ∈ FS.listdir fs d →
      FS.isdir fs (join d name) = true →
      reach fs (join d name) root →
      reach fs d root.

(** The entries of the store with a longer path than [d]; their number
    bounds how deep a walk from [d] can still go. *)
Definition longer_dirs (fs : FS.store) (d : string) : gset string :=
  filter (λ k, String.length d < String.length k) (dom fs).

(** The prefix that the entries of directory [d] share. *)
Definition dir_prefix (d : string) : string :=
  if negb (truthy d) || endswith "/" d then d else d +:+ "/".

(** What [os.walk] reports for one directory. *)
Definition walk_entry (fs : FS.store) (d : string)
  : string * list string * list string :=
  (d,
   filter (λ x, FS.isdir fs (join d x) = true) (FS.listdir fs d),
   filter (λ x, FS.isdir fs (join d x) = false) (FS.listdir fs d)).

(** *** The parts of the master file *)

(** A section of the master file: banner, title, count, banner, an empty
    line, the entries. *)
Definition master_section (title : string) (count : nat) (entries : list string)
  : string :=
  banner +:+ nl
  +:+ "# " +:+ title +:+ " RELATIONSHIPS" +:+ nl
  +:+ "# Total: " +:+ str_of_nat count +:+ nl
  +:+ banner +:+ nl +:+ nl
  +:+ written (map (λ relationship, relationship +:+ nl) entries).

(** The closing block of the master file with its three counts. *)
Definition master_statistics (inverted forward total : nat) : string :=
  banner +:+ nl
  +:+ "# STATISTICS" +:+ nl
  +:+ banner +:+ nl
  +:+ "# Total callee->caller relationships: " +:+ str_of_nat inverted +:+ nl
  +:+ "# Total caller->callee relationships: " +:+ str_of_nat forward +:+ nl
  +:+ "# Total relationships: " +:+ str_of_nat total +:+ nl.


(** ** Inputs of the examples *)

(** Two unlabeled nodes and an edge between them. *)
Definition graph_ab : Graph :=
  mkGraph [mkNode "a" None; mkNode "b" None] [mkEdge "a" "b"].

(** The same with the edge stated twice. *)
Definition graph_ab_twice : Graph :=
  mkGraph [mkNode "a" None; mkNode "b" None] [mkEdge "a" "b"; mkEdge "a" "b"].

(** Two dot files under [d/dot_files]; the listing of each holds the one
    line [x -> y]. *)
Definition store_two_listings : FS.store :=
  {[ "d" := FS.Dir;
     "d/dot_files" := FS.Dir;
     "d/dot_files/a.dot" := FS.File "";
     "d/dot_files/b.dot" := FS.File "";
     "d/a_relationships.txt" := FS.File (relationships_text ["x -> y"] "a.dot" false);
     "d/b_relationships.txt" := FS.File (relationships_text ["x -> y"] "b.dot" false) ]}.

(** One dot file under [d/dot_files] with its listing, and beside it a
    listing that belongs to no dot file. *)
Definition store_stray_listing : FS.store :=
  {[ "d" := FS.Dir;
     "d/dot_files" := FS.Dir;
     "d/dot_files/a.dot" := FS.File "";
     "d/a_relationships.txt" := FS.File (relationships_text ["x -> y"] "a.dot" false);
     "d/b_relationships.txt" := FS.File (relationships_text ["p -> q"] "b.dot" false) ]}.

(** One dot file with its listing, and two directories that differ in
    name only. *)
Definition store_two_names : FS.store :=
  {[ "data" := FS.Dir;
     "data/a.dot" := FS.File "";
     "data/a_relationships.txt" := FS.File (relationships_text ["x -> y"] "a.dot" false);
     "callee_caller_graph" := FS.Dir;
     "caller_callee_graph" := FS.Dir ]}.

(** A project that has the forward category only, with one listing and
    no combined file. *)
Definition store_forward_only : FS.store :=
  {[ "proj" := FS.Dir;
     "proj/caller_callee_graph" := FS.Dir;
     "proj/caller_callee_graph/dot_files" := FS.Dir;
     "proj/caller_callee_graph/f_cgraph_relationships.txt" :=
       FS.File (relationships_text ["a -> b"] "f_cgraph.dot" false) ]}.

(** A project without category directories, with a listing left from an
    earlier step. *)
Definition store_no_category : FS.store :=
  {[ "proj" := FS.Dir;
     "proj/f_relationships.txt" :=
       FS.File (relationships_text ["a -> b"] "f.dot" false) ]}.

(** ** Making directories, copying and moving files

    The operations of [os] and [shutil] that [order_file_dot.py] calls,
    on the file store.  An operation takes the store and gives back the
    store as it has become together with its result, or with the
    exception it raised; what was done before the exception stays
    done.  As everywhere in the store, a path names the entry kept under
    that very string, and the directory that holds [p] is the one named
    [dirname p]; a relative name without a slash lies in the working
    directory, which exists. *)

#[global] Instance entry_eq_dec : EqDecision FS.entry.
Proof. solve_decision. Defined.

Module Shutil.

Inductive os_error :=
  | FileExistsError
  | FileNotFoundError
  | NotADirectoryError
  | IsADirectoryError
  | SameFileError
  | DestinationExistsError
  | RecursionError.

#[global] Instance os_error_eq_dec : EqDecision os_error.
Proof. solve_decision. Defined.

Definition io (A : Type) : Type := FS.store → FS.store * (os_error + A).

Definition ret {A} (a : A) : io A := λ fs, (fs, inr a).

Definition raise {A} (e : os_error) : io A := λ fs, (fs, inl e).

Definition bind {A B} (m : io A) (k : A → io B) : io B :=
  λ fs, match m fs with
        | (fs', inr a) => k a fs'
        | (fs', inl e) => (fs', inl e)
        end.

(** Reading the store without changing it. *)
Definition gets {A} (f : FS.store → A) : io A := λ fs, (fs, inr (f fs)).

(** What stops the creation of an entry at [p] on account of the
    directory that is to hold it; [None] when nothing does. *)
Definition parent_error (fs : FS.store) (p : string) : option os_error :=
  if negb (truthy p) then Some FileNotFoundError
  else match dirname p with
       | "" => None
       | parent =>
           match fs !! parent with
           | Some FS.Dir => None
           | Some (FS.File _) => Some NotADirectoryError
           | None => Some FileNotFoundError
           end
       end.

(** [os.mkdir(p)] *)
Definition mkdir (p : string) : io unit :=
  λ fs,
    if truthy p && FS.exists_ fs p then (fs, inl FileExistsError)
    else match parent_error fs p with
         | Some e => (fs, inl e)
         | None => (<[p := FS.Dir]> fs, inr tt)
         end.

(** [os.makedirs(name, exist_ok=True)].  The descent to the missing
    ancestors follows [os.path.split]; it is bounded by the length of
    the name, which each step shortens. *)
Fixpoint makedirs_go (fuel : nat) (name : string) : io unit :=
  match fuel with
  | O => raise RecursionError
  | S fuel' =>
      λ fs,
        let head := dirname name in
        let tail := basename name in
        let '(head, tail) :=
          if truthy tail then (head, tail) else (dirname head, basename head) in
        let before : FS.store * (os_error + bool) :=
          if truthy head && truthy tail && negb (FS.exists_ fs head) then
            match makedirs_go fuel' head fs with
            | (fs', inr _) => (fs', inr (String.eqb tail "."))
            | (fs', inl FileExistsError) => (fs', inr (String.eqb tail "."))
            | (fs', inl e) => (fs', inl e)
            end
          else (fs, inr false) in
        match before with
        | (fs1, inl e) => (fs1, inl e)
        | (fs1, inr true) => (fs1, inr tt)
        | (fs1, inr false) =>
            match mkdir name fs1 with
            | (fs2, inr _) => (fs2, inr tt)
            | (fs2, inl e) =>
                if FS.isdir fs2 name then (fs2, inr tt) else (fs2, inl e)
            end
        end
  end.

Definition makedirs (name : string) : io unit :=
  makedirs_go (S (String.length name)) name.

(** [os.listdir(d)] with its failure on what is no directory. *)
Definition listdir (d : string) : io (list string) :=
  λ fs,
    match fs !! d with
    | Some FS.Dir => (fs, inr (FS.listdir fs d))
    | Some (FS.File _) => (fs, inl NotADirectoryError)
    | None => (fs, inl FileNotFoundError)
    end.

(** [shutil.copyfile(src, dst)]: the source is opened first, then the
    destination. *)
Definition copyfile (src dst : string) : io string :=
  λ fs,
    match fs !! src with
    | None => (fs, inl FileNotFoundError)
    | Some entry =>
        if String.eqb src dst then (fs, inl SameFileError)
        else match entry with
             | FS.Dir => (fs, inl IsADirectoryError)
             | FS.File text =>
                 if FS.isdir fs dst then (fs, inl IsADirectoryError)
                 else match parent_error fs dst with
                      | Some e => (fs, inl e)
                      | None => (<[dst := FS.File text]> fs, inr dst)
                      end
             end
    end.

(** [shutil.copy2(src, dst)]; the result is the path written.  The
    times and permissions it copies as well are not part of the
    store. *)
Definition copy2 (src dst : string) : io string :=
  λ fs,
    let dst := if FS.isdir fs dst then join dst (basename src) else dst in
    copyfile src dst fs.

(** [shutil.move(src, dst)] for a source that is not a directory: into
    [dst] when that is a directory, unless the name is taken there, and
    else onto [dst], replacing a file of that name.  Moving a directory
    is outside this model and reported as [IsADirectoryError]; the
    program moves a path only after [copy2] has read it as a file. *)
Definition move (src dst : string) : io string :=
  λ fs,
    match fs !! src with
    | Some FS.Dir => (fs, inl IsADirectoryError)
    | found =>
        let real_dst :=
          if FS.isdir fs dst then join dst (basename (rstrip is_slash src))
          else dst in
        if FS.isdir fs dst && FS.exists_ fs real_dst
        then (fs, inl DestinationExistsError)
        else match found with
             | Some (FS.File text) =>
                 if String.eqb src real_dst then (fs, inr real_dst)
                 else match parent_error fs real_dst with
                      | Some e => (fs, inl e)
                      | None =>
                          (<[real_dst := FS.File text]> (delete src fs), inr real_dst)
                      end
             | _ => (fs, inl FileNotFoundError)
             end
    end.

(** A [for] loop whose body may raise. *)
Fixpoint for_each {A} (xs : list A) (body : A → io unit) : io unit :=
  match xs with
  | [] => ret tt
  | x :: xs' => bind (body x) (λ _, for_each xs' body)
  end.

End Shutil.

(** ** Sorting dot files into folders: [order_file_dot.py]

    What the program prints is not modelled. *)

Module Organizer.

Import Shutil.

Notation "x <- m ;; k" := (bind m (λ x, k))
  (at level 100, m at next level, right associativity, only parsing).
Notation "m ;;; k" := (bind m (λ _, k))
  (at level 100, right associativity, only parsing).

(** The dictionary that [create_folder_structure] returns, one field per
    key. *)
Record folders := mkFolders {
  function_graphs : string;
  directory_graphs : string;
  callee_caller_graph : string;
  caller_callee_graph : string;
  callee_caller_dot : string;
  caller_callee_dot : string
}.

#[global] Instance folders_eq_dec : EqDecision folders.
Proof. solve_decision. Defined.

Definition create_folder_structure (dot_folder : string) : io folders :=
  let function_graphs_folder := join dot_folder "function_graphs" in
  let directory_graphs_folder := join dot_folder "directory_graphs" in
  let callee_caller_graph_folder := join dot_folder "callee_caller_graph" in
  let caller_callee_graph_folder := join dot_folder "caller_callee_graph" in
  let callee_caller_dot_folder := join callee_caller_graph_folder "dot_files" in
  let caller_callee_dot_folder := join caller_callee_graph_folder "dot_files" in
  makedirs function_graphs_folder ;;;
  makedirs directory_graphs_folder ;;;
  makedirs callee_caller_graph_folder ;;;
  makedirs caller_callee_graph_folder ;;;
  makedirs callee_caller_dot_folder ;;;
  makedirs caller_callee_dot_folder ;;;
  ret {| function_graphs := function_graphs_folder;
         directory_graphs := directory_graphs_folder;
         callee_caller_graph := callee_caller_graph_folder;
         caller_callee_graph := caller_callee_graph_folder;
         callee_caller_dot := callee_caller_dot_folder;
         caller_callee_dot := caller_callee_dot_folder |}.

(** The copies that both [process_single_file] and the loop of
    [process_all_files] make of a file whose name ends in [.dot]; the
    result is the first destination. *)
Definition copy_to_folders (src_path filename : string) (fo : folders) : io string :=
  if startswith "dir_" filename then
    let dest_path := join (directory_graphs fo) filename in
    copy2 src_path dest_path ;;;
    ret dest_path
  else
    let dest_path := join (function_graphs fo) filename in
    copy2 src_path dest_path ;;;
    (if endswith "_icgraph.dot" filename then
       let secondary_dest_path := join (callee_caller_dot fo) filename in
       copy2 src_path secondary_dest_path ;;;
       ret tt
     else if endswith "_cgraph.dot" filename then
       let secondary_dest_path := join (caller_callee_dot fo) filename in
       copy2 src_path secondary_dest_path ;;;
       ret tt
     else ret tt) ;;;
    ret dest_path.

Definition process_single_file
    (dot_folder specific_file : string) (fo : folders) : io bool :=
  found <-
    (is_file <- gets (λ fs, FS.isfile fs specific_file) ;;
     if negb is_file then
       let possible_path := join dot_folder specific_file in
       possible_is_file <- gets (λ fs, FS.isfile fs possible_path) ;;
       if possible_is_file then ret (Some possible_path) else ret None
     else ret (Some specific_file)) ;;
  match found with
  | None => ret false
  | Some specific_file =>
      let filename := basename specific_file in
      if endswith ".dot" filename then
        copy_to_folders specific_file filename fo ;;;
        ret true
      else ret false
  end.

(** The body of the loop of [process_all_files]. *)
Definition process_entry (dot_folder : string) (fo : folders) (filename : string)
  : io unit :=
  if endswith ".dot" filename then
    let src_path := join dot_folder filename in
    (dest_path <- copy_to_folders src_path filename fo ;;
     move src_path dest_path ;;;
     ret tt)
  else ret tt.

Definition process_all_files (dot_folder : string) (fo : folders) : io bool :=
  names <- listdir dot_folder ;;
  for_each names (process_entry dot_folder fo) ;;;
  ret true.

(** [specific_file] is [None] for the default argument. *)
Definition organize_dot_files (dot_folder : string) (specific_file : option string)
  : io bool :=
  fo <- create_folder_structure dot_folder ;;
  match specific_file with
  | Some f => if truthy f then process_single_file dot_folder f fo
              else process_all_files dot_folder fo
  | None => process_all_files dot_folder fo
  end.

End Organizer.

(** ** Notions used to state properties of the organizer *)

Module OrganizerSpec.

Import Shutil Organizer.

(** The folders of the layout below [d]. *)
Definition folders_in (d : string) : folders :=
  {| function_graphs := join d "function_graphs";
     directory_graphs := join d "directory_graphs";
     callee_caller_graph := join d "callee_caller_graph";
     caller_callee_graph := join d "caller_callee_graph";
     callee_caller_dot := join (join d "callee_caller_graph") "dot_files";
     caller_callee_dot := join (join d "caller_callee_graph") "dot_files" |}.

(** The values of the dictionary. *)
Definition folder_list (fo : folders) : list string :=
  [ function_graphs fo; directory_graphs fo;
    callee_caller_graph fo; caller_callee_graph fo;
    callee_caller_dot fo; caller_callee_dot fo ].

(** The store with a directory at each of [ps]. *)
Definition add_dirs (ps : list string) (fs : FS.store) : FS.store :=
  foldl (λ fs p, <[p := FS.Dir]> fs) fs ps.

(** The folders that receive a copy of a dot file of that name, the
    one the file is moved to first. *)
Definition destinations (fo : folders) (filename : string) : list string :=
  if startswith "dir_" filename then [directory_graphs fo]
  else function_graphs fo ::
       (if endswith "_icgraph.dot" filename then [callee_caller_dot fo]
        else if endswith "_cgraph.dot" filename then [caller_callee_dot fo]
        else []).

(** The folder of the first copy. *)
Definition primary_folder (fo : folders) (filename : string) : string :=
  if startswith "dir_" filename then directory_graphs fo else function_graphs fo.

(** The paths of the copies. *)
Definition destination_paths (fo : folders) (filename : string) : list string :=
  map (λ folder, join folder filename) (destinations fo filename).

(** A folder that can take a file called [name] from [src]: it is a
    directory, named without a trailing slash, and its entry [name] is
    neither a directory nor [src] itself. *)
Definition can_take (fs : FS.store) (src name folder : string) : Prop :=
  FS.isdir fs folder = true
  ∧ endswith "/" folder = false
  ∧ FS.isdir fs (join folder name) = false
  ∧ join folder name ≠ src.

(** The paths that sorting the files called [names] out of [d] reads,
    writes or removes. *)
Definition touched (d : string) (fo : folders) (names : list string) : list string :=
  flat_map (λ name, if endswith ".dot" name
                    then join d name :: destination_paths fo name
                    else [])
           names.

(** The store with a regular file holding [text] at each of [ps]. *)
Definition add_files (ps : list string) (text : string) (fs : FS.store) : FS.store :=
  foldl (λ fs p, <[p := FS.File text]> fs) fs ps.

(** An operation after which every directory is still one, whether it
    returns or raises. *)
Definition keeps_dirs {A} (m : io A) : Prop :=
  ∀ fs fs' r, m fs = (fs', r) →
    ∀ q, FS.isdir fs q = true → FS.isdir fs' q = true.

End OrganizerSpec.

(** ** Further inputs of the examples *)

(** An edge whose destination [c] is declared nowhere. *)
Definition graph_dangling : Graph :=
  mkGraph [mkNode "a" None; mkNode "b" None] [mkEdge "a" "c"].

(** The node [Node1] declared twice, with two labels. *)
Definition graph_redeclared : Graph :=
  mkGraph [mkNode "Node1" (Some "first"); mkNode "Node1" (Some "second")]
          [mkEdge "Node1" "Node1"].

(** Two edges, and the same two in the other order. *)
Definition graph_two_edges : Graph :=
  mkGraph [mkNode "a" None; mkNode "b" None] [mkEdge "b" "a"; mkEdge "a" "b"].
Definition graph_two_edges_swapped : Graph :=
  mkGraph [mkNode "a" None; mkNode "b" None] [mkEdge "a" "b"; mkEdge "b" "a"].

(** The text made of the given bytes. *)
Definition of_bytes (l : list nat) : string :=
  foldr (λ n s, String (ascii_of_nat n) s) "" l.

(** The no-break space U+00A0 and the line separator U+2028, as UTF-8
    encodes them. *)
Definition nbsp : string := of_bytes [194; 160].
Definition line_separator : string := of_bytes [226; 128; 168].

(** The characters that [str.strip()] removes, each as UTF-8 encodes
    it, in the order of their code points. *)
Definition whitespace : list string :=
  map of_bytes
    [ [9]; [10]; [11]; [12]; [13]; [28]; [29]; [30]; [31]; [32];
      [194; 133]; [194; 160]; [225; 154; 128];
      [226; 128; 128]; [226; 128; 129]; [226; 128; 130]; [226; 128; 131];
      [226; 128; 132]; [226; 128; 133]; [226; 128; 134]; [226; 128; 135];
      [226; 128; 136]; [226; 128; 137]; [226; 128; 138];
      [226; 128; 168]; [226; 128; 169]; [226; 128; 175];
      [226; 129; 159]; [227; 128; 128] ].

(** Characters next to those, which [str.strip()] keeps: U+0084, U+00A1,
    U+180E, U+200B (the zero-width space), U+2060, U+3001 and U+FEFF. *)
Definition not_whitespace : list string :=
  map of_bytes
    [ [194; 132]; [194; 161]; [225; 160; 142]; [226; 128; 139];
      [226; 129; 160]; [227; 128; 129]; [239; 187; 191] ].

(** A listing in which the line [a -> b] comes twice, once followed by
    a no-break space, and in which one line is a line separator. *)
Definition store_wide_space : FS.store :=
  {[ "d" := FS.Dir;
     "d/dot_files" := FS.Dir;
     "d/dot_files/f.dot" := FS.File "";
     "d/f_relationships.txt" :=
       FS.File ("# Function call relationships from f.dot" +:+ nl
                +:+ "a -> b" +:+ nl
                +:+ "a -> b" +:+ nbsp +:+ nl
                +:+ line_separator +:+ nl) ]}.

(** A directory with one dot file under [dot_files] and no listing yet. *)
Definition store_one_dot : FS.store :=
  {[ "d" := FS.Dir;
     "d/dot_files" := FS.Dir;
     "d/dot_files/f.dot" := FS.File "" ]}.

(** Two dot files; where the listing of the second is expected there is
    a directory. *)
Definition store_listing_is_directory : FS.store :=
  {[ "d" := FS.Dir;
     "d/dot_files" := FS.Dir;
     "d/dot_files/a.dot" := FS.File "";
     "d/dot_files/b.dot" := FS.File "";
     "d/a_relationships.txt" := FS.File (relationships_text ["x -> y"] "a.dot" false);
     "d/b_relationships.txt" := FS.Dir ]}.

(** A folder of dot files as Doxygen leaves them, with a file that is
    none. *)
Definition store_unsorted : FS.store :=
  {[ "g" := FS.Dir;
     "g/a_cgraph.dot" := FS.File "digraph a {}";
     "g/b_icgraph.dot" := FS.File "digraph b {}";
     "g/dir_x.dot" := FS.File "digraph x {}";
     "g/notes.txt" := FS.File "notes" ]}.

(** A folder in which a regular file has the name of one of the
    folders of the layout. *)
Definition store_blocked : FS.store :=
  {[ "g" := FS.Dir;
     "g/callee_caller_graph" := FS.File "" ]}.

(** The folder of [store_unsorted] with the layout in place, and one
    graph already sorted. *)
Definition store_layout : FS.store :=
  {[ "g" := FS.Dir;
     "g/function_graphs" := FS.Dir;
     "g/directory_graphs" := FS.Dir;
     "g/callee_caller_graph" := FS.Dir;
     "g/caller_callee_graph" := FS.Dir;
     "g/callee_caller_graph/dot_files" := FS.Dir;
     "g/caller_callee_graph/dot_files" := FS.Dir;
     "g/function_graphs/c_cgraph.dot" := FS.File "digraph c {}";
     "g/b_icgraph.dot" := FS.File "digraph b {}";
     "g/notes.txt" := FS.File "notes" ]}.

(** A folder of dot files in which one entry with such a name is a
    directory. *)
Definition store_dot_directory : FS.store :=
  {[ "g" := FS.Dir;
     "g/a_cgraph.dot" := FS.File "digraph a {}";
     "g/old.dot" := FS.Dir;
     "g/old.dot/b_icgraph.dot" := FS.File "digraph b {}" ]}.

(** ** Facts about the string primitives *)

Local Arguments Ascii.eqb : simpl never.
Local Set Warnings "-clear-no-such-hyp".

Section StringFacts.

Lemma app_nil_l' (s : string) : "" +:+ s = s.
Proof. reflexivity. Qed.

Lemma app_cons (a : ascii) (s t : string) : String a s +:+ t = String a (s +:+ t).
Proof. reflexivity. Qed.

Lemma app_nil_r' (s : string) : s +:+ "" = s.
Proof. induction s as [|a s IH]; [done|]. by rewrite app_cons, IH. Qed.

Lemma app_assoc' (s t u : string) : (s +:+ t) +:+ u = s +:+ t +:+ u.
Proof. induction s as [|a s IH]; [done|]. by rewrite !app_cons, IH. Qed.

Lemma startswith_app (p t : string) : startswith p (p +:+ t) = true.
Proof.
  induction p as [|a p IH]; [done|].
  rewrite app_cons. simpl. by rewrite Ascii.eqb_refl.
Qed.

Lemma startswith_inv (p s : string) :
  startswith p s = true → ∃ t, s = p +:+ t.
Proof.
  revert s. induction p as [|a p IH]; intros s H.
  - by exists s.
  - destruct s as [|b s]; [done|]. simpl in H.
    destruct (Ascii.eqb a b) eqn:E; [|done].
    apply Ascii.eqb_eq in E as ->.
    destruct (IH _ H) as [t ->]. by exists t.
Qed.

Lemma str_in_intro (sub pre post : string) :
  str_in sub (pre +:+ sub +:+ post) = true.
Proof.
  induction pre as [|a pre IH].
  - rewrite app_nil_l'. destruct (sub +:+ post) eqn:E; simpl;
      rewrite <- E, startswith_app; done.
  - rewrite app_cons. simpl. rewrite IH. apply orb_true_r.
Qed.

Lemma str_in_inv (sub s : string) :
  str_in sub s = true → ∃ pre post, s = pre +:+ sub +:+ post.
Proof.
  induction s as [|a s IH]; simpl; intros H.
  - rewrite orb_false_r in H. apply startswith_inv in H as [t ->].
    by exists "", t.
  - apply orb_true_iff in H as [H|H].
    + apply startswith_inv in H as [t ->]. by exists "", t.
    + destruct (IH H) as (pre & post & ->). by exists (String a pre), post.
Qed.

End StringFacts.

(** ** Soundness and completeness of the matcher *)

Section RegexFacts.

Lemma star_sound {R} (p : ascii → bool) (k : string → option R) s m r :
  Re.star p k s = Some (m, r) →
  all_chars p m = true ∧ ∃ s2, s = m +:+ s2 ∧ k s2 = Some r.
Proof.
  revert m r. induction s as [|c s IH]; intros m r; simpl.
  - destruct (k "") eqn:Hk; [|done]. intros [= <- <-]. eauto.
  - destruct (p c) eqn:Hp.
    + destruct (Re.star p k s) as [[m' r']|] eqn:Hs.
      * intros [= <- <-]. destruct (IH _ _ eq_refl) as (Hall & s2 & -> & Hk).
        split; [by simpl; rewrite Hp|]. by exists s2.
      * destruct (k (String c s)) eqn:Hk; [|done]. intros [= <- <-]. eauto.
    + destruct (k (String c s)) eqn:Hk; [|done]. intros [= <- <-]. eauto.
Qed.

Lemma star_complete {R} (p : ascii → bool) (k : string → option R) m s2 :
  all_chars p m = true → is_Some (k s2) → is_Some (Re.star p k (m +:+ s2)).
Proof.
  intros Hall [r Hk]. induction m as [|c m IH].
  - rewrite app_nil_l'. destruct s2 as [|c s2]; simpl.
    + rewrite Hk. eauto.
    + destruct (p c); [destruct (Re.star p k s2) as [[??]|]|]; rewrite ?Hk; eauto.
  - simpl in Hall. apply andb_true_iff in Hall as [Hc Hall].
    rewrite app_cons. simpl. rewrite Hc.
    destruct (IH Hall) as [[m' r'] ->]. eauto.
Qed.

Lemma plus_sound {R} (p : ascii → bool) (k : string → option R) s m r :
  Re.plus p k s = Some (m, r) →
  m ≠ "" ∧ all_chars p m = true ∧ ∃ s2, s = m +:+ s2 ∧ k s2 = Some r.
Proof.
  destruct s as [|c s]; simpl; [done|].
  destruct (p c) eqn:Hp; [|done].
  destruct (Re.star p k s) as [[m' r']|] eqn:Hs; [|done].
  intros [= <- <-]. apply star_sound in Hs as (Hall & s2 & -> & Hk).
  split; [done|]. split; [by simpl; rewrite Hp|]. by exists s2.
Qed.

Lemma plus_complete {R} (p : ascii → bool) (k : string → option R) m s2 :
  m ≠ "" → all_chars p m = true → is_Some (k s2) →
  is_Some (Re.plus p k (m +:+ s2)).
Proof.
  intros Hne Hall Hk. destruct m as [|c m]; [done|].
  simpl in Hall. apply andb_true_iff in Hall as [Hc Hall].
  rewrite app_cons. simpl. rewrite Hc.
  destruct (star_complete p k m s2 Hall Hk) as [[m' r'] ->]. eauto.
Qed.

Lemma match_here_sound r s caps :
  Re.match_here r s = Some caps →
  Forall2 accepts r caps ∧ ∃ rest, s = Re.group0 caps +:+ rest.
Proof.
  revert s caps. induction r as [|a r IH]; intros s caps; simpl.
  - intros [= <-]. split; [constructor|]. by exists s.
  - destruct (Re.rep a) eqn:Hrep.
    + destruct s as [|c s]; [done|].
      destruct (Re.cls a c) eqn:Hc; [|done].
      destruct (Re.match_here r s) as [caps'|] eqn:Hm; [|done].
      intros [= <-]. destruct (IH _ _ Hm) as (HF & rest & ->).
      split; [|by exists rest].
      constructor; [|done]. unfold accepts. rewrite Hrep. eauto.
    + destruct (Re.star _ _ s) as [[m caps']|] eqn:Hs; [|done].
      intros [= <-]. apply star_sound in Hs as (Hall & s2 & -> & Hk).
      destruct (IH _ _ Hk) as (HF & rest & ->).
      split.
      * constructor; [|done]. unfold accepts. by rewrite Hrep.
      * exists rest. simpl. by rewrite app_assoc'.
    + destruct (Re.plus _ _ s) as [[m caps']|] eqn:Hs; [|done].
      intros [= <-]. apply plus_sound in Hs as (Hne & Hall & s2 & -> & Hk).
      destruct (IH _ _ Hk) as (HF & rest & ->).
      split.
      * constructor; [|done]. unfold accepts. by rewrite Hrep.
      * exists rest. simpl. by rewrite app_assoc'.
Qed.

Lemma match_here_complete r caps rest :
  Forall2 accepts r caps →
  is_Some (Re.match_here r (Re.group0 caps +:+ rest)).
Proof.
  induction 1 as [|a m r caps Ha HF IH]; simpl; [eauto|].
  unfold accepts in Ha. rewrite app_assoc'.
  destruct (Re.rep a).
  - destruct Ha as (c & -> & Hc). rewrite app_cons, app_nil_l', Hc.
    destruct IH as [? ->]. eauto.
  - destruct (star_complete (Re.cls a) (Re.match_here r) m _ Ha IH) as [[??] ->].
    eauto.
  - destruct Ha as [Hne Ha].
    destruct (plus_complete (Re.cls a) (Re.match_here r) m _ Hne Ha IH) as [[??] ->].
    eauto.
Qed.

Lemma search_sound r s caps :
  Re.search r s = Some caps →
  Forall2 accepts r caps ∧ ∃ pre rest, s = pre +:+ Re.group0 caps +:+ rest.
Proof.
  induction s as [|c s IH]; simpl.
  - destruct (Re.match_here r "") eqn:Hm; [|done]. intros [= ->].
    apply match_here_sound in Hm as (HF & rest & ->).
    split; [done|]. by exists "", rest.
  - destruct (Re.match_here r (String c s)) eqn:Hm.
    + intros [= ->]. apply match_here_sound in Hm as (HF & rest & ->).
      split; [done|]. by exists "", rest.
    + intros Hs. destruct (IH Hs) as (HF & pre & rest & ->).
      split; [done|]. by exists (String c pre), rest.
Qed.

Lemma search_complete r caps pre rest :
  Forall2 accepts r caps →
  is_Some (Re.search r (pre +:+ Re.group0 caps +:+ rest)).
Proof.
  intros HF. induction pre as [|c pre IH].
  - rewrite app_nil_l'. destruct (match_here_complete r caps rest HF) as [x Hx].
    destruct (Re.group0 caps +:+ rest); simpl; rewrite Hx; eauto.
  - rewrite app_cons. simpl. destruct (Re.match_here r _); eauto.
Qed.

End RegexFacts.

(** ** The two line-break cuts amount to one cut at the leftmost marker *)

Section LineBreaks.

Lemma split_first_absent sep s : str_in sep s = false → split_first sep s = s.
Proof.
  induction s as [|c s IH]; simpl.
  - by destruct (startswith sep "").
  - intros [H1 H2]%orb_false_iff. rewrite H1. by rewrite IH.
Qed.

Lemma cut_line_breaks_split l :
  cut_line_breaks l = split_first "\n" (split_first "\l" l).
Proof.
  unfold cut_line_breaks.
  destruct (str_in "\l" l) eqn:H1.
  - destruct (str_in "\n" _) eqn:H2; [done|].
    by rewrite (split_first_absent "\n" _ H2).
  - rewrite (split_first_absent "\l" l H1).
    destruct (str_in "\n" l) eqn:H2; [done|].
    by rewrite (split_first_absent "\n" _ H2).
Qed.

Lemma split_first_cons sep c s :
  split_first sep (String c s)
  = if startswith sep (String c s) then "" else String c (split_first sep s).
Proof. reflexivity. Qed.

Lemma startswith_cons a p c s :
  startswith (String a p) (String c s)
  = if Ascii.eqb a c then startswith p s else false.
Proof. reflexivity. Qed.

Lemma startswith_nil s : startswith "" s = true.
Proof. by destruct s. Qed.

(** Cutting at the first marker does not disturb a test for the
    second letter of the other marker at the front. *)
Lemma startswith_n_split_first_l l :
  startswith "n" (split_first "\l" l) = startswith "n" l.
Proof.
  destruct l as [|b l]; [done|].
  rewrite split_first_cons.
  destruct (startswith "\l" (String b l)) eqn:Hs; [|by rewrite !startswith_cons, !startswith_nil].
  rewrite startswith_cons in Hs.
  destruct (Ascii.eqb "\" b) eqn:Hb; [|done].
  apply Ascii.eqb_eq in Hb as <-. done.
Qed.

Lemma cut_line_breaks_spec l : cut_line_breaks l = before_first_break l.
Proof.
  rewrite cut_line_breaks_split.
  induction l as [|c l IH]; [done|].
  change (before_first_break (String c l))
    with (if startswith "\l" (String c l) || startswith "\n" (String c l)
          then "" else String c (before_first_break l)).
  rewrite split_first_cons.
  destruct (startswith "\l" (String c l)) eqn:Hl; [done|].
  rewrite split_first_cons, IH, orb_false_l.
  rewrite !(startswith_cons "\"), startswith_n_split_first_l. done.
Qed.

End LineBreaks.

(** ** The two patterns of the program *)

Section Patterns.

Lemma none_of_all c s :
  all_chars (λ x, negb (Ascii.eqb c x)) s = true ↔ str_in (String c "") s = false.
Proof.
  induction s as [|a s IH]; [done|].
  cbn [all_chars str_in]. rewrite startswith_cons, startswith_nil.
  destruct (Ascii.eqb c a); simpl; [done|]. apply IH.
Qed.

Lemma html_caps caps :
  Forall2 accepts html_label_re caps ↔
  ∃ t1 inner t2,
    caps = ["<"; t1; ">"; inner; "<"; "/"; t2; ">"]
    ∧ str_in ">" t1 = false ∧ inner ≠ "" ∧ str_in "<" inner = false
    ∧ str_in ">" t2 = false.
Proof.
  unfold html_label_re. split.
  - intros H.
    repeat (apply Forall2_cons_inv_l in H as (? & ? & ? & H & ->)).
    apply Forall2_nil_inv_l in H as ->.
    unfold accepts in *; simpl in *.
    repeat match goal with
           | H : ∃ _, _ ∧ _ |- _ => destruct H as (? & -> & ?%Ascii.eqb_eq); subst
           | H : _ ∧ _ |- _ => destruct H
           | H : all_chars _ _ = true |- _ => apply none_of_all in H
           end.
    eauto 10.
  - intros (t1 & inner & t2 & -> & H1 & Hne & H2 & H3).
    repeat constructor; unfold accepts; simpl;
      try (eexists; split; [reflexivity|apply Ascii.eqb_refl]);
      try split; try done; by apply none_of_all.
Qed.

Lemma first_tag_inner_sound s inner :
  first_tag_inner s = Some inner → between_tags s inner.
Proof.
  unfold first_tag_inner. destruct (Re.search _ s) as [caps|] eqn:Hs; [|done].
  intros [= <-]. apply search_sound in Hs as (HF & pre & rest & ->).
  apply html_caps in HF as (t1 & inner & t2 & -> & ? & ? & ? & ?).
  exists pre, t1, t2, rest. split; [|done].
  unfold Re.group0. simpl. by rewrite !app_assoc', app_nil_l'.
Qed.

Lemma first_tag_inner_complete s inner :
  between_tags s inner → is_Some (first_tag_inner s).
Proof.
  intros (pre & t1 & t2 & post & -> & ? & ? & ? & ?).
  unfold first_tag_inner.
  destruct (search_complete html_label_re ["<"; t1; ">"; inner; "<"; "/"; t2; ">"]
              pre post) as [caps Hs].
  { apply html_caps. eauto 10. }
  unfold Re.group0 in Hs. simpl in Hs.
  rewrite !app_assoc' in Hs. change ("" +:+ post) with post in Hs.
  unfold html_label_re in *.
  match type of Hs with
  | Re.search _ ?x = _ =>
      match goal with
      | |- context [Re.search _ ?y] => change y with x
      end
  end.
  rewrite Hs. eauto.
Qed.

Lemma first_tag_inner_guard s :
  is_Some (first_tag_inner s) → str_in "<" s && str_in ">" s = true.
Proof.
  intros [inner (pre & t1 & t2 & post & -> & _)%first_tag_inner_sound].
  apply andb_true_iff. split.
  - apply (str_in_intro "<").
  - pose proof (str_in_intro ">" (pre +:+ "<" +:+ t1)
                  (inner +:+ "</" +:+ t2 +:+ ">" +:+ post)) as H.
    by rewrite !app_assoc' in H.
Qed.

(** *** The identifier pattern *)

Lemma star_longest {R} (p : ascii → bool) (r0 : R) s m r :
  Re.star p (λ _, Some r0) s = Some (m, r) →
  ∃ s2, s = m +:+ s2 ∧ all_chars p m = true ∧ r = r0
        ∧ match s2 with String d _ => p d = false | "" => True end.
Proof.
  revert m r. induction s as [|c s IH]; intros m r; simpl.
  - intros [= <- <-]. by exists "".
  - destruct (p c) eqn:Hp.
    + destruct (Re.star p _ s) as [[m' r']|] eqn:Hs.
      * intros [= <- <-]. destruct (IH _ _ eq_refl) as (s2 & -> & Hall & -> & Hnext).
        exists s2. simpl. by rewrite Hp.
      * intros [= <- <-]. exfalso.
        destruct (star_complete p (λ _, Some r0) "" s eq_refl) as [? Hx]; [eauto|].
        rewrite app_nil_l' in Hx. congruence.
    + intros [= <- <-]. exists (String c s). by rewrite Hp.
Qed.

Lemma identifier_match_here s :
  Re.match_here identifier_re s =
  match s with
  | String c s' =>
      if is_alpha_ c then
        match Re.star is_alnum_ (Re.match_here []) s' with
        | Some (m, caps) => Some (String c "" :: m :: caps)
        | None => None
        end
      else None
  | "" => None
  end.
Proof.
  destruct s as [|c s]; [done|]. simpl.
  destruct (is_alpha_ c); [|done].
  by destruct (Re.star _ _ s) as [[??]|].
Qed.

Lemma identifier_search_sound name caps :
  Re.search identifier_re name = Some caps → first_identifier name (Re.group0 caps).
Proof.
  induction name as [|c name IH]; [done|].
  cbn [Re.search]. rewrite identifier_match_here.
  destruct (is_alpha_ c) eqn:Hc.
  - destruct (Re.star _ _ name) as [[m caps']|] eqn:Hs.
    + intros [= <-].
      apply (star_longest is_alnum_ []) in Hs as (post & -> & Hall & -> & Hnext).
      exists "", post. unfold Re.group0. simpl.
      rewrite app_nil_r', !app_nil_l'. done.
    + exfalso.
      destruct (star_complete is_alnum_ (Re.match_here []) "" name eq_refl) as [? Hx];
        [by eexists|].
      rewrite app_nil_l' in Hx. congruence.
  - intros Hs. destruct (IH Hs) as (pre & post & -> & Hpre & Hid & Hpost).
    exists (String c pre), post. simpl. by rewrite Hc.
Qed.

Lemma identifier_search_none name :
  Re.search identifier_re name = None ↔
  all_chars (λ c, negb (is_alpha_ c)) name = true.
Proof.
  induction name as [|c name IH]; [done|].
  cbn [Re.search all_chars]. rewrite identifier_match_here.
  destruct (is_alpha_ c) eqn:Hc; cbn [negb andb].
  - destruct (star_complete is_alnum_ (Re.match_here []) "" name eq_refl) as [[??] Hx];
      [by eexists|].
    rewrite app_nil_l' in Hx. rewrite Hx. done.
  - apply IH.
Qed.

End Patterns.
(** ** The program follows the fallback chain *)

Section Chain.

Lemma extract_function_name_chain node :
  extract_function_name node = resolve_chain node.
Proof.
  unfold extract_function_name, resolve_chain.
  destruct (stripped_label node) as [l|]; [|done].
  destruct (truthy l); [|done]. cbn zeta.
  rewrite cut_line_breaks_spec.
  destruct (str_in "<" _ && str_in ">" _) eqn:Hg.
  - unfold first_tag_inner. by destruct (Re.search _ _).
  - destruct (first_tag_inner _) eqn:Hf; [|done].
    assert (is_Some (first_tag_inner (before_first_break l))) as Hs by eauto.
    apply first_tag_inner_guard in Hs. congruence.
Qed.

Lemma first_tag_inner_spec s :
  match first_tag_inner s with
  | Some inner => between_tags s inner
  | None => ∀ inner, ¬ between_tags s inner
  end.
Proof.
  destruct (first_tag_inner s) as [inner|] eqn:Hf.
  - by apply first_tag_inner_sound.
  - intros inner [x Hx]%first_tag_inner_complete. congruence.
Qed.

Lemma identifier_shaped_nonempty s : identifier_shaped s → s ≠ "".
Proof. by destruct s. Qed.

Lemma name_from_identifier_nonempty name :
  name ≠ "" → name_from_identifier name ≠ "".
Proof.
  intros Hne. unfold name_from_identifier.
  destruct (Re.search _ name) as [caps|] eqn:Hs; [|done].
  apply identifier_search_sound in Hs as (_ & _ & _ & _ & Hid & _).
  by apply identifier_shaped_nonempty.
Qed.

End Chain.

(** ** Extraction *)

Section Extraction.

Lemma foldl_snoc_map {A B} (f : A → B) (init : list B) (xs : list A) :
  foldl (λ acc x, acc ++ [f x]) init xs = init ++ map f xs.
Proof.
  revert init. induction xs as [|x xs IH]; intros init; simpl.
  - by rewrite app_nil_r.
  - by rewrite IH, <- app_assoc.
Qed.

Lemma extract_relationships_from_edges_map graph node_to_function is_icgraph :
  extract_relationships_from_edges graph node_to_function is_icgraph
  = map (edge_relationship node_to_function is_icgraph) (get_edges graph).
Proof. unfold extract_relationships_from_edges. by rewrite foldl_snoc_map. Qed.

Lemma mapping_lookup (nodes : list Node) (id : string) :
  foldl (λ node_to_function node,
           <[strip_quotes (get_name node) := extract_function_name node]>
             node_to_function) (∅ : gmap string string) nodes !! id
  = extract_function_name
      <$> last (filter (λ n, strip_quotes (get_name n) = id) nodes).
Proof.
  induction nodes as [|n nodes IH] using rev_ind; [done|].
  rewrite foldl_snoc, filter_app, lookup_insert.
  rewrite filter_cons, filter_nil.
  destruct (decide (strip_quotes (get_name n) = id)).
  - by rewrite last_snoc.
  - by rewrite app_nil_r.
Qed.

Lemma get_or_key_mapping graph id :
  get_or_key (create_node_to_function_mapping graph) id = resolved graph id.
Proof.
  unfold get_or_key, create_node_to_function_mapping, resolved, node_named.
  rewrite mapping_lookup. by destruct (last _).
Qed.

End Extraction.

(** ** Sorted listings and unions of listings *)

Section Sorting.

Lemma sorted_Sorted xs : Sorted String.le (sorted xs).
Proof. apply (Sorted_merge_sort String.le). Qed.

Lemma sorted_Permutation xs : sorted xs ≡ₚ xs.
Proof. apply merge_sort_Permutation. Qed.

Lemma sorted_elem_of xs x : x ∈ sorted xs ↔ x ∈ xs.
Proof. by rewrite sorted_Permutation. Qed.

Lemma sorted_length xs : length (sorted xs) = length xs.
Proof. by rewrite sorted_Permutation. Qed.

Lemma sorted_NoDup xs : NoDup xs → NoDup (sorted xs).
Proof. by rewrite sorted_Permutation. Qed.

(** A listing made from a set: ascending, without repetition, with
    exactly the members of the set. *)
Lemma sorted_elements (X : gset string) :
  Sorted String.le (sorted (elements X))
  ∧ NoDup (sorted (elements X))
  ∧ (∀ r, r ∈ sorted (elements X) ↔ r ∈ X)
  ∧ length (sorted (elements X)) = size X.
Proof.
  split; [apply sorted_Sorted|]. split; [apply sorted_NoDup, NoDup_elements|].
  split; [|by rewrite sorted_length].
  intros r. by rewrite sorted_elem_of, elem_of_elements.
Qed.

Lemma sorted_keys_spec (d : gmap string bool) :
  Sorted String.le (sorted_keys d)
  ∧ NoDup (sorted_keys d)
  ∧ (∀ r, r ∈ sorted_keys d ↔ r ∈ dom d)
  ∧ length (sorted_keys d) = size d.
Proof.
  unfold sorted_keys.
  split; [apply sorted_Sorted|].
  split; [apply sorted_NoDup, NoDup_fst_map_to_list|].
  split.
  - intros r. rewrite sorted_elem_of, elem_of_dom.
    change (map fst (map_to_list d)) with ((map_to_list d).*1).
    rewrite list_elem_of_fmap. split.
    + intros ([k v] & -> & Hkv). apply elem_of_map_to_list in Hkv. eauto.
    + intros [v Hv]. exists (r, v). split; [done|]. by apply elem_of_map_to_list.
  - rewrite sorted_length, length_map. apply length_map_to_list.
Qed.

End Sorting.

Section Aggregation.

Lemma foldl_cond_snoc {A B} (c : A → bool) (f : A → B) (init : list B) (xs : list A) :
  foldl (λ acc x, if c x then acc ++ [f x] else acc) init xs
  = init ++ map f (filter (λ x, c x = true) xs).
Proof.
  revert init. induction xs as [|x xs IH]; intros init; simpl.
  - by rewrite app_nil_r.
  - rewrite IH, filter_cons. destruct (c x) eqn:Hc.
    + rewrite decide_True by done. simpl. by rewrite <- app_assoc.
    + rewrite decide_False by done. done.
Qed.

Lemma find_relationship_files_spec fs dot_files :
  find_relationship_files fs dot_files
  = filter (λ p, FS.exists_ fs p = true) (map listing_path dot_files).
Proof.
  unfold find_relationship_files.
  change (foldl _ [] dot_files)
    with (foldl (λ acc x, if (λ d, FS.exists_ fs (listing_path d)) x
                          then acc ++ [listing_path x] else acc) [] dot_files).
  rewrite foldl_cond_snoc. simpl.
  induction dot_files as [|d ds IH]; [done|].
  simpl. rewrite !filter_cons. case_decide; simpl; by rewrite IH.
Qed.

Lemma fold_entries_set (acc : gset string) ls :
  foldl (λ all_relationships line,
           if is_entry_line line
           then {[ strip_ws line ]} ∪ all_relationships
           else all_relationships) acc ls
  = list_to_set (omap entry_of_line ls) ∪ acc.
Proof.
  revert acc. induction ls as [|l ls IH]; intros acc; simpl.
  - set_solver.
  - rewrite IH. unfold entry_of_line at 2.
    destruct (is_entry_line l); simpl; set_solver.
Qed.

Lemma collect_unique_go fs rel_files (acc : gset string) :
  Forall (λ f, FS.isfile fs f = true) rel_files →
  foldl (λ acc rel_file,
           all_relationships ← acc;
           text ← FS.read fs rel_file;
           Some (foldl (λ all_relationships line,
                          if is_entry_line line
                          then {[ strip_ws line ]} ∪ all_relationships
                          else all_relationships)
                       all_relationships (lines text)))
        (Some acc) rel_files
  = Some (union_of_listings fs rel_files ∪ acc).
Proof.
  intros HF. revert acc. induction HF as [|f fs' Hf HF IH]; intros acc; simpl.
  - f_equal. unfold union_of_listings. simpl. set_solver.
  - assert (∃ text, FS.read fs f = Some text) as [text Hread].
    { unfold FS.isfile in Hf. unfold FS.read.
      destruct (fs !! f) as [[|text]|]; try done. eauto. }
    rewrite Hread. simpl. rewrite fold_entries_set, IH. f_equal.
    unfold union_of_listings. simpl. rewrite Hread. simpl.
    fold (file_relationships text). set_solver.
Qed.

Lemma collect_unique_relationships_spec fs rel_files :
  Forall (λ f, FS.isfile fs f = true) rel_files →
  collect_unique_relationships fs rel_files = Some (union_of_listings fs rel_files).
Proof.
  intros HF. unfold collect_unique_relationships.
  rewrite collect_unique_go by done. f_equal. set_solver.
Qed.

Lemma elem_of_union_of_listings fs files r :
  r ∈ union_of_listings fs files ↔
  ∃ f text, f ∈ files ∧ FS.read fs f = Some text ∧ r ∈ file_relationships text.
Proof.
  unfold union_of_listings. rewrite elem_of_union_list. split.
  - intros (X & HX & Hr). apply list_elem_of_fmap in HX as (f & -> & Hf).
    destruct (FS.read fs f) as [text|] eqn:Hread; simpl in Hr; [|set_solver].
    eauto.
  - intros (f & text & Hf & Hread & Hr).
    exists (file_relationships text). split; [|done].
    apply list_elem_of_fmap. exists f. by rewrite Hread.
Qed.

End Aggregation.

(** ** The file store and the master listing *)

Section FileStore.

Lemma isfile_read fs p : FS.isfile fs p = true ↔ is_Some (FS.read fs p).
Proof.
  unfold FS.isfile, FS.read. destruct (fs !! p) as [[|t]|]; split; try done;
    intros [? [=]].
Qed.

Lemma write_spec fs p text :
  FS.write fs p text
  = if FS.isdir fs p then None else Some (<[p := FS.File text]> fs).
Proof. reflexivity. Qed.

Lemma read_write fs p text : FS.read (<[p := FS.File text]> fs) p = Some text.
Proof. unfold FS.read. by rewrite lookup_insert_eq. Qed.

Lemma write_other fs p q text :
  q ≠ p → (<[p := FS.File text]> fs : FS.store) !! q = fs !! q.
Proof. intros. by rewrite lookup_insert_ne. Qed.

End FileStore.

Section Master.

Lemma fold_entries_dict (acc : gmap string bool) ls :
  dom (foldl (λ relationships line,
                if is_entry_line line
                then <[strip_ws line := true]> relationships
                else relationships) acc ls)
  = list_to_set (omap entry_of_line ls) ∪ dom acc.
Proof.
  revert acc. induction ls as [|l ls IH]; intros acc; simpl.
  - set_solver.
  - rewrite IH. unfold entry_of_line at 2.
    destruct (is_entry_line l); simpl; [|set_solver].
    rewrite dom_insert_L. set_solver.
Qed.

Lemma read_relationships_from_file_dom fs file_path :
  dom (read_relationships_from_file fs file_path)
  = from_option file_relationships ∅ (FS.read fs file_path).
Proof.
  unfold read_relationships_from_file, FS.isfile, FS.read.
  destruct (fs !! file_path) as [[|text]|]; simpl; try apply dom_empty_L.
  rewrite fold_entries_dict, dom_empty_L. unfold file_relationships. set_solver.
Qed.

Lemma collect_files_dom fs root files (acc : gmap string bool) :
  dom (foldl (λ relationships file,
                if is_per_file_listing file then
                  read_relationships_from_file fs (join root file) ∪ relationships
                else relationships) acc files)
  = union_of_listings fs
      (map (join root) (filter (λ f, is_per_file_listing f = true) files))
    ∪ dom acc.
Proof.
  revert acc. induction files as [|f files IH]; intros acc; simpl.
  - unfold union_of_listings. simpl. set_solver.
  - rewrite IH, filter_cons. destruct (is_per_file_listing f) eqn:Hf.
    + rewrite decide_True by done. unfold union_of_listings. simpl.
      rewrite dom_union_L, read_relationships_from_file_dom. set_solver.
    + rewrite decide_False by done. done.
Qed.

Lemma union_of_listings_app fs l1 l2 :
  union_of_listings fs (l1 ++ l2)
  = union_of_listings fs l1 ∪ union_of_listings fs l2.
Proof. unfold union_of_listings. by rewrite map_app, union_list_app_L. Qed.

Lemma collect_walk_dom fs (entries : list (string * list string * list string))
    (acc : gmap string bool) :
  dom (foldl (λ relationships '(root, _, files),
                foldl (λ relationships file,
                         if is_per_file_listing file then
                           let rel_file := join root file in
                           let file_relationships :=
                             read_relationships_from_file fs rel_file in
                           file_relationships ∪ relationships
                         else relationships)
                      relationships files)
             acc entries)
  = union_of_listings fs
      (flat_map (λ '(root, _, files),
                   map (join root)
                       (filter (λ f, is_per_file_listing f = true) files))
                entries)
    ∪ dom acc.
Proof.
  revert acc. induction entries as [|[[root ds] files] entries IH]; intros acc; simpl.
  - unfold union_of_listings. simpl. set_solver.
  - rewrite IH. rewrite collect_files_dom, union_of_listings_app. set_solver.
Qed.

Lemma collect_relationships_from_directory_dom fs directory :
  dom (collect_relationships_from_directory fs directory)
  = union_of_listings fs (listings_below fs directory).
Proof.
  unfold collect_relationships_from_directory, listings_below.
  rewrite collect_walk_dom, dom_empty_L. set_solver.
Qed.

Lemma category_relationships_spec fs category_dir :
  category_relationships fs category_dir
  = if FS.isdir fs category_dir then
      if FS.isfile fs (join category_dir "all_function_relationships.txt")
      then read_relationships_from_file fs
             (join category_dir "all_function_relationships.txt")
      else collect_relationships_from_directory fs category_dir
    else ∅.
Proof.
  unfold category_relationships. by destruct (FS.isdir fs category_dir).
Qed.

End Master.

(** ** The walk over a directory tree *)

Section Walk.

Lemma length_app' (s t : string) :
  String.length (s +:+ t) = String.length s + String.length t.
Proof. induction s as [|a s IH]; [done|]. rewrite app_cons. simpl. by rewrite IH. Qed.

Lemma strip_prefix_spec p s t : strip_prefix p s = Some t ↔ s = p +:+ t.
Proof.
  revert s. induction p as [|a p IH]; intros s.
  - simpl. rewrite app_nil_l'. split; congruence.
  - destruct s as [|b s]; simpl; [split; [done|by rewrite app_cons]|].
    rewrite app_cons. destruct (Ascii.eqb a b) eqn:E.
    + apply Ascii.eqb_eq in E as ->. rewrite IH. split; congruence.
    + apply Ascii.eqb_neq in E. split; [done|congruence].
Qed.

Lemma join_plain d name :
  str_in "/" name = false → join d name = dir_prefix d +:+ name.
Proof.
  intros Hn. unfold join, dir_prefix.
  assert (startswith "/" name = false) as ->.
  { destruct name; simpl in *; [done|]. by apply orb_false_iff in Hn as [-> _]. }
  destruct (negb (truthy d) || endswith "/" d); [done|]. by rewrite app_assoc'.
Qed.

Lemma entry_name_spec d k name :
  FS.entry_name d k = Some name ↔
  k = join d name ∧ name ≠ "" ∧ str_in "/" name = false.
Proof.
  unfold FS.entry_name. fold (dir_prefix d). split.
  - destruct (strip_prefix _ k) as [t|] eqn:Hs; [|done].
    apply strip_prefix_spec in Hs as ->.
    destruct (truthy t) eqn:Ht; [|done].
    destruct (str_in "/" t) eqn:Hsl; [done|]. simpl. intros [= ->].
    split; [by rewrite join_plain|]. split; [by destruct name|done].
  - intros (-> & Hne & Hsl). rewrite join_plain by done.
    assert (strip_prefix (dir_prefix d) (dir_prefix d +:+ name) = Some name) as ->
      by by apply strip_prefix_spec.
    rewrite Hsl. by destruct name.
Qed.

Lemma elem_of_listdir fs d name :
  name ∈ FS.listdir fs d ↔
  is_Some (fs !! join d name) ∧ name ≠ "" ∧ str_in "/" name = false.
Proof.
  unfold FS.listdir. rewrite list_elem_of_omap. split.
  - intros (k & Hk & (-> & ? & ?)%entry_name_spec).
    change (map fst (map_to_list fs)) with ((map_to_list fs).*1) in Hk.
    apply list_elem_of_fmap in Hk as ([k' e] & Hk' & He). simpl in Hk'. subst k'.
    apply elem_of_map_to_list in He. eauto.
  - intros ([e He] & ? & ?). exists (join d name). split.
    + change (map fst (map_to_list fs)) with ((map_to_list fs).*1).
      apply list_elem_of_fmap. exists (join d name, e). split; [done|].
      by apply elem_of_map_to_list.
    + by apply entry_name_spec.
Qed.

Lemma listdir_longer fs d name :
  name ∈ FS.listdir fs d → String.length d < String.length (join d name).
Proof.
  intros (_ & Hne & Hsl)%elem_of_listdir. rewrite join_plain by done.
  rewrite length_app'. unfold dir_prefix.
  destruct name; [done|]. simpl.
  destruct (_ || _); rewrite ?length_app'; lia.
Qed.

Lemma isdir_dom fs d : FS.isdir fs d = true → d ∈ dom fs.
Proof.
  unfold FS.isdir. intros H. apply elem_of_dom.
  destruct (fs !! d); [eauto|done].
Qed.

Lemma longer_dirs_step fs d name :
  name ∈ FS.listdir fs d → FS.isdir fs (join d name) = true →
  size (longer_dirs fs (join d name)) < size (longer_dirs fs d).
Proof.
  intros Hn Hd. apply subset_size. pose proof (listdir_longer _ _ _ Hn).
  unfold longer_dirs. apply isdir_dom in Hd. split.
  - intros k. rewrite !elem_of_filter. intros [? ?]. split; [lia|done].
  - intros Hsub. specialize (Hsub (join d name)).
    rewrite !elem_of_filter in Hsub. destruct Hsub as [? _]; [done|lia].
Qed.

Lemma longer_dirs_top fs d :
  FS.isdir fs d = true → size (longer_dirs fs d) < size fs.
Proof.
  intros Hd%isdir_dom. rewrite <- (size_dom (D := gset string) fs).
  apply subset_size. unfold longer_dirs. split.
  - intros k. rewrite elem_of_filter. tauto.
  - intros Hsub. specialize (Hsub d Hd). rewrite elem_of_filter in Hsub. lia.
Qed.

Lemma walk_go_sound fs fuel top e :
  e ∈ FS.walk_go fuel fs top → ∃ root, reach fs top root ∧ e = walk_entry fs root.
Proof.
  revert top. induction fuel as [|fuel IH]; intros top; simpl.
  - by intros ?%elem_of_nil.
  - destruct (FS.isdir fs top) eqn:Htop; [|by intros ?%elem_of_nil].
    intros [->|Hin]%elem_of_cons.
    + exists top. split; [by constructor|done].
    + apply list_elem_of_In, in_flat_map in Hin as (name & Hname & Hin).
      apply list_elem_of_In, list_elem_of_filter in Hname as [Hd Hname].
      apply list_elem_of_In, IH in Hin as (root & Hreach & ->).
      exists root. split; [|done]. by eapply reach_step.
Qed.

Lemma walk_go_complete fs top root :
  reach fs top root →
  ∀ fuel, size (longer_dirs fs top) < fuel →
          walk_entry fs root ∈ FS.walk_go fuel fs top.
Proof.
  induction 1 as [d Hd|d name root Hd Hname Hsub Hreach IH]; intros fuel Hfuel.
  - destruct fuel as [|fuel]; [lia|]. simpl. rewrite Hd. apply elem_of_cons. by left.
  - destruct fuel as [|fuel]; [lia|]. simpl. rewrite Hd. apply elem_of_cons. right.
    apply list_elem_of_In, in_flat_map. exists name. split.
    + apply list_elem_of_In, list_elem_of_filter. done.
    + apply list_elem_of_In, IH.
      pose proof (longer_dirs_step fs d name Hname Hsub). lia.
Qed.

Lemma reach_isdir fs top root : reach fs top root → FS.isdir fs top = true.
Proof. by destruct 1. Qed.

Theorem walk_spec fs top e :
  e ∈ FS.walk fs top ↔ ∃ root, reach fs top root ∧ e = walk_entry fs root.
Proof.
  split; [apply walk_go_sound|].
  intros (root & Hreach & ->). apply walk_go_complete; [done|].
  apply longer_dirs_top. by eapply reach_isdir.
Qed.

End Walk.

(** ** The text written by a sequence of writes *)

Section Written.

Lemma written_app l1 l2 : written (l1 ++ l2) = written l1 +:+ written l2.
Proof.
  unfold written. induction l1 as [|x l1 IH]; [done|].
  simpl. by rewrite IH, app_assoc'.
Qed.

Lemma written_three a b c rest :
  written ([a; b; c] ++ rest) = a +:+ b +:+ c +:+ written rest.
Proof. reflexivity. Qed.

(** The text of a per-file listing, line by line. *)
Lemma relationships_text_layout relationships dot_file_path is_icgraph :
  relationships_text relationships dot_file_path is_icgraph
  = "# Function call relationships from " +:+ basename dot_file_path +:+ nl
    +:+ "# Total relationships: " +:+ str_of_nat (length relationships) +:+ nl
    +:+ "# Format: " +:+ (if is_icgraph then "callee -> caller" else "caller -> callee")
    +:+ nl
    +:+ nl
    +:+ written (map (λ relationship, relationship +:+ nl) (sorted relationships)).
Proof.
  unfold relationships_text. rewrite written_three, !app_assoc'.
  by destruct is_icgraph.
Qed.

End Written.

(** ** Entries in terms of resolved names *)

Section Resolved.

Lemma extract_relationships_resolved graph is_icgraph :
  extract_relationships_from_edges graph
    (create_node_to_function_mapping graph) is_icgraph
  = map (λ edge,
           if is_icgraph
           then resolved graph (strip_quotes (get_destination edge))
                +:+ " -> " +:+ resolved graph (strip_quotes (get_source edge))
           else resolved graph (strip_quotes (get_source edge))
                +:+ " -> " +:+ resolved graph (strip_quotes (get_destination edge)))
        (get_edges graph).
Proof.
  rewrite extract_relationships_from_edges_map.
  apply map_ext. intros edge. unfold edge_relationship.
  by rewrite !get_or_key_mapping.
Qed.

End Resolved.

(** ** Where listings are looked for *)

Section Listings.

Lemma exists_read_or_dir fs p :
  FS.exists_ fs p = true → FS.isdir fs p = false → FS.isfile fs p = true.
Proof.
  unfold FS.exists_, FS.isdir, FS.isfile. by destruct (fs !! p) as [[|?]|].
Qed.

Lemma elem_of_find_relationship_files fs dot_files f :
  f ∈ find_relationship_files fs dot_files ↔
  ∃ d, d ∈ dot_files ∧ f = listing_path d ∧ FS.exists_ fs f = true.
Proof.
  rewrite find_relationship_files_spec, list_elem_of_filter.
  change (map listing_path dot_files) with (listing_path <$> dot_files).
  rewrite list_elem_of_fmap. naive_solver.
Qed.

Lemma elem_of_file_relationships text r :
  r ∈ file_relationships text ↔
  ∃ line, line ∈ lines text ∧ is_entry_line line = true ∧ r = strip_ws line.
Proof.
  unfold file_relationships. rewrite elem_of_list_to_set, list_elem_of_omap.
  unfold entry_of_line. split.
  - intros (line & Hin & Hl). exists line.
    destruct (is_entry_line line); naive_solver.
  - intros (line & Hin & Hl & ->). exists line. by rewrite Hl.
Qed.

Lemma elem_of_listings_below fs directory p :
  p ∈ listings_below fs directory ↔
  ∃ root file,
    reach fs directory root
    ∧ file ∈ FS.listdir fs root
    ∧ FS.isdir fs (join root file) = false
    ∧ is_per_file_listing file = true
    ∧ p = join root file.
Proof.
  unfold listings_below. rewrite list_elem_of_In, in_flat_map. split.
  - intros ([[root ds] files] & He & Hp).
    apply list_elem_of_In, walk_spec in He as (root' & Hreach & [= -> -> ->]).
    change (map (join root')) with (fmap (M := list) (join root')) in Hp.
    apply list_elem_of_In, list_elem_of_fmap in Hp as (file & -> & Hfile).
    apply list_elem_of_filter in Hfile as [Hper Hfile].
    apply list_elem_of_filter in Hfile as [Hnd Hfile].
    exists root', file. done.
  - intros (root & file & Hreach & Hfile & Hnd & Hper & ->).
    exists (walk_entry fs root). split.
    + apply list_elem_of_In, walk_spec. eauto.
    + simpl. apply list_elem_of_In.
      change (map (join root)) with (fmap (M := list) (join root)).
      apply list_elem_of_fmap. exists file. split; [done|].
      apply list_elem_of_filter. split; [done|].
      by apply list_elem_of_filter.
Qed.

(** When every listing found is a regular file and the target is no
    directory, the combined file is written, with the union of the
    listings found. *)
Lemma generate_combined_relationships_file_ok fs directory dot_files :
  Forall (λ d, FS.isdir fs (listing_path d) = false) dot_files →
  FS.isdir fs (join (get_output_dir_for_combined_file directory)
                    "all_function_relationships.txt") = false →
  generate_combined_relationships_file fs directory dot_files
  = (<[join (get_output_dir_for_combined_file directory)
            "all_function_relationships.txt"
       := FS.File (combined_text
                     (get_output_dir_for_combined_file directory)
                     (union_of_listings fs (find_relationship_files fs dot_files))
                     (str_in "callee_caller" (lower (basename directory))))]> fs,
     Some (join (get_output_dir_for_combined_file directory)
                "all_function_relationships.txt")).
Proof.
  intros Hfiles Hout. unfold generate_combined_relationships_file.
  rewrite collect_unique_relationships_spec.
  - rewrite write_spec, Hout. done.
  - apply Forall_forall. intros f (d & Hd & -> & Hex)%elem_of_find_relationship_files.
    apply exists_read_or_dir; [done|].
    by apply (proj1 (Forall_forall _ _) Hfiles).
Qed.

End Listings.

(** ** The reader of a listing gives back what the writer wrote *)

Section RoundTrip.

Lemma all_chars_app p s t : all_chars p (s +:+ t) = all_chars p s && all_chars p t.
Proof.
  induction s as [|c s IH]; [done|].
  rewrite app_cons. simpl. by rewrite IH, andb_assoc.
Qed.

Lemma no_break_app s t : no_break (s +:+ t) = no_break s && no_break t.
Proof. apply all_chars_app. Qed.

Lemma rev_app_rev_app l a b :
  String.rev_app (String.rev_app l a) b = String.rev_app a (l +:+ b).
Proof.
  revert a b. induction l as [|c l IH]; intros a b; [done|].
  simpl. by rewrite IH.
Qed.

Lemma rev_rev_app l : String.rev (String.rev_app l "") = l.
Proof. unfold String.rev. rewrite rev_app_rev_app. simpl. apply app_nil_r'. Qed.

Lemma lines_go_scan l cur rest :
  no_break l = true →
  lines_go false cur (l +:+ rest) = lines_go false (String.rev_app l cur) rest.
Proof.
  revert cur. induction l as [|c l IH]; intros cur Hl; [done|].
  simpl in Hl. apply andb_true_iff in Hl as [Hc Hl].
  apply andb_true_iff in Hc as [Hlf Hcr].
  rewrite app_cons. simpl.
  apply negb_true_iff in Hlf, Hcr. rewrite Hlf, Hcr. by apply IH.
Qed.

Lemma lines_cons l rest :
  no_break l = true → lines (l +:+ nl +:+ rest) = l :: lines rest.
Proof.
  intros Hl. unfold lines. rewrite lines_go_scan by done.
  simpl. by rewrite rev_rev_app.
Qed.

Lemma lines_cons2 a b rest :
  no_break (a +:+ b) = true →
  lines (a +:+ b +:+ nl +:+ rest) = (a +:+ b) :: lines rest.
Proof. intros H. by rewrite <- (lines_cons _ rest H), app_assoc'. Qed.

Lemma lines_blank rest : lines (nl +:+ rest) = "" :: lines rest.
Proof. by apply (lines_cons ""). Qed.

Lemma lines_written rs :
  Forall (λ r, no_break r = true) rs →
  lines (written (map (λ r, r +:+ nl) rs)) = rs.
Proof.
  induction 1 as [|r rs Hr _ IH]; [done|].
  simpl. unfold written. simpl. fold (written (map (λ r, r +:+ nl) rs)).
  rewrite app_assoc', lines_cons by done. by rewrite IH.
Qed.

Lemma no_break_string_of_uint u :
  no_break (DecimalString.NilEmpty.string_of_uint u) = true.
Proof. induction u; simpl; auto. Qed.

Lemma no_break_str_of_nat n : no_break (str_of_nat n) = true.
Proof. apply no_break_string_of_uint. Qed.

Lemma lines_relationships_text relationships dot_file_path is_icgraph :
  no_break (basename dot_file_path) = true →
  Forall (λ r, no_break r = true) relationships →
  lines (relationships_text relationships dot_file_path is_icgraph)
  = [ "# Function call relationships from " +:+ basename dot_file_path;
      "# Total relationships: " +:+ str_of_nat (length relationships);
      format_line is_icgraph;
      "" ]
    ++ sorted relationships.
Proof.
  intros Hbase Hrels. unfold relationships_text. rewrite written_three.
  rewrite !app_assoc'.
  rewrite lines_cons2 by (by rewrite no_break_app, Hbase).
  rewrite lines_cons2 by (by rewrite no_break_app, no_break_str_of_nat).
  rewrite lines_cons by (by destruct is_icgraph).
  rewrite lines_blank.
  rewrite lines_written; [done|].
  rewrite Forall_forall in Hrels. apply Forall_forall.
  intros r Hr. apply (proj1 (sorted_elem_of _ _)) in Hr. by apply Hrels.
Qed.

Lemma omap_entry_of_line_clean rs :
  Forall clean_entry rs → omap entry_of_line rs = rs.
Proof.
  induction 1 as [|r rs (_ & Hentry & Hstrip) _ IH]; [done|].
  change (omap entry_of_line (r :: rs))
    with (match entry_of_line r with
          | Some y => y :: omap entry_of_line rs
          | None => omap entry_of_line rs
          end).
  unfold entry_of_line at 1. by rewrite Hentry, Hstrip, IH.
Qed.

(** The relationship set read from a listing is the set of the
    relationships it was written from. *)
Lemma file_relationships_of_listing relationships dot_file_path is_icgraph :
  no_break (basename dot_file_path) = true →
  Forall clean_entry relationships →
  file_relationships (relationships_text relationships dot_file_path is_icgraph)
  = list_to_set relationships.
Proof.
  intros Hbase Hrels. unfold file_relationships.
  rewrite lines_relationships_text; [|done|].
  - rewrite omap_app.
    assert (omap entry_of_line
              [ "# Function call relationships from " +:+ basename dot_file_path;
                "# Total relationships: " +:+ str_of_nat (length relationships);
                format_line is_icgraph; "" ] = []) as ->
      by (by destruct is_icgraph).
    rewrite omap_entry_of_line_clean.
    + apply set_eq. intros r. simpl.
      rewrite !elem_of_list_to_set. apply sorted_elem_of.
    + rewrite Forall_forall in Hrels. apply Forall_forall.
      intros r Hr. apply (proj1 (sorted_elem_of _ _)) in Hr. by apply Hrels.
  - eapply Forall_impl; [exact Hrels|]. by intros r (? & _).
Qed.

End RoundTrip.

(** ** The master listing: layout and sources *)

Section MasterFacts.

Lemma master_text_layout base_directory (inverted forward : gmap string bool) :
  master_text base_directory inverted forward
  = "# MASTER FUNCTION RELATIONSHIP FILE" +:+ nl
    +:+ "# Generated on: " +:+ basename base_directory +:+ nl +:+ nl
    +:+ master_section "CALLEE -> CALLER" (size inverted) (sorted_keys inverted)
    +:+ nl +:+ nl
    +:+ master_section "CALLER -> CALLEE" (size forward) (sorted_keys forward)
    +:+ nl +:+ nl
    +:+ master_statistics (size inverted) (size forward)
          (size inverted + size forward).
Proof.
  unfold master_text, master_section, master_statistics.
  rewrite !written_app. unfold written at 1 3 5. simpl.
  by rewrite !app_assoc', !app_nil_r'.
Qed.

Lemma generate_master_relationships_file_spec fs base_directory :
  generate_master_relationships_file fs base_directory
  = if negb (FS.isdir fs (join base_directory "callee_caller_graph"))
       && negb (FS.isdir fs (join base_directory "caller_callee_graph"))
    then (fs, inl NoCategoryDirectories)
    else if FS.isdir fs (join (dirname base_directory)
                              "master_function_relationships.txt")
         then (fs, inl MasterIOError)
         else (<[join (dirname base_directory) "master_function_relationships.txt"
                 := FS.File
                      (master_text base_directory
                         (category_relationships fs
                            (join base_directory "callee_caller_graph"))
                         (category_relationships fs
                            (join base_directory "caller_callee_graph")))]> fs,
               inr (join (dirname base_directory)
                         "master_function_relationships.txt")).
Proof.
  unfold generate_master_relationships_file, write_master_relationships_file.
  rewrite write_spec.
  destruct (negb _ && negb _); [done|]. by destruct (FS.isdir fs (join (dirname _) _)).
Qed.

Lemma category_relationships_dom fs category_dir :
  dom (category_relationships fs category_dir)
  = if FS.isdir fs category_dir then
      if FS.isfile fs (join category_dir "all_function_relationships.txt")
      then from_option file_relationships ∅
             (FS.read fs (join category_dir "all_function_relationships.txt"))
      else union_of_listings fs (listings_below fs category_dir)
    else ∅.
Proof.
  rewrite category_relationships_spec.
  destruct (FS.isdir fs category_dir); [|apply dom_empty_L].
  destruct (FS.isfile fs _).
  - apply read_relationships_from_file_dom.
  - apply collect_relationships_from_directory_dom.
Qed.

Lemma category_relationships_absent fs category_dir :
  FS.isdir fs category_dir = false →
  category_relationships fs category_dir = ∅.
Proof. intros H. by rewrite category_relationships_spec, H. Qed.

Lemma sorted_keys_empty : sorted_keys ∅ = [].
Proof. unfold sorted_keys. by rewrite map_to_list_empty. Qed.

End MasterFacts.

(** * The properties of the specification *)

(** ** Per-file extraction *)

(** C1, as stated, fails: the per-file result is a list, not a set.  The
    graph whose edge [a -> b] is stated twice yields the entry [a -> b]
    twice; the listing holds the line twice and its header counts 2,
    while there is one distinct relationship string. *)
Lemma per_file_listing_keeps_duplicates :
  let relationships :=
    extract_relationships_from_edges graph_ab_twice
      (create_node_to_function_mapping graph_ab_twice) false in
  relationships = ["a -> b"; "a -> b"]
  ∧ ¬ NoDup relationships
  ∧ size (list_to_set relationships : gset string) = 1
  ∧ relationships_text relationships "g.dot" false
    = "# Function call relationships from g.dot" +:+ nl
      +:+ "# Total relationships: 2" +:+ nl
      +:+ "# Format: caller -> callee" +:+ nl +:+ nl
      +:+ "a -> b" +:+ nl +:+ "a -> b" +:+ nl.
Proof.
  assert (extract_relationships_from_edges graph_ab_twice
            (create_node_to_function_mapping graph_ab_twice) false
          = ["a -> b"; "a -> b"]) as Hrel by (vm_compute; reflexivity).
  cbn zeta. rewrite Hrel. split; [done|]. split.
  - intros Hnd. apply NoDup_cons in Hnd as [Hnotin _]. apply Hnotin. by left.
  - split; vm_compute; reflexivity.
Qed.

(** C1, amended: the per-file result has exactly one entry per edge, in
    the order of the edges, equal entries included; the listing holds
    every entry on a line of its own and its header counts the edges. *)
Theorem per_file_listing_one_entry_per_edge
    (graph : Graph) (node_to_function : gmap string string) (is_icgraph : bool)
    (dot_file_path : string) :
  let relationships :=
    extract_relationships_from_edges graph node_to_function is_icgraph in
  relationships = map (edge_relationship node_to_function is_icgraph) (get_edges graph)
  ∧ length relationships = length (get_edges graph)
  ∧ relationships_text relationships dot_file_path is_icgraph
    = "# Function call relationships from " +:+ basename dot_file_path +:+ nl
      +:+ "# Total relationships: " +:+ str_of_nat (length (get_edges graph)) +:+ nl
      +:+ format_line is_icgraph +:+ nl +:+ nl
      +:+ written (map (λ relationship, relationship +:+ nl) (sorted relationships))
  ∧ sorted relationships ≡ₚ relationships.
Proof.
  cbn zeta. rewrite extract_relationships_from_edges_map.
  split; [done|]. split; [by rewrite length_map|]. split; [|apply sorted_Permutation].
  unfold relationships_text. rewrite written_three, length_map.
  by rewrite !app_assoc'.
Qed.

(** C2: under Forward polarity an edge yields the resolved name of its
    source, an arrow, and the resolved name of its destination; under
    Inverted polarity the two names change places.  The edge [a -> b]
    between the unlabeled nodes [a] and [b] gives [a -> b] and
    [b -> a]. *)
Theorem edge_relationship_direction (graph : Graph) :
  let node_to_function := create_node_to_function_mapping graph in
  extract_relationships_from_edges graph node_to_function false
  = map (λ edge,
           resolved graph (strip_quotes (get_source edge))
           +:+ " -> " +:+ resolved graph (strip_quotes (get_destination edge)))
        (get_edges graph)
  ∧ extract_relationships_from_edges graph node_to_function true
    = map (λ edge,
             resolved graph (strip_quotes (get_destination edge))
             +:+ " -> " +:+ resolved graph (strip_quotes (get_source edge)))
          (get_edges graph)
  ∧ extract_relationships_from_edges graph_ab
      (create_node_to_function_mapping graph_ab) false = ["a -> b"]
  ∧ extract_relationships_from_edges graph_ab
      (create_node_to_function_mapping graph_ab) true = ["b -> a"].
Proof.
  cbn zeta. rewrite !extract_relationships_resolved.
  repeat split; vm_compute; reflexivity.
Qed.

(** ** Name resolution *)

(** C3: the program resolves a name along the fallback chain: a label is
    cut at the leftmost occurrence of either line-break marker; when the
    cut label holds a tag pair, the inner text of the first one is the
    name, else the cut label is; a node without label resolves to the
    first identifier-shaped part of its name, else to the name.  The
    three examples of the specification resolve as it says. *)
Theorem name_resolution_chain :
  (∀ node, extract_function_name node = resolve_chain node)
  ∧ (∀ label, cut_line_breaks label = before_first_break label)
  ∧ (∀ s, match first_tag_inner s with
          | Some inner => between_tags s inner
          | None => ∀ inner, ¬ between_tags s inner
          end)
  ∧ (∀ name, match Re.search identifier_re name with
             | Some caps =>
                 first_identifier name (Re.group0 caps)
                 ∧ name_from_identifier name = Re.group0 caps
             | None =>
                 all_chars (λ c, negb (is_alpha_ c)) name = true
                 ∧ name_from_identifier name = name
             end)
  ∧ extract_function_name (mkNode "Node1" (Some "foo\lbar")) = "foo"
  ∧ extract_function_name (mkNode "Node1" (Some "foo\nbar")) = "foo"
  ∧ extract_function_name (mkNode "Node1" (Some "foo\nbar\lbaz")) = "foo"
  ∧ extract_function_name (mkNode "Node1" (Some "<tag>inner</tag>")) = "inner"
  ∧ extract_function_name (mkNode "Node42_helper" None) = "Node42_helper".
Proof.
  split; [apply extract_function_name_chain|].
  split; [apply cut_line_breaks_spec|].
  split; [apply first_tag_inner_spec|].
  split.
  - intros name. unfold name_from_identifier.
    destruct (Re.search identifier_re name) as [caps|] eqn:Hs.
    + split; [by apply identifier_search_sound|done].
    + split; [by apply identifier_search_none|done].
  - repeat split; vm_compute; reflexivity.
Qed.

(** C4, as stated, fails: a label that the line-break cut reduces to
    nothing is returned as it is, empty, although the node name holds an
    identifier; and a node without label whose name is a pair of quotes
    resolves to the empty text between them. *)
Lemma empty_name_from_cut_label :
  stripped_label (mkNode "Node1" (Some "\lbar")) = Some "\lbar"
  ∧ cut_line_breaks "\lbar" = ""
  ∧ name_from_identifier "Node1" = "Node1"
  ∧ extract_function_name (mkNode "Node1" (Some "\lbar")) = ""
  ∧ extract_function_name (mkNode (String dquote (String dquote "")) None) = "".
Proof. repeat split; vm_compute; reflexivity. Qed.

(** C4, amended: name resolution is a total function, and its result is
    not empty when the label, cut at the first line break, is not empty,
    or when there is no label text and the node name is not empty. *)
Theorem extract_function_name_nonempty (node : Node) :
  match stripped_label node with
  | Some l =>
      if truthy l then cut_line_breaks l ≠ ""
      else strip_quotes (get_name node) ≠ ""
  | None => strip_quotes (get_name node) ≠ ""
  end →
  extract_function_name node ≠ "".
Proof.
  rewrite extract_function_name_chain. unfold resolve_chain.
  destruct (stripped_label node) as [l|]; [|apply name_from_identifier_nonempty].
  destruct (truthy l); [|apply name_from_identifier_nonempty].
  rewrite cut_line_breaks_spec. intros Hne. cbn zeta.
  pose proof (first_tag_inner_spec (before_first_break l)) as Hspec.
  destruct (first_tag_inner _) as [inner|]; [|done].
  by destruct Hspec as (_ & _ & _ & _ & _ & ? & _).
Qed.

Lemma extract_function_name_nonempty_witness :
  cut_line_breaks "foo\lbar" ≠ ""
  ∧ extract_function_name (mkNode "Node1" (Some "foo\lbar")) ≠ "".
Proof.
  split; [by vm_compute|].
  apply (extract_function_name_nonempty (mkNode "Node1" (Some "foo\lbar"))).
  by vm_compute.
Defined.

(** ** The per-file listing *)

(** C8: the listing written for a file is a comment header with the base
    name of the source file, the number of relationships and the format
    line of the polarity, then an empty line, then the relationships in
    ascending order, one per line.  Writing fails only when the target
    is a directory. *)
Theorem per_file_listing_layout
    (fs : FS.store) (output_path : string) (relationships : list string)
    (dot_file_path : string) (is_icgraph : bool) :
  let text :=
    "# Function call relationships from " +:+ basename dot_file_path +:+ nl
    +:+ "# Total relationships: " +:+ str_of_nat (length relationships) +:+ nl
    +:+ "# Format: " +:+ (if is_icgraph then "callee -> caller" else "caller -> callee")
    +:+ nl
    +:+ nl
    +:+ written (map (λ relationship, relationship +:+ nl) (sorted relationships)) in
  write_relationships_to_file fs output_path relationships dot_file_path is_icgraph
  = (if FS.isdir fs output_path then None
     else Some (<[output_path := FS.File text]> fs))
  ∧ Sorted String.le (sorted relationships)
  ∧ sorted relationships ≡ₚ relationships.
Proof.
  cbn zeta. split; [|split; [apply sorted_Sorted|apply sorted_Permutation]].
  unfold write_relationships_to_file.
  by rewrite write_spec, relationships_text_layout.
Qed.

(** C10: a dot file is taken as Inverted exactly when its path, directory
    names included, holds [_icgraph]; that one decision gives both the
    format line of the listing and the direction of each of its lines.
    A path whose directory carries the marker, but whose base name does
    not, is Inverted. *)
Theorem per_file_polarity_from_path
    (fs : FS.store) (graph : Graph) (dot_file_path : string) :
  let inverted := str_in "_icgraph" dot_file_path in
  let relationships :=
    map (λ edge,
           if inverted
           then resolved graph (strip_quotes (get_destination edge))
                +:+ " -> " +:+ resolved graph (strip_quotes (get_source edge))
           else resolved graph (strip_quotes (get_source edge))
                +:+ " -> " +:+ resolved graph (strip_quotes (get_destination edge)))
        (get_edges graph) in
  let text :=
    "# Function call relationships from " +:+ basename dot_file_path +:+ nl
    +:+ "# Total relationships: " +:+ str_of_nat (length relationships) +:+ nl
    +:+ "# Format: " +:+ (if inverted then "callee -> caller" else "caller -> callee")
    +:+ nl
    +:+ nl
    +:+ written (map (λ relationship, relationship +:+ nl) (sorted relationships)) in
  (inverted = true ↔ ∃ pre post, dot_file_path = pre +:+ "_icgraph" +:+ post)
  ∧ generate_function_relationships_text fs graph dot_file_path
    = (if FS.isdir fs (listing_path dot_file_path) then (fs, None)
       else (<[listing_path dot_file_path := FS.File text]> fs,
             Some (listing_path dot_file_path)))
  ∧ str_in "_icgraph" "proj_icgraph/f.dot" = true
  ∧ str_in "_icgraph" (basename "proj_icgraph/f.dot") = false.
Proof.
  cbn zeta. split; [|split; [|by vm_compute]].
  - split; [apply str_in_inv|]. intros (pre & post & ->). apply str_in_intro.
  - unfold generate_function_relationships_text.
    fold (listing_path dot_file_path).
    unfold write_relationships_to_file.
    rewrite write_spec, relationships_text_layout, extract_relationships_resolved.
    by destruct (FS.isdir fs _).
Qed.

(** ** The combined listing of a directory *)

(** C5, as stated, fails: the aggregator does not look for listings in
    the directory, it takes the listing of each dot file it is given.
    A listing below the directory that belongs to none of them is left
    out: here the walk from [d] comes across two listings, with
    [x -> y] and [p -> q], and the combined file, made for the dot
    files found in [d], holds [x -> y] alone and counts 1. *)
Lemma combined_listing_skips_stray_listing :
  find_dot_files store_stray_listing "d" = ["d/dot_files/a.dot"]
  ∧ listings_below store_stray_listing "d"
    = ["d/a_relationships.txt"; "d/b_relationships.txt"]
  ∧ union_of_listings store_stray_listing (listings_below store_stray_listing "d")
    = {[ "x -> y"; "p -> q" ]}
  ∧ dom (collect_relationships_from_directory store_stray_listing "d")
    = {[ "x -> y"; "p -> q" ]}
  ∧ FS.read
      (fst (generate_combined_relationships_file store_stray_listing "d"
              (find_dot_files store_stray_listing "d")))
      "d/all_function_relationships.txt"
    = Some ("# Combined function call relationships from all dot files in d" +:+ nl
            +:+ "# Total unique relationships: 1" +:+ nl
            +:+ "# Format: caller -> callee" +:+ nl +:+ nl
            +:+ "x -> y" +:+ nl).
Proof. repeat split; vm_compute; reflexivity. Qed.

(** C5, amended: the relationship set of the combined file is the union
    of the relationship sets of the listings of the dot files handed to
    the aggregator, one listing per dot file, where it exists; it is
    written in ascending order without repetition, and the header counts
    its members.  When the listings of two of the dot files both hold
    [x -> y], the combined file holds the line once and counts 1. *)
Theorem combined_listing_is_union
    (fs : FS.store) (directory : string) (dot_files : list string) :
  let output_dir := get_output_dir_for_combined_file directory in
  let output_path := join output_dir "all_function_relationships.txt" in
  Forall (λ d, FS.isdir fs (listing_path d) = false) dot_files →
  FS.isdir fs output_path = false →
  ∃ (all_relationships : gset string) (listing : list string) (fs' : FS.store),
    generate_combined_relationships_file fs directory dot_files
    = (fs', Some output_path)
    ∧ (∀ r, r ∈ all_relationships ↔
            ∃ d text, d ∈ dot_files
                      ∧ FS.read fs (listing_path d) = Some text
                      ∧ r ∈ file_relationships text)
    ∧ FS.read fs' output_path
      = Some ("# Combined function call relationships from all dot files in "
                +:+ basename output_dir +:+ nl
              +:+ "# Total unique relationships: "
                +:+ str_of_nat (size all_relationships) +:+ nl
              +:+ format_line (str_in "callee_caller" (lower (basename directory)))
                +:+ nl +:+ nl
              +:+ written (map (λ relationship, relationship +:+ nl) listing))
    ∧ Sorted String.le listing
    ∧ NoDup listing
    ∧ (∀ r, r ∈ listing ↔ r ∈ all_relationships)
    ∧ length listing = size all_relationships.
Proof.
  cbn zeta. intros Hfiles Hout.
  set (all := union_of_listings fs (find_relationship_files fs dot_files)).
  exists all, (sorted (elements all)). eexists.
  split; [by apply generate_combined_relationships_file_ok|].
  split; [|split; [|apply sorted_elements]].
  - intros r. unfold all. rewrite elem_of_union_of_listings. split.
    + intros (f & text & (d & Hd & -> & _)%elem_of_find_relationship_files & Hr & Hin).
      eauto.
    + intros (d & text & Hd & Hr & Hin). exists (listing_path d), text.
      split; [|done]. apply elem_of_find_relationship_files.
      exists d. split; [done|]. split; [done|].
      unfold FS.exists_. unfold FS.read in Hr. by destruct (fs !! listing_path d).
  - rewrite read_write. unfold combined_text.
    by rewrite written_three, !app_assoc'.
Qed.

Lemma combined_listing_is_union_witness :
  Forall (λ d, FS.isdir store_two_listings (listing_path d) = false)
         ["d/dot_files/a.dot"; "d/dot_files/b.dot"]
  ∧ FS.isdir store_two_listings "d/all_function_relationships.txt" = false
  ∧ find_dot_files store_two_listings "d"
    ≡ₚ ["d/dot_files/a.dot"; "d/dot_files/b.dot"]
  ∧ ∃ (all_relationships : gset string) (listing : list string) (fs' : FS.store),
      generate_combined_relationships_file store_two_listings "d"
        ["d/dot_files/a.dot"; "d/dot_files/b.dot"]
      = (fs', Some "d/all_function_relationships.txt")
      ∧ (∀ r, r ∈ all_relationships ↔
              ∃ d text, d ∈ ["d/dot_files/a.dot"; "d/dot_files/b.dot"]
                        ∧ FS.read store_two_listings (listing_path d) = Some text
                        ∧ r ∈ file_relationships text)
      ∧ FS.read fs' "d/all_function_relationships.txt"
        = Some ("# Combined function call relationships from all dot files in "
                  +:+ "d" +:+ nl
                +:+ "# Total unique relationships: "
                  +:+ str_of_nat (size all_relationships) +:+ nl
                +:+ format_line false +:+ nl +:+ nl
                +:+ written (map (λ relationship, relationship +:+ nl) listing))
      ∧ Sorted String.le listing
      ∧ NoDup listing
      ∧ (∀ r, r ∈ listing ↔ r ∈ all_relationships)
      ∧ length listing = size all_relationships.
Proof.
  assert (H1 : Forall (λ d, FS.isdir store_two_listings (listing_path d) = false)
                 ["d/dot_files/a.dot"; "d/dot_files/b.dot"])
    by (repeat constructor; vm_compute; reflexivity).
  assert (H2 : FS.isdir store_two_listings "d/all_function_relationships.txt" = false)
    by (vm_compute; reflexivity).
  split; [exact H1|]. split; [exact H2|]. split.
  - vm_compute. reflexivity || apply perm_swap.
  - exact (combined_listing_is_union store_two_listings "d"
             ["d/dot_files/a.dot"; "d/dot_files/b.dot"] H1 H2).
Defined.

(** Scenario C, computed: one line, counted once. *)
Example combined_listing_counts_once :
  FS.read
    (fst (generate_combined_relationships_file store_two_listings "d"
            (find_dot_files store_two_listings "d")))
    "d/all_function_relationships.txt"
  = Some ("# Combined function call relationships from all dot files in d" +:+ nl
          +:+ "# Total unique relationships: 1" +:+ nl
          +:+ "# Format: caller -> callee" +:+ nl +:+ nl
          +:+ "x -> y" +:+ nl).
Proof. vm_compute. reflexivity. Qed.

(** C9, as stated, fails: the aggregator takes a directory and a list of
    dot files and no category; it reads the category off the name of
    the directory.  With the same store and the same dot file, hence the
    same listing and the same relationship set, a directory named
    [callee_caller_graph] gets the format line of Inverted and one named
    [caller_callee_graph] that of Forward. *)
Lemma combined_format_follows_directory_name :
  find_relationship_files store_two_names ["data/a.dot"]
  = ["data/a_relationships.txt"]
  ∧ FS.read
      (fst (generate_combined_relationships_file store_two_names
              "callee_caller_graph" ["data/a.dot"]))
      "callee_caller_graph/all_function_relationships.txt"
    = Some ("# Combined function call relationships from all dot files in "
              +:+ "callee_caller_graph" +:+ nl
            +:+ "# Total unique relationships: 1" +:+ nl
            +:+ "# Format: callee -> caller" +:+ nl +:+ nl
            +:+ "x -> y" +:+ nl)
  ∧ FS.read
      (fst (generate_combined_relationships_file store_two_names
              "caller_callee_graph" ["data/a.dot"]))
      "caller_callee_graph/all_function_relationships.txt"
    = Some ("# Combined function call relationships from all dot files in "
              +:+ "caller_callee_graph" +:+ nl
            +:+ "# Total unique relationships: 1" +:+ nl
            +:+ "# Format: caller -> callee" +:+ nl +:+ nl
            +:+ "x -> y" +:+ nl).
Proof. repeat split; vm_compute; reflexivity. Qed.

(** C9, amended: the format line of the combined file is decided by the
    name of the directory alone: it is that of Inverted exactly when the
    base name of the directory, in lower case, holds [callee_caller],
    and that of Forward otherwise. *)
Theorem combined_format_from_directory_name
    (fs : FS.store) (directory : string) (dot_files : list string) :
  let output_dir := get_output_dir_for_combined_file directory in
  let output_path := join output_dir "all_function_relationships.txt" in
  let inverted := str_in "callee_caller" (lower (basename directory)) in
  Forall (λ d, FS.isdir fs (listing_path d) = false) dot_files →
  FS.isdir fs output_path = false →
  ∃ (all_relationships : gset string) (fs' : FS.store),
    generate_combined_relationships_file fs directory dot_files
    = (fs', Some output_path)
    ∧ all_relationships = union_of_listings fs (find_relationship_files fs dot_files)
    ∧ (inverted = true ↔
       ∃ pre post, lower (basename directory) = pre +:+ "callee_caller" +:+ post)
    ∧ FS.read fs' output_path
      = Some ("# Combined function call relationships from all dot files in "
                +:+ basename output_dir +:+ nl
              +:+ "# Total unique relationships: "
                +:+ str_of_nat (size all_relationships) +:+ nl
              +:+ "# Format: "
                +:+ (if inverted then "callee -> caller" else "caller -> callee")
                +:+ nl
              +:+ nl
              +:+ written (map (λ relationship, relationship +:+ nl)
                               (sorted (elements all_relationships)))).
Proof.
  cbn zeta. intros Hfiles Hout.
  exists (union_of_listings fs (find_relationship_files fs dot_files)). eexists.
  split; [by apply generate_combined_relationships_file_ok|].
  split; [done|]. split.
  - split; [apply str_in_inv|]. intros (pre & post & ->). apply str_in_intro.
  - rewrite read_write. unfold combined_text.
    rewrite written_three, !app_assoc'.
    by destruct (str_in "callee_caller" _).
Qed.

Lemma combined_format_from_directory_name_witness :
  Forall (λ d, FS.isdir store_two_names (listing_path d) = false) ["data/a.dot"]
  ∧ FS.isdir store_two_names "callee_caller_graph/all_function_relationships.txt"
    = false
  ∧ ∃ (all_relationships : gset string) (fs' : FS.store),
      generate_combined_relationships_file store_two_names
        "callee_caller_graph" ["data/a.dot"]
      = (fs', Some "callee_caller_graph/all_function_relationships.txt")
      ∧ all_relationships
        = union_of_listings store_two_names
            (find_relationship_files store_two_names ["data/a.dot"])
      ∧ (true = true ↔
         ∃ pre post,
           lower (basename "callee_caller_graph") = pre +:+ "callee_caller" +:+ post)
      ∧ FS.read fs' "callee_caller_graph/all_function_relationships.txt"
        = Some ("# Combined function call relationships from all dot files in "
                  +:+ "callee_caller_graph" +:+ nl
                +:+ "# Total unique relationships: "
                  +:+ str_of_nat (size all_relationships) +:+ nl
                +:+ "# Format: " +:+ "callee -> caller" +:+ nl
                +:+ nl
                +:+ written (map (λ relationship, relationship +:+ nl)
                                 (sorted (elements all_relationships)))).
Proof.
  assert (H1 : Forall (λ d, FS.isdir store_two_names (listing_path d) = false)
                 ["data/a.dot"])
    by (repeat constructor; vm_compute; reflexivity).
  assert (H2 : FS.isdir store_two_names
                 "callee_caller_graph/all_function_relationships.txt" = false)
    by (vm_compute; reflexivity).
  split; [exact H1|]. split; [exact H2|].
  exact (combined_format_from_directory_name store_two_names
           "callee_caller_graph" ["data/a.dot"] H1 H2).
Defined.


(** C6: for a category directory that exists, the master listing takes
    the relationship set of the combined file when there is one, and else
    the union of the per-file listings found in the directory and, level
    by level, in the directories below it; a category whose directory is
    missing has no entries and the count 0; the last count of the
    statistics is the sum of the two section counts, so with the Forward
    directory alone it equals the Forward count. *)
Theorem master_listing_sections (fs : FS.store) (base_directory : string) :
  let inverted_dir := join base_directory "callee_caller_graph" in
  let forward_dir := join base_directory "caller_callee_graph" in
  let output_path := join (dirname base_directory) "master_function_relationships.txt" in
  let inverted := category_relationships fs inverted_dir in
  let forward := category_relationships fs forward_dir in
  (∀ category_dir,
     dom (category_relationships fs category_dir)
     = if FS.isdir fs category_dir then
         if FS.isfile fs (join category_dir "all_function_relationships.txt")
         then from_option file_relationships ∅
                (FS.read fs (join category_dir "all_function_relationships.txt"))
         else union_of_listings fs (listings_below fs category_dir)
       else ∅)
  ∧ (∀ category_dir p,
       p ∈ listings_below fs category_dir ↔
       ∃ root file,
         reach fs category_dir root
         ∧ file ∈ FS.listdir fs root
         ∧ FS.isdir fs (join root file) = false
         ∧ is_per_file_listing file = true
         ∧ p = join root file)
  ∧ (∀ category_dir,
       FS.isdir fs category_dir = false →
       category_relationships fs category_dir = ∅
       ∧ size (category_relationships fs category_dir) = 0
       ∧ sorted_keys (category_relationships fs category_dir) = [])
  ∧ (FS.isdir fs inverted_dir = true ∨ FS.isdir fs forward_dir = true →
     FS.isdir fs output_path = false →
     generate_master_relationships_file fs base_directory
     = (<[output_path
          := FS.File
               ("# MASTER FUNCTION RELATIONSHIP FILE" +:+ nl
                +:+ "# Generated on: " +:+ basename base_directory +:+ nl +:+ nl
                +:+ master_section "CALLEE -> CALLER"
                      (size inverted) (sorted_keys inverted)
                +:+ nl +:+ nl
                +:+ master_section "CALLER -> CALLEE"
                      (size forward) (sorted_keys forward)
                +:+ nl +:+ nl
                +:+ master_statistics (size inverted) (size forward)
                      (size inverted + size forward))]> fs,
        inr output_path))
  ∧ (FS.isdir fs inverted_dir = false →
     size inverted + size forward = size forward)
  ∧ (∀ d : gmap string bool,
       Sorted String.le (sorted_keys d)
       ∧ NoDup (sorted_keys d)
       ∧ (∀ r, r ∈ sorted_keys d ↔ r ∈ dom d)
       ∧ length (sorted_keys d) = size d).
Proof.
  cbn zeta.
  split; [apply category_relationships_dom|].
  split; [apply elem_of_listings_below|].
  split.
  { intros d Hd. rewrite (category_relationships_absent _ _ Hd).
    split; [done|]. split; [apply map_size_empty|apply sorted_keys_empty]. }
  split.
  { intros Hsome Hout. rewrite generate_master_relationships_file_spec, Hout.
    rewrite master_text_layout.
    destruct Hsome as [-> | ->]; [done|]. by rewrite andb_false_r. }
  split; [|apply sorted_keys_spec].
  intros Hd. by rewrite (category_relationships_absent _ _ Hd), map_size_empty.
Qed.

Lemma master_listing_sections_witness :
  FS.isdir store_forward_only (join "proj" "callee_caller_graph") = false
  ∧ FS.isdir store_forward_only (join "proj" "caller_callee_graph") = true
  ∧ FS.isdir store_forward_only
      (join (dirname "proj") "master_function_relationships.txt") = false
  ∧ category_relationships store_forward_only (join "proj" "callee_caller_graph") = ∅
  ∧ size (category_relationships store_forward_only
            (join "proj" "callee_caller_graph"))
    + size (category_relationships store_forward_only
              (join "proj" "caller_callee_graph"))
    = size (category_relationships store_forward_only
              (join "proj" "caller_callee_graph"))
  ∧ snd (generate_master_relationships_file store_forward_only "proj")
    = inr "master_function_relationships.txt".
Proof.
  assert (H1 : FS.isdir store_forward_only (join "proj" "callee_caller_graph") = false)
    by (vm_compute; reflexivity).
  assert (H2 : FS.isdir store_forward_only (join "proj" "caller_callee_graph") = true)
    by (vm_compute; reflexivity).
  assert (H3 : FS.isdir store_forward_only
                 (join (dirname "proj") "master_function_relationships.txt") = false)
    by (vm_compute; reflexivity).
  destruct (master_listing_sections store_forward_only "proj")
    as (_ & _ & Habsent & Hwrite & Hsum & _).
  split; [exact H1|]. split; [exact H2|]. split; [exact H3|].
  split; [exact (proj1 (Habsent _ H1))|]. split; [exact (Hsum H1)|].
  rewrite (Hwrite (or_intror H2) H3). reflexivity.
Defined.

(** Scenario D, computed: the Forward directory alone. *)
Example master_listing_forward_only :
  FS.read (fst (generate_master_relationships_file store_forward_only "proj"))
          "master_function_relationships.txt"
  = Some ("# MASTER FUNCTION RELATIONSHIP FILE" +:+ nl
          +:+ "# Generated on: proj" +:+ nl +:+ nl
          +:+ banner +:+ nl
          +:+ "# CALLEE -> CALLER RELATIONSHIPS" +:+ nl
          +:+ "# Total: 0" +:+ nl
          +:+ banner +:+ nl +:+ nl
          +:+ nl +:+ nl
          +:+ banner +:+ nl
          +:+ "# CALLER -> CALLEE RELATIONSHIPS" +:+ nl
          +:+ "# Total: 1" +:+ nl
          +:+ banner +:+ nl +:+ nl
          +:+ "a -> b" +:+ nl
          +:+ nl +:+ nl
          +:+ banner +:+ nl
          +:+ "# STATISTICS" +:+ nl
          +:+ banner +:+ nl
          +:+ "# Total callee->caller relationships: 0" +:+ nl
          +:+ "# Total caller->callee relationships: 1" +:+ nl
          +:+ "# Total relationships: 1" +:+ nl).
Proof. vm_compute. reflexivity. Qed.

(** C7: master aggregation reports the missing category directories
    exactly when neither of the two exists below the project root; it
    then writes nothing and leaves the store as it was.  When one of
    them exists, and the target is not a directory, it writes the master
    file and changes no other path. *)
Theorem master_fails_without_categories (fs : FS.store) (base_directory : string) :
  let inverted_dir := join base_directory "callee_caller_graph" in
  let forward_dir := join base_directory "caller_callee_graph" in
  let output_path := join (dirname base_directory) "master_function_relationships.txt" in
  (snd (generate_master_relationships_file fs base_directory)
   = inl NoCategoryDirectories
   ↔ FS.isdir fs inverted_dir = false ∧ FS.isdir fs forward_dir = false)
  ∧ (FS.isdir fs inverted_dir = false → FS.isdir fs forward_dir = false →
     generate_master_relationships_file fs base_directory
     = (fs, inl NoCategoryDirectories))
  ∧ (FS.isdir fs inverted_dir = true ∨ FS.isdir fs forward_dir = true →
     FS.isdir fs output_path = false →
     ∃ fs',
       generate_master_relationships_file fs base_directory = (fs', inr output_path)
       ∧ FS.read fs' output_path
         = Some (master_text base_directory
                   (category_relationships fs inverted_dir)
                   (category_relationships fs forward_dir))
       ∧ ∀ p, p ≠ output_path → fs' !! p = fs !! p).
Proof.
  cbn zeta. rewrite generate_master_relationships_file_spec.
  destruct (FS.isdir fs (join base_directory "callee_caller_graph")) eqn:Hinv;
    destruct (FS.isdir fs (join base_directory "caller_callee_graph")) eqn:Hfwd;
    simpl.
  4: { split; [done|]. split; [done|]. by intros [?|?]. }
  all: split;
    [split; [by destruct (FS.isdir fs (join (dirname _) _))|by intros [??]]|].
  all: split; [done|].
  all: intros _ ->; eexists; split; [done|]; split; [apply read_write|].
  all: intros p Hp; by apply write_other.
Qed.

Lemma master_fails_without_categories_witness :
  (FS.isdir store_no_category (join "proj" "callee_caller_graph") = false
   ∧ FS.isdir store_no_category (join "proj" "caller_callee_graph") = false
   ∧ generate_master_relationships_file store_no_category "proj"
     = (store_no_category, inl NoCategoryDirectories))
  ∧ (FS.isdir store_forward_only (join "proj" "caller_callee_graph") = true
     ∧ FS.isdir store_forward_only
         (join (dirname "proj") "master_function_relationships.txt") = false
     ∧ ∃ fs',
         generate_master_relationships_file store_forward_only "proj"
         = (fs', inr (join (dirname "proj") "master_function_relationships.txt"))
         ∧ FS.read fs' (join (dirname "proj") "master_function_relationships.txt")
           = Some (master_text "proj"
                     (category_relationships store_forward_only
                        (join "proj" "callee_caller_graph"))
                     (category_relationships store_forward_only
                        (join "proj" "caller_callee_graph")))
         ∧ ∀ p, p ≠ join (dirname "proj") "master_function_relationships.txt" →
                fs' !! p = store_forward_only !! p).
Proof.
  assert (H1 : FS.isdir store_no_category (join "proj" "callee_caller_graph") = false)
    by (vm_compute; reflexivity).
  assert (H2 : FS.isdir store_no_category (join "proj" "caller_callee_graph") = false)
    by (vm_compute; reflexivity).
  assert (H3 : FS.isdir store_forward_only (join "proj" "caller_callee_graph") = true)
    by (vm_compute; reflexivity).
  assert (H4 : FS.isdir store_forward_only
                 (join (dirname "proj") "master_function_relationships.txt") = false)
    by (vm_compute; reflexivity).
  split.
  - split; [exact H1|]. split; [exact H2|].
    exact (proj1 (proj2 (master_fails_without_categories store_no_category "proj"))
             H1 H2).
  - split; [exact H3|]. split; [exact H4|].
    exact (proj2 (proj2 (master_fails_without_categories store_forward_only "proj"))
             (or_intror H3) H4).
Defined.

(** * Further properties of the program *)

(** ** The mapping from node identifiers to names *)

Section MappingFacts.

Lemma node_named_none graph id :
  (∀ n, n ∈ get_nodes graph → strip_quotes (get_name n) ≠ id) →
  node_named graph id = None.
Proof.
  unfold node_named. destruct graph as [nodes edges]. simpl.
  intros Hno. apply last_None.
  induction nodes as [|n ns IH]; [done|].
  rewrite filter_cons. destruct (decide _) as [Heq|_].
  - exfalso. by apply (Hno n); [left|].
  - apply IH. intros m Hm. apply Hno. by right.
Qed.

Lemma node_named_last graph before n after :
  get_nodes graph = before ++ n :: after →
  (∀ m, m ∈ after → strip_quotes (get_name m) ≠ strip_quotes (get_name n)) →
  node_named graph (strip_quotes (get_name n)) = Some n.
Proof.
  intros Hnodes Hafter. unfold node_named. rewrite Hnodes.
  rewrite filter_app, filter_cons, decide_True by done.
  assert (filter (λ m, strip_quotes (get_name m) = strip_quotes (get_name n)) after
          = []) as ->.
  { clear Hnodes. induction after as [|m ms IH]; [done|].
    rewrite filter_cons, decide_False by (apply Hafter; by left).
    apply IH. intros k Hk. apply Hafter. by right. }
  by rewrite last_snoc.
Qed.

Lemma mapping_dom_go (nodes : list Node) (acc : gmap string string) :
  dom (foldl (λ node_to_function node,
                <[strip_quotes (get_name node) := extract_function_name node]>
                  node_to_function) acc nodes)
  = list_to_set (map (λ n, strip_quotes (get_name n)) nodes) ∪ dom acc.
Proof.
  revert acc. induction nodes as [|n ns IH]; intros acc; simpl; [set_solver|].
  rewrite IH, dom_insert_L. set_solver.
Qed.

End MappingFacts.

(** X1: an edge end point that no node declares keeps its identifier,
    quotes removed, as its name, on whichever side of the arrow it
    lands. *)
Theorem undeclared_endpoint_keeps_identifier
    (graph : Graph) (edge : Edge) (is_icgraph : bool) :
  (∀ n, n ∈ get_nodes graph →
        strip_quotes (get_name n) ≠ strip_quotes (get_destination edge)) →
  create_node_to_function_mapping graph !! strip_quotes (get_destination edge) = None
  ∧ edge_relationship (create_node_to_function_mapping graph) is_icgraph edge
    = (if is_icgraph
       then strip_quotes (get_destination edge)
            +:+ " -> " +:+ resolved graph (strip_quotes (get_source edge))
       else resolved graph (strip_quotes (get_source edge))
            +:+ " -> " +:+ strip_quotes (get_destination edge)).
Proof.
  intros Hno. pose proof (node_named_none _ _ Hno) as Hnone.
  assert (get_or_key (create_node_to_function_mapping graph)
            (strip_quotes (get_destination edge))
          = strip_quotes (get_destination edge)) as Hkey.
  { rewrite get_or_key_mapping. unfold resolved. by rewrite Hnone. }
  split.
  - unfold create_node_to_function_mapping. rewrite mapping_lookup.
    fold (node_named graph (strip_quotes (get_destination edge))).
    by rewrite Hnone.
  - unfold edge_relationship. by rewrite Hkey, get_or_key_mapping.
Qed.

Lemma undeclared_endpoint_keeps_identifier_witness :
  (∀ n, n ∈ get_nodes graph_dangling →
        strip_quotes (get_name n) ≠ strip_quotes (get_destination (mkEdge "a" "c")))
  ∧ extract_relationships_from_edges graph_dangling
      (create_node_to_function_mapping graph_dangling) false = ["a -> c"]
  ∧ edge_relationship (create_node_to_function_mapping graph_dangling) true
      (mkEdge "a" "c")
    = strip_quotes "c" +:+ " -> " +:+ resolved graph_dangling (strip_quotes "a").
Proof.
  assert (H : ∀ n, n ∈ get_nodes graph_dangling →
                   strip_quotes (get_name n)
                   ≠ strip_quotes (get_destination (mkEdge "a" "c"))).
  { intros n Hn. simpl in Hn.
    apply elem_of_cons in Hn as [->|Hn]; [by vm_compute|].
    apply elem_of_cons in Hn as [->|Hn]; [by vm_compute|].
    by apply elem_of_nil in Hn. }
  split; [exact H|]. split; [by vm_compute|].
  exact (proj2 (undeclared_endpoint_keeps_identifier graph_dangling
                  (mkEdge "a" "c") true H)).
Defined.

(** X2: the identifiers the mapping knows are those of the declared
    nodes, quotes removed; when an identifier is declared more than once
    the last declaration gives the name. *)
Theorem last_declaration_names_identifier
    (graph : Graph) (before : list Node) (n : Node) (after : list Node) :
  get_nodes graph = before ++ n :: after →
  (∀ m, m ∈ after → strip_quotes (get_name m) ≠ strip_quotes (get_name n)) →
  create_node_to_function_mapping graph !! strip_quotes (get_name n)
  = Some (extract_function_name n)
  ∧ dom (create_node_to_function_mapping graph)
    = list_to_set (map (λ m, strip_quotes (get_name m)) (get_nodes graph)).
Proof.
  intros Hnodes Hafter. split.
  - unfold create_node_to_function_mapping. rewrite mapping_lookup.
    fold (node_named graph (strip_quotes (get_name n))).
    by rewrite (node_named_last graph before n after).
  - unfold create_node_to_function_mapping. rewrite mapping_dom_go.
    rewrite dom_empty_L. set_solver.
Qed.

Lemma last_declaration_names_identifier_witness :
  get_nodes graph_redeclared
  = [mkNode "Node1" (Some "first")] ++ mkNode "Node1" (Some "second") :: []
  ∧ create_node_to_function_mapping graph_redeclared !! "Node1" = Some "second"
  ∧ extract_relationships_from_edges graph_redeclared
      (create_node_to_function_mapping graph_redeclared) false
    = ["second -> second"].
Proof.
  split; [reflexivity|]. split; [|by vm_compute].
  apply (last_declaration_names_identifier graph_redeclared
           [mkNode "Node1" (Some "first")] (mkNode "Node1" (Some "second")) []).
  - reflexivity.
  - intros m Hm. by apply elem_of_nil in Hm.
Defined.

(** ** The listing does not depend on the order of the edges *)

Section OrderFacts.

Lemma sorted_Permutation_eq xs ys : xs ≡ₚ ys → sorted xs = sorted ys.
Proof.
  intros Hp. apply (Sorted_unique String.le); try apply sorted_Sorted.
  by rewrite !sorted_Permutation.
Qed.

Lemma relationships_text_Permutation xs ys dot_file_path is_icgraph :
  xs ≡ₚ ys →
  relationships_text xs dot_file_path is_icgraph
  = relationships_text ys dot_file_path is_icgraph.
Proof.
  intros Hp. unfold relationships_text.
  by rewrite (sorted_Permutation_eq _ _ Hp), (Permutation_length Hp).
Qed.

End OrderFacts.

(** X3: two graphs with the same nodes and the same edges in a different
    order give the same listing, text for text, and leave the same
    store. *)
Theorem listing_ignores_edge_order
    (fs : FS.store) (graph graph' : Graph) (dot_file_path : string) :
  get_nodes graph = get_nodes graph' →
  get_edges graph ≡ₚ get_edges graph' →
  generate_function_relationships_text fs graph dot_file_path
  = generate_function_relationships_text fs graph' dot_file_path.
Proof.
  intros Hnodes Hedges. unfold generate_function_relationships_text.
  unfold write_relationships_to_file.
  assert (create_node_to_function_mapping graph
          = create_node_to_function_mapping graph') as ->
    by (unfold create_node_to_function_mapping; by rewrite Hnodes).
  set (m := create_node_to_function_mapping graph').
  set (b := str_in "_icgraph" dot_file_path).
  rewrite (relationships_text_Permutation
             (extract_relationships_from_edges graph m b)
             (extract_relationships_from_edges graph' m b)); [done|].
  rewrite !extract_relationships_from_edges_map. by apply Permutation_map.
Qed.

Lemma listing_ignores_edge_order_witness :
  get_nodes graph_two_edges = get_nodes graph_two_edges_swapped
  ∧ get_edges graph_two_edges ≡ₚ get_edges graph_two_edges_swapped
  ∧ generate_function_relationships_text ∅ graph_two_edges "g.dot"
    = generate_function_relationships_text ∅ graph_two_edges_swapped "g.dot".
Proof.
  assert (H : get_edges graph_two_edges ≡ₚ get_edges graph_two_edges_swapped)
    by apply perm_swap.
  split; [reflexivity|]. split; [exact H|].
  exact (listing_ignores_edge_order ∅ graph_two_edges graph_two_edges_swapped
           "g.dot" eq_refl H).
Defined.

(** ** Names taken from a label hold no line-break marker *)

Section MarkerFacts.

Lemma startswith_letter_before_first_break a s :
  a ≠ "\"%char →
  startswith (String a "") (before_first_break s) = startswith (String a "") s.
Proof.
  intros Ha. destruct s as [|c s]; [done|].
  change (before_first_break (String c s))
    with (if startswith "\l" (String c s) || startswith "\n" (String c s)
          then "" else String c (before_first_break s)).
  destruct (startswith "\l" (String c s) || startswith "\n" (String c s)) eqn:Hm;
    [|by rewrite !startswith_cons, !startswith_nil].
  assert (c = "\"%char) as ->.
  { rewrite !(startswith_cons "\") in Hm.
    destruct (Ascii.eqb "\" c) eqn:Hc; [by apply Ascii.eqb_eq in Hc|done]. }
  rewrite startswith_cons.
  apply Ascii.eqb_neq in Ha. by rewrite Ha.
Qed.

Lemma before_first_break_no_marker s :
  str_in "\l" (before_first_break s) = false
  ∧ str_in "\n" (before_first_break s) = false.
Proof.
  induction s as [|c s [IHl IHn]]; [done|].
  change (before_first_break (String c s))
    with (if startswith "\l" (String c s) || startswith "\n" (String c s)
          then "" else String c (before_first_break s)).
  destruct (startswith "\l" (String c s) || startswith "\n" (String c s)) eqn:Hm;
    [done|].
  apply orb_false_iff in Hm as [Hl Hn].
  cbn [str_in]. rewrite IHl, IHn, !orb_false_r.
  rewrite !(startswith_cons "\") in *.
  rewrite !startswith_letter_before_first_break by done. done.
Qed.

Lemma str_in_part sub pre s post :
  str_in sub s = true → str_in sub (pre +:+ s +:+ post) = true.
Proof.
  intros (a & b & ->)%str_in_inv.
  pose proof (str_in_intro sub (pre +:+ a) (b +:+ post)) as H.
  rewrite !app_assoc' in H. by rewrite !app_assoc'.
Qed.

End MarkerFacts.

(** X4: the name of a node that has label text holds neither line-break
    marker. *)
Theorem labelled_name_has_no_line_break (node : Node) (l : string) :
  stripped_label node = Some l →
  truthy l = true →
  str_in "\l" (extract_function_name node) = false
  ∧ str_in "\n" (extract_function_name node) = false.
Proof.
  intros Hl Ht. rewrite extract_function_name_chain. unfold resolve_chain.
  rewrite Hl, Ht. cbn zeta.
  destruct (before_first_break_no_marker l) as [Hbl Hbn].
  pose proof (first_tag_inner_spec (before_first_break l)) as Hspec.
  destruct (first_tag_inner (before_first_break l)) as [inner|]; [|done].
  destruct Hspec as (pre & t1 & t2 & post & Heq & _). simpl.
  split.
  - destruct (str_in "\l" inner) eqn:Hin; [|done].
    rewrite Heq in Hbl.
    pose proof (str_in_part "\l" (pre +:+ "<" +:+ t1 +:+ ">") inner
                  ("</" +:+ t2 +:+ ">" +:+ post) Hin) as H.
    rewrite !app_assoc' in H. congruence.
  - destruct (str_in "\n" inner) eqn:Hin; [|done].
    rewrite Heq in Hbn.
    pose proof (str_in_part "\n" (pre +:+ "<" +:+ t1 +:+ ">") inner
                  ("</" +:+ t2 +:+ ">" +:+ post) Hin) as H.
    rewrite !app_assoc' in H. congruence.
Qed.

Lemma labelled_name_has_no_line_break_witness :
  stripped_label (mkNode "Node1" (Some "<b>sig\nal</b>\lrest")) = Some "<b>sig\nal</b>\lrest"
  ∧ extract_function_name (mkNode "Node1" (Some "<b>sig\nal</b>\lrest")) = "<b>sig"
  ∧ str_in "\l" (extract_function_name (mkNode "Node1" (Some "<b>sig\nal</b>\lrest")))
    = false
  ∧ str_in "\n" (extract_function_name (mkNode "Node1" (Some "<b>sig\nal</b>\lrest")))
    = false.
Proof.
  split; [reflexivity|]. split; [by vm_compute|].
  exact (labelled_name_has_no_line_break
           (mkNode "Node1" (Some "<b>sig\nal</b>\lrest")) "<b>sig\nal</b>\lrest"
           eq_refl eq_refl).
Defined.

(** ** Paths built by [join] and taken apart again *)

Section PathFacts.

Lemma rev_app_app s acc : String.rev_app s acc = String.rev_app s "" +:+ acc.
Proof.
  revert acc. induction s as [|c s IH]; intros acc; [done|].
  simpl. rewrite (IH (String c acc)), (IH (String c "")).
  by rewrite app_assoc'.
Qed.

Lemma rev_append s t : String.rev (s +:+ t) = String.rev t +:+ String.rev s.
Proof.
  unfold String.rev. revert t. induction s as [|c s IH]; intros t.
  - by rewrite app_nil_l', app_nil_r'.
  - rewrite app_cons. simpl. rewrite rev_app_app, IH, app_assoc'.
    by rewrite <- (rev_app_app s (String c "")).
Qed.

Lemma rev_involutive s : String.rev (String.rev s) = s.
Proof. apply rev_rev_app. Qed.

Lemma endswith_inv p s : endswith p s = true → ∃ t, s = t +:+ p.
Proof.
  unfold endswith. intros [u Hu]%startswith_inv. exists (String.rev u).
  rewrite <- (rev_involutive s), Hu, rev_append. by rewrite rev_involutive.
Qed.

Lemma endswith_intro p t : endswith p (t +:+ p) = true.
Proof. unfold endswith. rewrite rev_append. apply startswith_app. Qed.

Lemma rpartition_none c s :
  str_in (String c "") s = false → rpartition c s = None.
Proof.
  induction s as [|a s IH]; [done|].
  cbn [str_in]. rewrite startswith_cons, startswith_nil.
  intros [Ha Hs]%orb_false_iff. simpl. rewrite (IH Hs).
  destruct (Ascii.eqb c a) eqn:E; [done|].
  rewrite Ascii.eqb_sym in E. by rewrite E.
Qed.

Lemma rpartition_last c h t :
  str_in (String c "") t = false →
  rpartition c (h +:+ String c "" +:+ t) = Some (h, t).
Proof.
  intros Ht. change (String c "" +:+ t) with (String c t).
  induction h as [|a h IH].
  - rewrite app_nil_l'. simpl. by rewrite (rpartition_none c t Ht), Ascii.eqb_refl.
  - rewrite app_cons. simpl. by rewrite IH.
Qed.

Lemma all_slashes_endswith d :
  d ≠ "" → all_chars is_slash d = true → endswith "/" d = true.
Proof.
  intros Hne Hall.
  assert (∃ t, d = t +:+ "/") as [t ->]; [|apply endswith_intro].
  induction d as [|c d IH]; [done|].
  simpl in Hall. apply andb_true_iff in Hall as [Hc Hall].
  unfold is_slash in Hc. apply Ascii.eqb_eq in Hc as <-.
  destruct d as [|c' d]; [by exists ""|].
  destruct (IH ltac:(done) Hall) as [t ->]. by exists (String "/" t).
Qed.

Lemma rstrip_slash d :
  endswith "/" d = false → rstrip is_slash (d +:+ "/") = d.
Proof.
  unfold endswith, rstrip. intros Hd. rewrite rev_append.
  change (String.rev "/") with "/". rewrite app_cons, app_nil_l'. simpl.
  change (is_slash "/") with true. cbn iota.
  destruct (String.rev d) as [|c r] eqn:Hr.
  - simpl. rewrite <- (rev_involutive d), Hr. done.
  - simpl in Hd. simpl. unfold is_slash.
    destruct (Ascii.eqb "/" c); [done|].
    by rewrite <- Hr, rev_involutive.
Qed.

Lemma dir_prefix_cases d :
  (d = "" ∧ dir_prefix d = "")
  ∨ (∃ t, d = t +:+ "/" ∧ dir_prefix d = d)
  ∨ (d ≠ "" ∧ endswith "/" d = false ∧ dir_prefix d = d +:+ "/").
Proof.
  unfold dir_prefix. destruct d as [|c d]; [by left|]. right.
  simpl. destruct (endswith "/" (String c d)) eqn:He.
  - left. apply endswith_inv in He as [t Ht]. eauto.
  - right. done.
Qed.

Lemma basename_join d name :
  str_in "/" name = false → basename (join d name) = name.
Proof.
  intros Hn. rewrite join_plain by done. unfold basename.
  destruct (dir_prefix_cases d) as [[-> ->]|[(t & -> & ->)|(_ & _ & ->)]].
  - rewrite app_nil_l'. by rewrite rpartition_none.
  - rewrite app_assoc'. by rewrite (rpartition_last "/" t name Hn).
  - rewrite app_assoc'. by rewrite (rpartition_last "/" d name Hn).
Qed.

Lemma head_part_join d name :
  str_in "/" name = false → head_part (join d name) = dir_prefix d.
Proof.
  intros Hn. rewrite join_plain by done. unfold head_part.
  destruct (dir_prefix_cases d) as [[-> ->]|[(t & -> & ->)|(_ & _ & ->)]].
  - rewrite app_nil_l'. by rewrite rpartition_none.
  - rewrite app_assoc'. by rewrite (rpartition_last "/" t name Hn).
  - rewrite app_assoc'. by rewrite (rpartition_last "/" d name Hn).
Qed.

Lemma dirname_join d name :
  endswith "/" d = false → str_in "/" name = false →
  dirname (join d name) = d.
Proof.
  intros Hd Hn. unfold dirname. rewrite head_part_join by done.
  destruct (dir_prefix_cases d) as [[-> ->]|[(t & -> & _)|(Hne & _ & ->)]].
  - done.
  - by rewrite endswith_intro in Hd.
  - assert (truthy (d +:+ "/") = true) as -> by (by destruct d).
    assert (all_chars is_slash (d +:+ "/") = false) as ->.
    { rewrite all_chars_app. destruct (all_chars is_slash d) eqn:Hall; [|done].
      by rewrite (all_slashes_endswith d Hne Hall) in Hd. }
    by apply rstrip_slash.
Qed.

Lemma join_no_trailing_slash d name :
  name ≠ "" → endswith "/" name = false → str_in "/" name = false →
  endswith "/" (join d name) = false.
Proof.
  intros Hne He Hn. rewrite join_plain by done. unfold endswith in *.
  rewrite rev_append. destruct (String.rev name) as [|c r] eqn:Hr.
  - exfalso. apply Hne. by rewrite <- (rev_involutive name), Hr.
  - rewrite app_cons. simpl in *. done.
Qed.

Lemma splitext_join d stem ext :
  str_in "/" stem = false → all_chars is_dot stem = false →
  str_in "/" ext = false → str_in "." ext = false →
  splitext (join d (stem +:+ "." +:+ ext)) = (join d stem, "." +:+ ext).
Proof.
  intros Hs Hd He Hx.
  assert (str_in "/" (stem +:+ "." +:+ ext) = false) as Hname.
  { destruct (str_in "/" (stem +:+ "." +:+ ext)) eqn:H; [|done].
    apply none_of_all in Hs, He.
    assert (all_chars (λ x, negb (Ascii.eqb "/" x)) (stem +:+ "." +:+ ext) = true)
      as Hall by (by rewrite !all_chars_app, Hs, He).
    apply none_of_all in Hall. congruence. }
  unfold splitext. rewrite basename_join, head_part_join by done.
  rewrite (rpartition_last "." stem ext Hx), Hd.
  by rewrite join_plain.
Qed.

End PathFacts.

(** ** Where listings land *)

Section PlacementFacts.

Lemma no_char_app c s t :
  str_in (String c "") s = false → str_in (String c "") t = false →
  str_in (String c "") (s +:+ t) = false.
Proof.
  intros Hs Ht. apply none_of_all. rewrite all_chars_app.
  apply none_of_all in Hs, Ht. by rewrite Hs, Ht.
Qed.

Lemma listing_path_join d stem :
  str_in "/" stem = false → all_chars is_dot stem = false →
  listing_path (join d (stem +:+ ".dot"))
  = join (get_output_directory (join d (stem +:+ ".dot")))
         (stem +:+ "_relationships.txt").
Proof.
  intros Hs Hd. unfold listing_path.
  change (stem +:+ ".dot") with (stem +:+ "." +:+ "dot").
  rewrite splitext_join by done. simpl. by rewrite basename_join.
Qed.

Lemma get_output_directory_dot_files d name :
  endswith "/" d = false → str_in "/" name = false →
  get_output_directory (join (join d "dot_files") name) = d.
Proof.
  intros Hd Hn. unfold get_output_directory.
  rewrite (dirname_join (join d "dot_files") name);
    [|by apply join_no_trailing_slash|done].
  rewrite basename_join by done. simpl. by apply dirname_join.
Qed.

Lemma get_output_directory_plain d name :
  endswith "/" d = false → str_in "/" name = false →
  basename d ≠ "dot_files" →
  get_output_directory (join d name) = d.
Proof.
  intros Hd Hn Hb. unfold get_output_directory. rewrite dirname_join by done.
  by apply String.eqb_neq in Hb as ->.
Qed.

End PlacementFacts.

(** X5: the listing of a dot file kept in [d/dot_files] is written into
    [d], under the name of the dot file with [_relationships.txt] in
    place of the extension, and it is there that it is looked for
    afterwards; the combined file of [d/dot_files] goes to [d] as well. *)
Theorem listing_leaves_dot_files
    (fs : FS.store) (graph : Graph) (d stem : string) :
  endswith "/" d = false →
  str_in "/" stem = false →
  all_chars is_dot stem = false →
  get_output_directory (join (join d "dot_files") (stem +:+ ".dot")) = d
  ∧ get_output_dir_for_combined_file (join d "dot_files") = d
  ∧ generate_function_relationships_text fs graph
      (join (join d "dot_files") (stem +:+ ".dot"))
    = match write_relationships_to_file fs
              (join d (stem +:+ "_relationships.txt"))
              (extract_relationships_from_edges graph
                 (create_node_to_function_mapping graph)
                 (str_in "_icgraph" (join (join d "dot_files") (stem +:+ ".dot"))))
              (join (join d "dot_files") (stem +:+ ".dot"))
              (str_in "_icgraph" (join (join d "dot_files") (stem +:+ ".dot")))
      with
      | Some fs' => (fs', Some (join d (stem +:+ "_relationships.txt")))
      | None => (fs, None)
      end
  ∧ find_relationship_files fs [join (join d "dot_files") (stem +:+ ".dot")]
    = (if FS.exists_ fs (join d (stem +:+ "_relationships.txt"))
       then [join d (stem +:+ "_relationships.txt")] else []).
Proof.
  intros Hd Hs Hdots.
  assert (str_in "/" (stem +:+ ".dot") = false) as Hname by (by apply no_char_app).
  pose proof (get_output_directory_dot_files d _ Hd Hname) as Hout.
  assert (listing_path (join (join d "dot_files") (stem +:+ ".dot"))
          = join d (stem +:+ "_relationships.txt")) as Hlist
    by (by rewrite listing_path_join, Hout).
  split; [done|]. split.
  { unfold get_output_dir_for_combined_file.
    rewrite basename_join by done. simpl. by apply dirname_join. }
  split.
  - unfold generate_function_relationships_text.
    fold (listing_path (join (join d "dot_files") (stem +:+ ".dot"))).
    by rewrite Hlist.
  - rewrite find_relationship_files_spec. simpl.
    rewrite filter_cons, filter_nil, Hlist.
    by destruct (FS.exists_ fs _).
Qed.

Lemma listing_leaves_dot_files_witness :
  endswith "/" "proj/callee_caller_graph" = false
  ∧ str_in "/" "f_icgraph" = false
  ∧ all_chars is_dot "f_icgraph" = false
  ∧ get_output_directory "proj/callee_caller_graph/dot_files/f_icgraph.dot"
    = "proj/callee_caller_graph"
  ∧ snd (generate_function_relationships_text ∅ graph_ab
           "proj/callee_caller_graph/dot_files/f_icgraph.dot")
    = Some "proj/callee_caller_graph/f_icgraph_relationships.txt".
Proof.
  split; [reflexivity|]. split; [reflexivity|]. split; [reflexivity|].
  split; [|by vm_compute].
  exact (proj1 (listing_leaves_dot_files ∅ graph_ab "proj/callee_caller_graph"
                  "f_icgraph" eq_refl eq_refl eq_refl)).
Defined.

(** ** White space

    [strip_ws] against the list of the white-space characters. *)

Section StripFacts.

Lemma startswith_app_more w r t :
  startswith w r = true → startswith w (r +:+ t) = true.
Proof.
  intros H. apply startswith_inv in H as [u ->].
  rewrite app_assoc'. apply startswith_app.
Qed.

Lemma rev_written l : String.rev (written l) = written (map String.rev (reverse l)).
Proof.
  induction l as [|x l IH].
  - done.
  - rewrite reverse_cons, map_app, written_app.
    change (written (x :: l)) with (x +:+ written l).
    rewrite rev_append, IH.
    change (written (map String.rev [x])) with (String.rev x +:+ "").
    by rewrite app_nil_r'.
Qed.

Ltac split_prefix :=
  repeat match goal with
         | |- context [Ascii.eqb ?x ?a] =>
             destruct (Ascii.eqb_spec x a) as [->|]
         end.

Lemma lstrip_chars_spec one two three s :
  ∃ l,
    Forall (λ w, recognised one two three w = true) l
    ∧ s = written l +:+ lstrip_chars one two three s
    ∧ ∀ w, recognised one two three w = true →
           startswith w (lstrip_chars one two three s) = false.
Proof.
  remember (String.length s) as n eqn:Hn.
  revert s Hn. induction (lt_wf n) as [n _ IH]. intros s Hn.
  assert (Hrec : ∀ w t, recognised one two three w = true →
            String.length t < n →
            s = w +:+ t →
            lstrip_chars one two three s = lstrip_chars one two three t →
            ∃ l, Forall (λ w, recognised one two three w = true) l
              ∧ s = written l +:+ lstrip_chars one two three s
              ∧ ∀ w, recognised one two three w = true →
                     startswith w (lstrip_chars one two three s) = false).
  { intros w t Hw Hlt Hs Heq.
    destruct (IH _ Hlt t eq_refl) as (l & Hl & Ht & Hno).
    exists (w :: l). split; [by constructor|]. rewrite Heq. split; [|done].
    change (written (w :: l)) with (w +:+ written l).
    by rewrite app_assoc', <- Ht. }
  assert (Hstop : (∀ w, recognised one two three w = true → startswith w s = false) →
            lstrip_chars one two three s = s →
            ∃ l, Forall (λ w, recognised one two three w = true) l
              ∧ s = written l +:+ lstrip_chars one two three s
              ∧ ∀ w, recognised one two three w = true →
                     startswith w (lstrip_chars one two three s) = false).
  { intros Hno Heq. exists []. rewrite Heq. split; [constructor|].
    split; [by rewrite app_nil_l'|done]. }
  clear IH.
  destruct s as [|a s1].
  { apply Hstop; [|done]. by intros [|x w] Hw. }
  destruct (one a) eqn:H1.
  { apply (Hrec (String a "") s1); [done|simpl in Hn; lia|done|].
    cbn [lstrip_chars]. by rewrite H1. }
  destruct s1 as [|b s2].
  { apply Hstop; [|cbn [lstrip_chars]; by rewrite H1].
    intros [|x [|y w]] Hw; simpl in Hw; simpl; split_prefix; congruence. }
  destruct (two a b) eqn:H2.
  { apply (Hrec (String a (String b "")) s2); [done|simpl in Hn; lia|done|].
    cbn [lstrip_chars]. by rewrite H1, H2. }
  destruct s2 as [|c s3].
  { apply Hstop; [|cbn [lstrip_chars]; by rewrite H1, H2].
    intros [|x [|y [|z w]]] Hw; simpl in Hw; simpl; split_prefix; congruence. }
  destruct (three a b c) eqn:H3.
  { apply (Hrec (String a (String b (String c ""))) s3);
      [done|simpl in Hn; lia|done|].
    cbn [lstrip_chars]. by rewrite H1, H2, H3. }
  apply Hstop; [|cbn [lstrip_chars]; by rewrite H1, H2, H3].
  intros [|x [|y [|z [|v w]]]] Hw; simpl in Hw; simpl; split_prefix; congruence.
Qed.

Lemma recognised_rev one two three w :
  recognised one (λ b a, two a b) (λ c b a, three a b c) w
  = recognised one two three (String.rev w).
Proof.
  destruct w as [|a [|b [|c [|d w]]]]; try done.
  destruct (String.rev (String a (String b (String c (String d w)))))
    as [|x [|y [|z [|v u]]]] eqn:Hr; try done;
    apply (f_equal String.rev) in Hr; rewrite rev_involutive in Hr;
    discriminate Hr.
Qed.

Ltac by_decide := refine (bool_decide_eq_true_1 _ _); vm_compute; reflexivity.

(** The white space of Python is what the three tests recognise. *)
Lemma recognised_whitespace w :
  recognised isspace isspace2 isspace3 w = true ↔ w ∈ whitespace.
Proof.
  split.
  - destruct w as [|a [|b [|c [|d w]]]]; try done; simpl; intros H.
    + rewrite <- (ascii_nat_embedding a). unfold isspace in H.
      destruct (nat_of_ascii a) as [|n]; [done|].
      do 32 (destruct n as [|n];
             [try discriminate H; by_decide|]).
      discriminate H.
    + rewrite <- (ascii_nat_embedding a), <- (ascii_nat_embedding b).
      unfold isspace2 in H.
      repeat (rewrite orb_true_iff in H || rewrite andb_true_iff in H
              || rewrite Nat.eqb_eq in H).
      destruct H as [-> [->| ->]];
        by_decide.
    + rewrite <- (ascii_nat_embedding a), <- (ascii_nat_embedding b),
        <- (ascii_nat_embedding c).
      unfold isspace3 in H.
      repeat (rewrite orb_true_iff in H || rewrite andb_true_iff in H
              || rewrite Nat.eqb_eq in H || rewrite Nat.leb_le in H).
      destruct H as [[[[[-> ->] ->]|[[-> ->] H]]|[[-> ->] ->]]|[[-> ->] ->]];
        try (by_decide).
      assert (Hz : nat_of_ascii c ∈ [128; 129; 130; 131; 132; 133; 134; 135;
                                     136; 137; 138; 168; 169; 175]).
      { destruct H as [[[[H1 H2]|H]|H]|H].
        - apply list_elem_of_In. simpl. lia.
        - rewrite H. by_decide.
        - rewrite H. by_decide.
        - rewrite H. by_decide. }
      clear H.
      repeat (apply elem_of_cons in Hz as [->|Hz];
              [by_decide|]).
      by apply elem_of_nil in Hz.
  - intros H. unfold whitespace in H. simpl in H.
    repeat (apply elem_of_cons in H as [->|H]; [vm_compute; reflexivity|]).
    by apply elem_of_nil in H.
Qed.

(** [strip_ws] takes white-space characters off both ends of a text
    until neither end is one. *)
Lemma strip_ws_spec s :
  ∃ before after,
    Forall (λ w, w ∈ whitespace) before
    ∧ Forall (λ w, w ∈ whitespace) after
    ∧ s = written before +:+ strip_ws s +:+ written after
    ∧ ∀ w, w ∈ whitespace →
           startswith w (strip_ws s) = false ∧ endswith w (strip_ws s) = false.
Proof.
  unfold strip_ws, rstrip_ws, lstrip_ws.
  destruct (lstrip_chars_spec isspace isspace2 isspace3 s)
    as (before & Hbefore & Hs & Hstart).
  set (r := lstrip_chars isspace isspace2 isspace3 s) in *.
  destruct (lstrip_chars_spec isspace (λ b a, isspace2 a b)
              (λ c b a, isspace3 a b c) (String.rev r))
    as (after & Hafter & Hr & Hend).
  set (t := lstrip_chars isspace (λ b a, isspace2 a b)
              (λ c b a, isspace3 a b c) (String.rev r)) in *.
  assert (Hr' : r = String.rev t +:+ written (map String.rev (reverse after))).
  { by rewrite <- rev_written, <- rev_append, <- Hr, rev_involutive. }
  exists before, (map String.rev (reverse after)).
  split; [|split; [|split]].
  - eapply Forall_impl; [exact Hbefore|]. intros w. apply recognised_whitespace.
  - apply Forall_forall. intros w Hw.
    apply list_elem_of_fmap in Hw as (w' & -> & Hw').
    rewrite elem_of_reverse in Hw'.
    rewrite Forall_forall in Hafter. specialize (Hafter w' Hw').
    rewrite recognised_rev in Hafter. by apply recognised_whitespace.
  - by rewrite <- Hr'.
  - intros w Hw. split.
    + destruct (startswith w (String.rev t)) eqn:E; [|done].
      rewrite <- (Hstart w); [|by apply recognised_whitespace].
      rewrite Hr'. symmetry. by apply startswith_app_more.
    + unfold endswith. rewrite rev_involutive. apply Hend.
      rewrite recognised_rev, rev_involutive. by apply recognised_whitespace.
Qed.

End StripFacts.

(** ** Listings written and read back *)

Section ReadBackFacts.

Lemma collect_unique_single fs f text :
  FS.read fs f = Some text →
  collect_unique_relationships fs [f] = Some (file_relationships text).
Proof.
  intros Hread. rewrite collect_unique_relationships_spec.
  - unfold union_of_listings. simpl. rewrite Hread. simpl. f_equal. set_solver.
  - constructor; [|constructor]. apply isfile_read. by rewrite Hread.
Qed.

Lemma read_relationships_values fs file_path r v :
  read_relationships_from_file fs file_path !! r = Some v → v = true.
Proof.
  unfold read_relationships_from_file.
  destruct (FS.isfile fs file_path); [|by rewrite lookup_empty].
  destruct (FS.read fs file_path) as [text|]; [|by rewrite lookup_empty].
  generalize (lines text). intros ls.
  assert (∀ acc : gmap string bool,
            (∀ k w, acc !! k = Some w → w = true) →
            foldl (λ relationships line,
                     if is_entry_line line
                     then <[strip_ws line := true]> relationships
                     else relationships) acc ls !! r = Some v → v = true) as H.
  { induction ls as [|l ls IH]; intros acc Hacc; simpl; [by apply Hacc|].
    apply IH. destruct (is_entry_line l); [|done].
    intros k w. rewrite lookup_insert. case_decide; [congruence|apply Hacc]. }
  apply H. intros k w. by rewrite lookup_empty.
Qed.

Lemma write_relationships_to_file_ok
    fs output_path relationships dot_file_path is_icgraph :
  FS.isdir fs output_path = false →
  write_relationships_to_file fs output_path relationships dot_file_path is_icgraph
  = Some (<[output_path
            := FS.File (relationships_text relationships dot_file_path is_icgraph)]>
            fs)
  ∧ FS.read (<[output_path
               := FS.File (relationships_text relationships dot_file_path
                             is_icgraph)]> fs) output_path
    = Some (relationships_text relationships dot_file_path is_icgraph).
Proof.
  intros Hdir. unfold write_relationships_to_file.
  rewrite write_spec, Hdir. split; [done|apply read_write].
Qed.

(** [strip_ws] removes each of the white-space characters of Python,
    alone and around a text, and stops at the text. *)
Lemma strip_ws_whitespace :
  Forall (λ w, strip_ws w = ""
               ∧ strip_ws (w +:+ "a -> b" +:+ w) = "a -> b"
               ∧ strip_ws ("a" +:+ w +:+ "b") = "a" +:+ w +:+ "b")
         whitespace.
Proof. repeat constructor; vm_compute; reflexivity. Qed.

(** [strip_ws] keeps the characters whose encodings are next to those. *)
Lemma strip_ws_not_whitespace :
  Forall (λ w, strip_ws (w +:+ "a -> b" +:+ w) = w +:+ "a -> b" +:+ w)
         not_whitespace.
Proof. repeat constructor; vm_compute; reflexivity. Qed.

(** Both readers take a line that ends in a no-break space for the line
    without it, and a line made of a line separator for a blank one. *)
Lemma readers_strip_wide_space :
  collect_unique_relationships store_wide_space ["d/f_relationships.txt"]
  = Some {["a -> b"]}
  ∧ read_relationships_from_file store_wide_space "d/f_relationships.txt"
    = {["a -> b" := true]}.
Proof. split; vm_compute; reflexivity. Qed.

End ReadBackFacts.

(** X6: a listing written by the sink and read back gives the set of the
    relationships written, each relationship being one line without a
    comment sign in front and without white space around it; both
    readers of the program agree on it. *)
Theorem listing_read_back
    (fs : FS.store) (output_path : string) (relationships : list string)
    (dot_file_path : string) (is_icgraph : bool) :
  FS.isdir fs output_path = false →
  no_break (basename dot_file_path) = true →
  Forall clean_entry relationships →
  ∃ fs',
    write_relationships_to_file fs output_path relationships dot_file_path is_icgraph
    = Some fs'
    ∧ dom (read_relationships_from_file fs' output_path) = list_to_set relationships
    ∧ collect_unique_relationships fs' [output_path]
      = Some (list_to_set relationships).
Proof.
  intros Hdir Hbase Hclean. unfold write_relationships_to_file.
  rewrite write_spec, Hdir. eexists. split; [done|].
  pose proof (read_write fs output_path
                (relationships_text relationships dot_file_path is_icgraph)) as Hread.
  split.
  - rewrite read_relationships_from_file_dom, Hread. simpl.
    by apply file_relationships_of_listing.
  - rewrite (collect_unique_single _ _ _ Hread).
    by rewrite file_relationships_of_listing.
Qed.

Lemma listing_read_back_witness :
  FS.isdir store_one_dot "d/f_relationships.txt" = false
  ∧ no_break (basename "d/dot_files/f.dot") = true
  ∧ Forall clean_entry ["b -> a"; "a -> b"; "a -> b"]
  ∧ ∃ fs',
      write_relationships_to_file store_one_dot "d/f_relationships.txt"
        ["b -> a"; "a -> b"; "a -> b"] "d/dot_files/f.dot" false
      = Some fs'
      ∧ dom (read_relationships_from_file fs' "d/f_relationships.txt")
        = list_to_set ["b -> a"; "a -> b"; "a -> b"]
      ∧ collect_unique_relationships fs' ["d/f_relationships.txt"]
        = Some (list_to_set ["b -> a"; "a -> b"; "a -> b"]).
Proof.
  assert (H1 : FS.isdir store_one_dot "d/f_relationships.txt" = false)
    by (vm_compute; reflexivity).
  assert (H2 : no_break (basename "d/dot_files/f.dot") = true) by reflexivity.
  assert (H3 : Forall clean_entry ["b -> a"; "a -> b"; "a -> b"])
    by (repeat constructor; vm_compute; reflexivity).
  split; [exact H1|]. split; [exact H2|]. split; [exact H3|].
  exact (listing_read_back store_one_dot "d/f_relationships.txt"
           ["b -> a"; "a -> b"; "a -> b"] "d/dot_files/f.dot" false H1 H2 H3).
Defined.

(** ** From the graph to the combined file *)

Section PipelineFacts.

Lemma all_chars_impl (p q : ascii → bool) s :
  (∀ c, p c = true → q c = true) → all_chars p s = true → all_chars q s = true.
Proof.
  intros Hpq. induction s as [|c s IH]; [done|]. simpl.
  intros [Hc Hs]%andb_true_iff. by rewrite (Hpq c Hc), IH.
Qed.

Lemma all_chars_rev p s : all_chars p (String.rev s) = all_chars p s.
Proof.
  induction s as [|c s IH]; [done|].
  change (String c s) with (String c "" +:+ s).
  rewrite rev_append, !all_chars_app, IH. simpl. by rewrite andb_true_r, andb_comm.
Qed.

Lemma is_alnum_not_break c :
  is_alnum_ c = true →
  (negb (Ascii.eqb c "010") && negb (Ascii.eqb c "013"))%char = true.
Proof.
  intros Hc.
  destruct (Ascii.eqb c "010") eqn:E1; [by apply Ascii.eqb_eq in E1 as ->|].
  destruct (Ascii.eqb c "013") eqn:E2; [by apply Ascii.eqb_eq in E2 as ->|].
  done.
Qed.

Lemma is_alnum_not_space c : is_alnum_ c = true → isspace c = false.
Proof.
  intros Hc. unfold is_alnum_, is_alpha_ in Hc. unfold isspace.
  destruct (nat_of_ascii c) as [|n]; [done|].
  do 32 (destruct n as [|n]; [done|]). done.
Qed.

Lemma is_alpha_alnum c : is_alpha_ c = true → is_alnum_ c = true.
Proof. unfold is_alnum_. by intros ->. Qed.

Lemma identifier_shaped_alnum s :
  identifier_shaped s → s ≠ "" ∧ all_chars is_alnum_ s = true.
Proof.
  destruct s as [|c s]; [done|]. intros [Hc Hs]. split; [done|].
  simpl. by rewrite (is_alpha_alnum c Hc), Hs.
Qed.

Lemma is_alnum_ascii c : is_alnum_ c = true → nat_of_ascii c < 128.
Proof.
  unfold is_alnum_, is_alpha_. intros Hc.
  repeat (rewrite orb_true_iff in Hc || rewrite andb_true_iff in Hc
          || rewrite Nat.eqb_eq in Hc || rewrite Nat.leb_le in Hc).
  lia.
Qed.

Ltac no_space H :=
  apply not_true_is_false; intros H;
  repeat (rewrite orb_true_iff in H || rewrite andb_true_iff in H
          || rewrite Nat.eqb_eq in H || rewrite Nat.leb_le in H);
  lia.

(** No byte of ASCII is the first or the last byte of a longer
    encoding of white space. *)
Lemma ascii_not_space2 c x :
  nat_of_ascii c < 128 → isspace2 c x = false ∧ isspace2 x c = false.
Proof. intros Hc. unfold isspace2. split; no_space H. Qed.

Lemma ascii_not_space3 c x y :
  nat_of_ascii c < 128 → isspace3 c x y = false ∧ isspace3 x y c = false.
Proof. intros Hc. unfold isspace3. split; no_space H. Qed.

Lemma lstrip_chars_keep one two three c s :
  one c = false → (∀ b, two c b = false) → (∀ b d, three c b d = false) →
  lstrip_chars one two three (String c s) = String c s.
Proof.
  intros H1 H2 H3. cbn [lstrip_chars]. rewrite H1.
  destruct s as [|b s]; [done|]. rewrite H2.
  destruct s as [|d s]; [done|]. by rewrite H3.
Qed.

(** A text that starts and ends with a letter, a digit or an underscore
    is left as it is by [strip]. *)
Lemma strip_ws_alnum_ends s :
  s ≠ "" →
  (∀ c' s', s = String c' s' → is_alnum_ c' = true) →
  (∀ c' s', String.rev s = String c' s' → is_alnum_ c' = true) →
  strip_ws s = s.
Proof.
  intros Hne Hfirst Hlast. unfold strip_ws, rstrip_ws, lstrip_ws.
  destruct s as [|a s'] eqn:Hs; [done|].
  pose proof (Hfirst a s' eq_refl) as Ha.
  rewrite lstrip_chars_keep.
  - rewrite <- Hs in *. destruct (String.rev s) as [|z t] eqn:Hr.
    + exfalso. apply Hne. by rewrite <- (rev_involutive s), Hr.
    + pose proof (Hlast z t eq_refl) as Hz.
      rewrite lstrip_chars_keep.
      * by rewrite <- Hr, rev_involutive.
      * by apply is_alnum_not_space.
      * intros b. by apply (ascii_not_space2 z b), is_alnum_ascii.
      * intros b d. by apply (ascii_not_space3 z d b), is_alnum_ascii.
  - by apply is_alnum_not_space.
  - intros b. by apply (ascii_not_space2 a b), is_alnum_ascii.
  - intros b d. by apply (ascii_not_space3 a b d), is_alnum_ascii.
Qed.

(** A relationship between two identifier-shaped names is read back as
    it was written. *)
Lemma identifier_relationship_clean a b :
  identifier_shaped a → identifier_shaped b →
  clean_entry (a +:+ " -> " +:+ b).
Proof.
  intros Ha Hb.
  destruct (identifier_shaped_alnum a Ha) as [Hane Haall].
  destruct (identifier_shaped_alnum b Hb) as [Hbne Hball].
  assert (strip_ws (a +:+ " -> " +:+ b) = a +:+ " -> " +:+ b) as Hstrip.
  { apply strip_ws_alnum_ends.
    - destruct a; [done|]. by rewrite app_cons.
    - intros c' s' Heq. destruct a as [|c a]; [done|].
      rewrite app_cons in Heq. injection Heq as <- _.
      simpl in Haall. by apply andb_true_iff in Haall as [Hc _].
    - intros c' s' Heq. rewrite !rev_append, !app_assoc' in Heq.
      pose proof (all_chars_rev is_alnum_ b) as Hrev. rewrite Hball in Hrev.
      destruct (String.rev b) as [|c r] eqn:Hr.
      + exfalso. apply Hbne. by rewrite <- (rev_involutive b), Hr.
      + rewrite app_cons in Heq. injection Heq as <- _.
        simpl in Hrev. by apply andb_true_iff in Hrev as [Hc _]. }
  split; [|split; [|done]].
  - unfold no_break. rewrite !all_chars_app.
    rewrite (all_chars_impl is_alnum_ _ a is_alnum_not_break Haall).
    by rewrite (all_chars_impl is_alnum_ _ b is_alnum_not_break Hball).
  - unfold is_entry_line. rewrite Hstrip.
    destruct a as [|c a]; [done|]. destruct Ha as [Hc _].
    rewrite app_cons, startswith_cons.
    destruct (Ascii.eqb "#" c) eqn:E; [by apply Ascii.eqb_eq in E as <-|done].
Qed.

End PipelineFacts.

(** X7: for a graph whose edge end points all resolve to
    identifier-shaped names, writing the per-file listing and then
    combining it gives a combined file that holds exactly the set of
    the graph's relationships. *)
Theorem graph_to_combined_listing
    (fs : FS.store) (graph : Graph) (dot_file_path directory : string) :
  let relationships :=
    extract_relationships_from_edges graph
      (create_node_to_function_mapping graph) (str_in "_icgraph" dot_file_path) in
  let output_dir := get_output_dir_for_combined_file directory in
  let output_path := join output_dir "all_function_relationships.txt" in
  Forall (λ edge,
            identifier_shaped (resolved graph (strip_quotes (get_source edge)))
            ∧ identifier_shaped (resolved graph (strip_quotes (get_destination edge))))
         (get_edges graph) →
  no_break (basename dot_file_path) = true →
  FS.isdir fs (listing_path dot_file_path) = false →
  FS.isdir fs output_path = false →
  ∃ fs1 fs2,
    generate_function_relationships_text fs graph dot_file_path
    = (fs1, Some (listing_path dot_file_path))
    ∧ generate_combined_relationships_file fs1 directory [dot_file_path]
      = (fs2, Some output_path)
    ∧ FS.read fs2 output_path
      = Some (combined_text output_dir (list_to_set relationships)
                (str_in "callee_caller" (lower (basename directory)))).
Proof.
  cbn zeta. intros Hnames Hbase Hlisting Hout.
  set (relationships :=
         extract_relationships_from_edges graph
           (create_node_to_function_mapping graph) (str_in "_icgraph" dot_file_path)).
  assert (Forall clean_entry relationships) as Hclean.
  { unfold relationships. rewrite extract_relationships_resolved.
    apply Forall_fmap, Forall_forall. intros edge Hedge.
    rewrite Forall_forall in Hnames. destruct (Hnames edge Hedge) as [Hs Hd].
    simpl. destruct (str_in "_icgraph" dot_file_path);
      by apply identifier_relationship_clean. }
  destruct (write_relationships_to_file_ok fs (listing_path dot_file_path)
              relationships dot_file_path (str_in "_icgraph" dot_file_path) Hlisting)
    as (Hwrite & Hread).
  set (fs1 := <[listing_path dot_file_path
                := FS.File (relationships_text relationships dot_file_path
                              (str_in "_icgraph" dot_file_path))]> fs) in *.
  assert (FS.isdir fs1 (listing_path dot_file_path) = false) as Hl1
    by (unfold fs1, FS.isdir; by rewrite lookup_insert_eq).
  assert (FS.isdir fs1 (join (get_output_dir_for_combined_file directory)
                             "all_function_relationships.txt") = false) as Ho1.
  { unfold fs1, FS.isdir. rewrite lookup_insert. case_decide; [done|apply Hout]. }
  exists fs1. eexists. split.
  { unfold generate_function_relationships_text.
    fold (listing_path dot_file_path). fold relationships. by rewrite Hwrite. }
  rewrite generate_combined_relationships_file_ok;
    [|by repeat constructor|done].
  split; [done|]. rewrite read_write. f_equal. f_equal.
  rewrite find_relationship_files_spec. simpl.
  rewrite filter_cons, filter_nil.
  assert (FS.exists_ fs1 (listing_path dot_file_path) = true) as ->
    by (unfold fs1, FS.exists_; by rewrite lookup_insert_eq).
  simpl. unfold union_of_listings. simpl. rewrite Hread. simpl.
  rewrite file_relationships_of_listing by done. set_solver.
Qed.

Lemma graph_to_combined_listing_witness :
  Forall (λ edge,
            identifier_shaped (resolved graph_ab (strip_quotes (get_source edge)))
            ∧ identifier_shaped
                (resolved graph_ab (strip_quotes (get_destination edge))))
         (get_edges graph_ab)
  ∧ no_break (basename "d/dot_files/f.dot") = true
  ∧ FS.isdir store_one_dot (listing_path "d/dot_files/f.dot") = false
  ∧ FS.isdir store_one_dot "d/all_function_relationships.txt" = false
  ∧ ∃ fs1 fs2,
      generate_function_relationships_text store_one_dot graph_ab "d/dot_files/f.dot"
      = (fs1, Some (listing_path "d/dot_files/f.dot"))
      ∧ generate_combined_relationships_file fs1 "d" ["d/dot_files/f.dot"]
        = (fs2, Some "d/all_function_relationships.txt")
      ∧ FS.read fs2 "d/all_function_relationships.txt"
        = Some (combined_text "d"
                  (list_to_set
                     (extract_relationships_from_edges graph_ab
                        (create_node_to_function_mapping graph_ab)
                        (str_in "_icgraph" "d/dot_files/f.dot")))
                  (str_in "callee_caller" (lower (basename "d")))).
Proof.
  assert (H1 : Forall
                 (λ edge,
                    identifier_shaped
                      (resolved graph_ab (strip_quotes (get_source edge)))
                    ∧ identifier_shaped
                        (resolved graph_ab (strip_quotes (get_destination edge))))
                 (get_edges graph_ab))
    by (repeat constructor; vm_compute; reflexivity).
  assert (H2 : no_break (basename "d/dot_files/f.dot") = true) by reflexivity.
  assert (H3 : FS.isdir store_one_dot (listing_path "d/dot_files/f.dot") = false)
    by (vm_compute; reflexivity).
  assert (H4 : FS.isdir store_one_dot "d/all_function_relationships.txt" = false)
    by (vm_compute; reflexivity).
  split; [exact H1|]. split; [exact H2|]. split; [exact H3|]. split; [exact H4|].
  exact (graph_to_combined_listing store_one_dot graph_ab "d/dot_files/f.dot" "d"
           H1 H2 H3 H4).
Defined.

(** ** When the combined file cannot be made *)

Section CombinedFailure.

Lemma collect_unique_go_none fs rel_files :
  foldl (λ acc rel_file,
           all_relationships ← acc;
           text ← FS.read fs rel_file;
           Some (foldl (λ all_relationships line,
                          if is_entry_line line
                          then {[ strip_ws line ]} ∪ all_relationships
                          else all_relationships)
                       all_relationships (lines text)))
        (None : option (gset string)) rel_files
  = None.
Proof. induction rel_files as [|f fs' IH]; [done|]. simpl. apply IH. Qed.

Lemma collect_unique_unreadable fs rel_files f :
  f ∈ rel_files → FS.read fs f = None →
  collect_unique_relationships fs rel_files = None.
Proof.
  unfold collect_unique_relationships. generalize (Some (∅ : gset string)).
  intros acc Hin Hread. revert acc.
  induction rel_files as [|g gs IH]; intros acc; [by apply elem_of_nil in Hin|].
  apply elem_of_cons in Hin as [<-|Hin].
  - simpl. rewrite Hread. destruct acc; simpl; apply collect_unique_go_none.
  - simpl. by apply IH.
Qed.

Lemma collect_unique_relationships_ext fs fs' rel_files :
  (∀ f, f ∈ rel_files → FS.read fs f = FS.read fs' f) →
  collect_unique_relationships fs rel_files
  = collect_unique_relationships fs' rel_files.
Proof.
  unfold collect_unique_relationships. generalize (Some (∅ : gset string)).
  intros acc Hext. revert acc.
  induction rel_files as [|g gs IH]; intros acc; [done|].
  simpl. rewrite (Hext g) by (by left).
  apply IH. intros f Hf. apply Hext. by right.
Qed.

End CombinedFailure.

(** X8: when the path at which the listing of one of the dot files is
    expected is a directory, the combined step takes the failure branch:
    it returns nothing and writes nothing. *)
Theorem combined_fails_on_directory_listing
    (fs : FS.store) (directory : string) (dot_files : list string) (d : string) :
  d ∈ dot_files →
  FS.isdir fs (listing_path d) = true →
  generate_combined_relationships_file fs directory dot_files = (fs, None).
Proof.
  intros Hd Hdir. unfold generate_combined_relationships_file.
  rewrite (collect_unique_unreadable fs _ (listing_path d)); [done| |].
  - apply elem_of_find_relationship_files. exists d. split; [done|]. split; [done|].
    unfold FS.isdir in Hdir. unfold FS.exists_. by destruct (fs !! listing_path d).
  - unfold FS.isdir in Hdir. unfold FS.read.
    by destruct (fs !! listing_path d) as [[|?]|].
Qed.

Lemma combined_fails_on_directory_listing_witness :
  "d/dot_files/b.dot" ∈ ["d/dot_files/a.dot"; "d/dot_files/b.dot"]
  ∧ FS.isdir store_listing_is_directory (listing_path "d/dot_files/b.dot") = true
  ∧ generate_combined_relationships_file store_listing_is_directory "d"
      ["d/dot_files/a.dot"; "d/dot_files/b.dot"]
    = (store_listing_is_directory, None).
Proof.
  assert (H1 : "d/dot_files/b.dot" ∈ ["d/dot_files/a.dot"; "d/dot_files/b.dot"])
    by (right; left).
  assert (H2 : FS.isdir store_listing_is_directory
                 (listing_path "d/dot_files/b.dot") = true)
    by (vm_compute; reflexivity).
  split; [exact H1|]. split; [exact H2|].
  exact (combined_fails_on_directory_listing store_listing_is_directory "d"
           ["d/dot_files/a.dot"; "d/dot_files/b.dot"] "d/dot_files/b.dot" H1 H2).
Defined.

(** ** Which dot files are found *)

Section FindDotFiles.

Lemma find_in_walk_go (entries : list (string * list string * list string))
    (acc : list string) :
  foldl (λ dot_files '(root, _, files),
           foldl (λ dot_files file,
                    if endswith ".dot" file then dot_files ++ [join root file]
                    else dot_files)
                 dot_files files)
        acc entries
  = acc ++ flat_map (λ '(root, _, files),
                       map (join root)
                           (filter (λ f, endswith ".dot" f = true) files))
                    entries.
Proof.
  revert acc. induction entries as [|[[root ds] files] entries IH]; intros acc.
  - simpl. by rewrite app_nil_r.
  - simpl. rewrite IH.
    rewrite (foldl_cond_snoc (endswith ".dot") (join root) acc files).
    by rewrite <- app_assoc.
Qed.

End FindDotFiles.

(** X9: when the directory has a [dot_files] sub-directory, the dot files
    found are the entries of that sub-directory alone whose name ends in
    [.dot], whatever kind of entry they are; otherwise they are the
    entries that are no directories and whose name ends in [.dot], in the
    directory and in every directory below it. *)
Theorem find_dot_files_spec (fs : FS.store) (directory p : string) :
  p ∈ find_dot_files fs directory ↔
  if FS.isdir fs (join directory "dot_files") then
    ∃ file,
      file ∈ FS.listdir fs (join directory "dot_files")
      ∧ endswith ".dot" file = true
      ∧ p = join (join directory "dot_files") file
  else
    ∃ root file,
      reach fs directory root
      ∧ file ∈ FS.listdir fs root
      ∧ FS.isdir fs (join root file) = false
      ∧ endswith ".dot" file = true
      ∧ p = join root file.
Proof.
  unfold find_dot_files. destruct (FS.isdir fs (join directory "dot_files")).
  - rewrite (foldl_cond_snoc (endswith ".dot") (join (join directory "dot_files"))).
    simpl.
    change (map ?f ?l) with (f <$> l).
    rewrite list_elem_of_fmap. setoid_rewrite list_elem_of_filter. naive_solver.
  - rewrite find_in_walk_go. simpl. rewrite list_elem_of_In, in_flat_map. split.
    + intros ([[root ds] files] & He & Hp).
      apply list_elem_of_In, walk_spec in He as (root' & Hreach & [= -> -> ->]).
      change (map (join root')) with (fmap (M := list) (join root')) in Hp.
      apply list_elem_of_In, list_elem_of_fmap in Hp as (file & -> & Hfile).
      apply list_elem_of_filter in Hfile as [Hdot Hfile].
      apply list_elem_of_filter in Hfile as [Hnd Hfile].
      exists root', file. done.
    + intros (root & file & Hreach & Hfile & Hnd & Hdot & ->).
      exists (walk_entry fs root). split.
      * apply list_elem_of_In, walk_spec. eauto.
      * simpl. apply list_elem_of_In.
        change (map (join root)) with (fmap (M := list) (join root)).
        apply list_elem_of_fmap. exists file. split; [done|].
        apply list_elem_of_filter. split; [done|].
        by apply list_elem_of_filter.
Qed.

(** ** Combining twice *)

(** X10: once the combined file is written, combining again with the
    same dot files changes nothing, as long as the combined file is not
    itself the listing of one of the dot files. *)
Theorem combined_listing_idempotent
    (fs fs1 : FS.store) (directory : string) (dot_files : list string)
    (output_path : string) :
  generate_combined_relationships_file fs directory dot_files
  = (fs1, Some output_path) →
  (∀ d, d ∈ dot_files → listing_path d ≠ output_path) →
  generate_combined_relationships_file fs1 directory dot_files
  = (fs1, Some output_path).
Proof.
  unfold generate_combined_relationships_file.
  set (out := join (get_output_dir_for_combined_file directory)
                   "all_function_relationships.txt").
  destruct (collect_unique_relationships fs (find_relationship_files fs dot_files))
    as [all|] eqn:Hall; [|done].
  rewrite write_spec. destruct (FS.isdir fs out) eqn:Hdir; [done|].
  intros [= <- <-] Hne.
  assert (∀ d, d ∈ dot_files →
               (<[out := FS.File
                           (combined_text (get_output_dir_for_combined_file directory)
                              all (str_in "callee_caller" (lower (basename directory))))]>
                  fs : FS.store) !! listing_path d
               = fs !! listing_path d) as Hsame.
  { intros d Hd. apply lookup_insert_ne. intros Heq. by apply (Hne d Hd). }
  assert (find_relationship_files
            (<[out := FS.File
                        (combined_text (get_output_dir_for_combined_file directory)
                           all (str_in "callee_caller" (lower (basename directory))))]>
               fs) dot_files
          = find_relationship_files fs dot_files) as Hfind.
  { rewrite !find_relationship_files_spec.
    clear Hall. induction dot_files as [|d ds IH]; [done|].
    simpl. rewrite !filter_cons.
    assert (FS.exists_
              (<[out := FS.File
                          (combined_text (get_output_dir_for_combined_file directory)
                             all
                             (str_in "callee_caller" (lower (basename directory))))]>
                 fs) (listing_path d)
            = FS.exists_ fs (listing_path d)) as ->
      by (unfold FS.exists_; rewrite Hsame; [done|by left]).
    rewrite IH; [done| |].
    - intros d' Hd'. apply Hne. by right.
    - intros d' Hd'. apply Hsame. by right. }
  rewrite Hfind.
  rewrite <- (collect_unique_relationships_ext fs), Hall.
  - rewrite write_spec.
    assert (FS.isdir
              (<[out := FS.File
                          (combined_text (get_output_dir_for_combined_file directory)
                             all
                             (str_in "callee_caller" (lower (basename directory))))]>
                 fs) out = false) as ->
      by (unfold FS.isdir; by rewrite lookup_insert_eq).
    by rewrite insert_insert_eq.
  - intros f (d & Hd & -> & _)%elem_of_find_relationship_files.
    unfold FS.read. by rewrite Hsame.
Qed.

Lemma combined_listing_idempotent_witness :
  (∀ d, d ∈ ["d/dot_files/a.dot"; "d/dot_files/b.dot"] →
        listing_path d ≠ "d/all_function_relationships.txt")
  ∧ ∃ fs1,
      generate_combined_relationships_file store_two_listings "d"
        ["d/dot_files/a.dot"; "d/dot_files/b.dot"]
      = (fs1, Some "d/all_function_relationships.txt")
      ∧ generate_combined_relationships_file fs1 "d"
          ["d/dot_files/a.dot"; "d/dot_files/b.dot"]
        = (fs1, Some "d/all_function_relationships.txt").
Proof.
  assert (H1 : ∀ d, d ∈ ["d/dot_files/a.dot"; "d/dot_files/b.dot"] →
                    listing_path d ≠ "d/all_function_relationships.txt").
  { intros d Hd.
    apply elem_of_cons in Hd as [->|Hd]; [by vm_compute|].
    apply elem_of_cons in Hd as [->|Hd]; [by vm_compute|].
    by apply elem_of_nil in Hd. }
  split; [exact H1|].
  destruct (generate_combined_relationships_file store_two_listings "d"
              ["d/dot_files/a.dot"; "d/dot_files/b.dot"]) as [fs1 r] eqn:Hrun.
  assert (r = Some "d/all_function_relationships.txt") as ->.
  { change r with (snd (fs1, r)). rewrite <- Hrun. by vm_compute. }
  exists fs1. split; [done|].
  exact (combined_listing_idempotent store_two_listings fs1 "d"
           ["d/dot_files/a.dot"; "d/dot_files/b.dot"]
           "d/all_function_relationships.txt" Hrun H1).
Defined.

(** ** Facts about making directories and copying *)

Section ShutilFacts.

Import Shutil.

Lemma join_nonempty d x : x ≠ "" → join d x ≠ "".
Proof.
  intros Hx. unfold join.
  destruct (startswith "/" x); [done|].
  destruct (negb (truthy d) || endswith "/" d).
  - destruct d; simpl; [done|]. by rewrite app_cons.
  - destruct d; simpl; [by rewrite app_nil_l'|]. by rewrite app_cons.
Qed.

Lemma truthy_nonempty s : s ≠ "" → truthy s = true.
Proof. by destruct s. Qed.

Lemma parent_error_child fs d x :
  FS.isdir fs d = true → endswith "/" d = false →
  str_in "/" x = false → x ≠ "" →
  parent_error fs (join d x) = None.
Proof.
  intros Hd Hs Hx Hne. unfold parent_error.
  rewrite (truthy_nonempty (join d x)) by by apply join_nonempty.
  simpl. rewrite dirname_join by done.
  destruct d; [done|].
  unfold FS.isdir in Hd. by destruct (fs !! String a d) as [[|]|].
Qed.

Lemma makedirs_go_S fuel name fs :
  makedirs_go (S fuel) name fs
  = let head := dirname name in
    let tail := basename name in
    let '(head, tail) :=
      if truthy tail then (head, tail) else (dirname head, basename head) in
    let before : FS.store * (os_error + bool) :=
      if truthy head && truthy tail && negb (FS.exists_ fs head) then
        match makedirs_go fuel head fs with
        | (fs', inr _) => (fs', inr (String.eqb tail "."))
        | (fs', inl FileExistsError) => (fs', inr (String.eqb tail "."))
        | (fs', inl e) => (fs', inl e)
        end
      else (fs, inr false) in
    match before with
    | (fs1, inl e) => (fs1, inl e)
    | (fs1, inr true) => (fs1, inr tt)
    | (fs1, inr false) =>
        match mkdir name fs1 with
        | (fs2, inr _) => (fs2, inr tt)
        | (fs2, inl e) =>
            if FS.isdir fs2 name then (fs2, inr tt) else (fs2, inl e)
        end
    end.
Proof. reflexivity. Qed.

Lemma isdir_exists fs p : FS.isdir fs p = true → FS.exists_ fs p = true.
Proof. unfold FS.isdir, FS.exists_. by destruct (fs !! p) as [[|]|]. Qed.

(** Making a directory directly below an existing one. *)
Lemma makedirs_child fs d x :
  FS.isdir fs d = true → endswith "/" d = false →
  str_in "/" x = false → x ≠ "" →
  makedirs (join d x) fs
  = match fs !! join d x with
    | Some FS.Dir => (fs, inr tt)
    | Some (FS.File _) => (fs, inl FileExistsError)
    | None => (<[join d x := FS.Dir]> fs, inr tt)
    end.
Proof.
  intros Hd Hs Hx Hne. unfold makedirs. rewrite makedirs_go_S.
  cbv zeta. rewrite basename_join, dirname_join by done.
  rewrite (truthy_nonempty x) by done.
  rewrite (isdir_exists _ _ Hd). rewrite andb_false_r.
  unfold mkdir. rewrite (truthy_nonempty (join d x)) by by apply join_nonempty.
  rewrite parent_error_child by done.
  unfold FS.exists_, FS.isdir.
  destruct (fs !! join d x) as [[|]|] eqn:E; simpl; rewrite ?E; try done.
Qed.

Lemma makedirs_child_free fs d x :
  FS.isdir fs d = true → endswith "/" d = false →
  str_in "/" x = false → x ≠ "" →
  FS.isfile fs (join d x) = false →
  makedirs (join d x) fs = (<[join d x := FS.Dir]> fs, inr tt).
Proof.
  intros Hd Hs Hx Hne Hf. rewrite makedirs_child by done.
  unfold FS.isfile in Hf.
  destruct (fs !! join d x) as [[|]|] eqn:E; try done.
  by rewrite insert_id.
Qed.

Lemma makedirs_child_file fs d x :
  FS.isdir fs d = true → endswith "/" d = false →
  str_in "/" x = false → x ≠ "" →
  FS.isfile fs (join d x) = true →
  makedirs (join d x) fs = (fs, inl FileExistsError).
Proof.
  intros Hd Hs Hx Hne Hf. rewrite makedirs_child by done.
  unfold FS.isfile in Hf.
  by destruct (fs !! join d x) as [[|]|] eqn:E.
Qed.

Lemma isdir_insert_dir fs p q :
  FS.isdir fs q = true → FS.isdir (<[p := FS.Dir]> fs) q = true.
Proof.
  unfold FS.isdir. destruct (decide (p = q)) as [->|Hpq].
  - by rewrite lookup_insert_eq.
  - by rewrite lookup_insert_ne.
Qed.

Lemma isdir_insert_here fs p : FS.isdir (<[p := FS.Dir]> fs) p = true.
Proof. unfold FS.isdir. by rewrite lookup_insert_eq. Qed.

Lemma isfile_insert_dir fs p q :
  FS.isfile fs q = false → FS.isfile (<[p := FS.Dir]> fs) q = false.
Proof.
  unfold FS.isfile. destruct (decide (p = q)) as [->|Hpq].
  - by rewrite lookup_insert_eq.
  - by rewrite lookup_insert_ne.
Qed.

Lemma isfile_insert_dir_other fs p q :
  FS.isfile fs p = false → FS.isfile fs q = true →
  FS.isfile (<[p := FS.Dir]> fs) q = true.
Proof.
  unfold FS.isfile. intros Hp Hq. destruct (decide (p = q)) as [->|Hpq].
  - by rewrite Hq in Hp.
  - by rewrite lookup_insert_ne.
Qed.

Lemma insert_dir_subseteq (fs : FS.store) p :
  FS.isfile fs p = false → fs ⊆ <[p := FS.Dir]> fs.
Proof.
  unfold FS.isfile. intros Hp.
  destruct (fs !! p) as [[|]|] eqn:E; try done.
  - by rewrite insert_id.
  - by apply insert_subseteq.
Qed.

End ShutilFacts.

(** ** The folder layout *)

Section LayoutFacts.

Import Shutil Organizer OrganizerSpec.

Lemma bind_ok {A B} (m : io A) (k : A → io B) fs fs' a :
  m fs = (fs', inr a) → bind m k fs = k a fs'.
Proof. unfold bind. by intros ->. Qed.

Lemma bind_err {A B} (m : io A) (k : A → io B) fs fs' e :
  m fs = (fs', inl e) → bind m k fs = (fs', inl e).
Proof. unfold bind. by intros ->. Qed.

Lemma add_dirs_snoc ps p fs :
  add_dirs (ps ++ [p]) fs = <[p := FS.Dir]> (add_dirs ps fs).
Proof. unfold add_dirs. by rewrite foldl_snoc. Qed.

Lemma add_dirs_lookup_in ps p fs :
  p ∈ ps → add_dirs ps fs !! p = Some FS.Dir.
Proof.
  induction ps as [|q ps IH] using rev_ind; [by intros ?%elem_of_nil|].
  rewrite add_dirs_snoc. intros [Hin| ->%list_elem_of_singleton]%elem_of_app.
  - destruct (decide (q = p)) as [->|Hne].
    + by rewrite lookup_insert_eq.
    + rewrite lookup_insert_ne by done. by apply IH.
  - by rewrite lookup_insert_eq.
Qed.

Lemma add_dirs_lookup_out ps p fs :
  p ∉ ps → add_dirs ps fs !! p = fs !! p.
Proof.
  induction ps as [|q ps IH] using rev_ind; [done|].
  rewrite add_dirs_snoc. intros Hout.
  rewrite lookup_insert_ne.
  - apply IH. intros Hin. apply Hout, elem_of_app. by left.
  - intros ->. apply Hout, elem_of_app. right. by apply list_elem_of_singleton.
Qed.

Lemma add_dirs_subseteq ps (fs : FS.store) :
  (∀ p, p ∈ ps → FS.isfile fs p = false) → fs ⊆ add_dirs ps fs.
Proof.
  induction ps as [|q ps IH] using rev_ind; [done|].
  intros Hfree. rewrite add_dirs_snoc.
  assert (Hps : ∀ p, p ∈ ps → FS.isfile fs p = false).
  { intros p Hp. apply Hfree, elem_of_app. by left. }
  etrans; [by apply IH|].
  apply insert_dir_subseteq.
  unfold FS.isfile. destruct (decide (q ∈ ps)) as [Hin|Hout].
  - by rewrite add_dirs_lookup_in.
  - rewrite add_dirs_lookup_out by done.
    apply (Hfree q), elem_of_app. right. by apply list_elem_of_singleton.
Qed.

Lemma add_dirs_idemp ps fs : add_dirs ps (add_dirs ps fs) = add_dirs ps fs.
Proof.
  apply map_eq. intros p. destruct (decide (p ∈ ps)) as [Hin|Hout].
  - by rewrite !add_dirs_lookup_in.
  - by rewrite !add_dirs_lookup_out.
Qed.

Lemma graph_folder_no_slash d x :
  x ≠ "" → endswith "/" x = false → str_in "/" x = false →
  endswith "/" (join d x) = false.
Proof. apply join_no_trailing_slash. Qed.

Ltac solve_isdir :=
  first [ assumption
        | apply isdir_insert_here
        | apply isdir_insert_dir; solve_isdir ].

(** The six calls of [makedirs], when none of the paths is taken by a
    regular file. *)
Lemma create_folder_structure_free fs d :
  FS.isdir fs d = true → endswith "/" d = false →
  (∀ p, p ∈ folder_list (folders_in d) → FS.isfile fs p = false) →
  create_folder_structure d fs
  = (add_dirs (folder_list (folders_in d)) fs, inr (folders_in d)).
Proof.
  intros Hd Hs Hfree.
  assert (H1 := Hfree (join d "function_graphs")).
  assert (H2 := Hfree (join d "directory_graphs")).
  assert (H3 := Hfree (join d "callee_caller_graph")).
  assert (H4 := Hfree (join d "caller_callee_graph")).
  assert (H5 := Hfree (join (join d "callee_caller_graph") "dot_files")).
  assert (H6 := Hfree (join (join d "caller_callee_graph") "dot_files")).
  unfold folder_list, folders_in in *. cbn [function_graphs directory_graphs
    callee_caller_graph caller_callee_graph callee_caller_dot caller_callee_dot] in *.
  assert (Hs3 : endswith "/" (join d "callee_caller_graph") = false)
    by by apply join_no_trailing_slash.
  assert (Hs4 : endswith "/" (join d "caller_callee_graph") = false)
    by by apply join_no_trailing_slash.
  unfold create_folder_structure.
  repeat (erewrite bind_ok;
    [| apply makedirs_child_free;
       [ solve_isdir
       | done | done | done
       | repeat (apply isfile_insert_dir);
         first [ apply H1 | apply H2 | apply H3 | apply H4 | apply H5 | apply H6 ];
         set_solver ] ]).
  reflexivity.
Qed.


Ltac layout_step p1 d1 x1 :=
  match goal with
  | Hsub : ?fs ⊆ ?cur, Hfile : FS.isfile ?cur ?p = true |- _ =>
      destruct (FS.isfile cur p1) eqn:?;
      [ exists cur; split; [|done];
        apply bind_err, (makedirs_child_file cur d1 x1); [solve_isdir|done..]
      | erewrite bind_ok;
        [| apply (makedirs_child_free cur d1 x1); [solve_isdir|done..] ];
        assert (p ≠ p1) by (intros ->; congruence);
        assert (fs ⊆ <[p1 := FS.Dir]> cur)
          by (etrans; [exact Hsub | by apply insert_dir_subseteq]);
        assert (FS.isfile (<[p1 := FS.Dir]> cur) p = true)
          by (by apply isfile_insert_dir_other);
        assert (FS.isdir (<[p1 := FS.Dir]> cur) p1 = true)
          by apply isdir_insert_here;
        repeat match goal with
               | H : FS.isdir cur ?q = true |- _ =>
                   apply (isdir_insert_dir cur p1 q) in H
               end;
        clear Hsub Hfile ]
  end.

(** The six calls of [makedirs], when a regular file is in the way. *)
Lemma create_folder_structure_taken fs d p :
  FS.isdir fs d = true → endswith "/" d = false →
  p ∈ folder_list (folders_in d) → FS.isfile fs p = true →
  ∃ fs', create_folder_structure d fs = (fs', inl FileExistsError) ∧ fs ⊆ fs'.
Proof.
  intros Hd Hs Hp Hfile.
  unfold folder_list, folders_in in Hp. cbn [function_graphs directory_graphs
    callee_caller_graph caller_callee_graph callee_caller_dot caller_callee_dot] in Hp.
  assert (Hs3 : endswith "/" (join d "callee_caller_graph") = false)
    by by apply join_no_trailing_slash.
  assert (Hs4 : endswith "/" (join d "caller_callee_graph") = false)
    by by apply join_no_trailing_slash.
  unfold create_folder_structure.
  assert (Hsub : fs ⊆ fs) by done.
  revert Hsub Hfile Hd. generalize fs at 2 3 4 5 as cur. intros cur Hsub Hfile Hd.
  layout_step (join d "function_graphs") d "function_graphs".
  layout_step (join d "directory_graphs") d "directory_graphs".
  layout_step (join d "callee_caller_graph") d "callee_caller_graph".
  layout_step (join d "caller_callee_graph") d "caller_callee_graph".
  layout_step (join (join d "callee_caller_graph") "dot_files")
              (join d "callee_caller_graph") "dot_files".
  layout_step (join (join d "caller_callee_graph") "dot_files")
              (join d "caller_callee_graph") "dot_files".
  exfalso. set_solver.
Qed.


Lemma create_folder_structure_success_free fs d fs' fo :
  FS.isdir fs d = true → endswith "/" d = false →
  create_folder_structure d fs = (fs', inr fo) →
  ∀ p, p ∈ folder_list (folders_in d) → FS.isfile fs p = false.
Proof.
  intros Hd Hs Hrun p Hp. destruct (FS.isfile fs p) eqn:E; [|done].
  destruct (create_folder_structure_taken fs d p) as (fs'' & Hrun' & _); try done.
  congruence.
Qed.

Lemma isdir_weaken (fs fs' : FS.store) p :
  fs ⊆ fs' → FS.isdir fs p = true → FS.isdir fs' p = true.
Proof.
  unfold FS.isdir. intros Hsub Hp.
  destruct (fs !! p) as [[|]|] eqn:E; try done.
  by rewrite (lookup_weaken _ _ _ _ E Hsub).
Qed.

Lemma create_folder_structure_again fs d :
  FS.isdir fs d = true → endswith "/" d = false →
  (∀ p, p ∈ folder_list (folders_in d) → FS.isfile fs p = false) →
  create_folder_structure d (add_dirs (folder_list (folders_in d)) fs)
  = (add_dirs (folder_list (folders_in d)) fs, inr (folders_in d)).
Proof.
  intros Hd Hs Hfree. rewrite create_folder_structure_free; try done.
  - by rewrite add_dirs_idemp.
  - eapply isdir_weaken; [|done]. by apply add_dirs_subseteq.
  - intros p Hp. unfold FS.isfile. by rewrite add_dirs_lookup_in.
Qed.

Ltac solve_isfile_false := repeat apply isfile_insert_dir; assumption.

Ltac solve_isfile_true :=
  first [ assumption
        | apply isfile_insert_dir_other; [solve_isfile_false | solve_isfile_true] ].

(** The run up to the first folder path that a regular file has taken. *)
Ltac first_taken made p' rest :=
  exists made, p', rest;
  split; [reflexivity|];
  split; [intros q Hq;
          repeat (apply elem_of_cons in Hq as [->|Hq]; [assumption|]);
          apply elem_of_nil in Hq; destruct Hq|];
  split; [assumption|];
  unfold create_folder_structure, add_dirs; cbn [foldl];
  repeat (erewrite bind_ok;
    [| apply makedirs_child_free;
       [solve_isdir | done | done | done | solve_isfile_false] ]);
  apply bind_err, makedirs_child_file;
    [solve_isdir | done | done | done | solve_isfile_true].

Lemma create_folder_structure_first_taken fs d p :
  FS.isdir fs d = true → endswith "/" d = false →
  p ∈ folder_list (folders_in d) → FS.isfile fs p = true →
  ∃ made p' rest,
    folder_list (folders_in d) = made ++ p' :: rest
    ∧ (∀ q, q ∈ made → FS.isfile fs q = false)
    ∧ FS.isfile fs p' = true
    ∧ create_folder_structure d fs = (add_dirs made fs, inl FileExistsError).
Proof.
  intros Hd Hs Hp Hfile.
  unfold folder_list, folders_in in *. cbn [function_graphs directory_graphs
    callee_caller_graph caller_callee_graph callee_caller_dot caller_callee_dot] in *.
  assert (Hs3 : endswith "/" (join d "callee_caller_graph") = false)
    by by apply join_no_trailing_slash.
  assert (Hs4 : endswith "/" (join d "caller_callee_graph") = false)
    by by apply join_no_trailing_slash.
  set (p1 := join d "function_graphs") in *.
  set (p2 := join d "directory_graphs") in *.
  set (p3 := join d "callee_caller_graph") in *.
  set (p4 := join d "caller_callee_graph") in *.
  set (p5 := join p3 "dot_files") in *.
  set (p6 := join p4 "dot_files") in *.
  destruct (FS.isfile fs p1) eqn:H1.
  { first_taken (@nil string) p1 [p2; p3; p4; p5; p6]. }
  destruct (FS.isfile fs p2) eqn:H2.
  { first_taken [p1] p2 [p3; p4; p5; p6]. }
  destruct (FS.isfile fs p3) eqn:H3.
  { first_taken [p1; p2] p3 [p4; p5; p6]. }
  destruct (FS.isfile fs p4) eqn:H4.
  { first_taken [p1; p2; p3] p4 [p5; p6]. }
  destruct (FS.isfile fs p5) eqn:H5.
  { first_taken [p1; p2; p3; p4] p5 [p6]. }
  destruct (FS.isfile fs p6) eqn:H6.
  { first_taken [p1; p2; p3; p4; p5] p6 (@nil string). }
  exfalso.
  repeat (apply elem_of_cons in Hp as [->|Hp]; [congruence|]).
  by apply elem_of_nil in Hp.
Qed.

End LayoutFacts.

(** X11: called on an existing directory [d], given without a trailing
    slash, below which none of the six folder paths is taken by a
    regular file, [create_folder_structure] returns the six paths, all
    of which are directories afterwards; no other path of the store
    changes, and nothing that was there is lost. *)
Theorem folder_layout_created (fs : FS.store) (d : string) :
  FS.isdir fs d = true →
  endswith "/" d = false →
  (∀ p, p ∈ OrganizerSpec.folder_list (OrganizerSpec.folders_in d) →
        FS.isfile fs p = false) →
  ∃ fs',
    Organizer.create_folder_structure d fs = (fs', inr (OrganizerSpec.folders_in d))
    ∧ (∀ p, p ∈ OrganizerSpec.folder_list (OrganizerSpec.folders_in d) →
            FS.isdir fs' p = true)
    ∧ (∀ p, p ∉ OrganizerSpec.folder_list (OrganizerSpec.folders_in d) →
            fs' !! p = fs !! p)
    ∧ fs ⊆ fs'.
Proof.
  intros Hd Hs Hfree. eexists. split; [by apply create_folder_structure_free|].
  split; [|split].
  - intros p Hp. unfold FS.isdir. by rewrite add_dirs_lookup_in.
  - intros p Hp. by apply add_dirs_lookup_out.
  - by apply add_dirs_subseteq.
Qed.

Lemma folder_layout_created_witness :
  FS.isdir store_unsorted "g" = true
  ∧ ∃ fs',
      Organizer.create_folder_structure "g" store_unsorted
      = (fs', inr (OrganizerSpec.folders_in "g"))
      ∧ FS.isdir fs' "g/callee_caller_graph/dot_files" = true
      ∧ fs' !! "g/notes.txt" = Some (FS.File "notes").
Proof.
  split; [vm_compute; reflexivity|].
  destruct (folder_layout_created store_unsorted "g") as (fs' & Hrun & Hdir & Hout & _).
  - vm_compute; reflexivity.
  - vm_compute; reflexivity.
  - intros p Hp.
    repeat (apply elem_of_cons in Hp as [->|Hp]; [vm_compute; reflexivity|]).
    by apply elem_of_nil in Hp.
  - exists fs'. split; [exact Hrun|]. split.
    + apply Hdir. do 4 apply list_elem_of_further. apply list_elem_of_here.
    + rewrite Hout; [vm_compute; reflexivity|].
      intros Hp.
      repeat (apply elem_of_cons in Hp as [Hp|Hp]; [by vm_compute in Hp|]).
      by apply elem_of_nil in Hp.
Defined.

(** X12: on an existing directory given without a trailing slash, a
    call of [create_folder_structure] that succeeds leaves a store on
    which a second call succeeds with the same result and changes
    nothing. *)
Theorem folder_layout_idempotent
    (fs fs' : FS.store) (d : string) (fo : Organizer.folders) :
  FS.isdir fs d = true →
  endswith "/" d = false →
  Organizer.create_folder_structure d fs = (fs', inr fo) →
  Organizer.create_folder_structure d fs' = (fs', inr fo).
Proof.
  intros Hd Hs Hrun.
  assert (Hfree := create_folder_structure_success_free fs d fs' fo Hd Hs Hrun).
  rewrite create_folder_structure_free in Hrun by done.
  injection Hrun as <- <-. by apply create_folder_structure_again.
Qed.

Lemma folder_layout_idempotent_witness :
  let fs' := OrganizerSpec.add_dirs
               (OrganizerSpec.folder_list (OrganizerSpec.folders_in "g"))
               store_unsorted in
  Organizer.create_folder_structure "g" store_unsorted
  = (fs', inr (OrganizerSpec.folders_in "g"))
  ∧ Organizer.create_folder_structure "g" fs'
    = (fs', inr (OrganizerSpec.folders_in "g")).
Proof.
  intros fs'.
  assert (Hrun : Organizer.create_folder_structure "g" store_unsorted
                 = (fs', inr (OrganizerSpec.folders_in "g")))
    by (refine (bool_decide_eq_true_1 _ _); vm_compute; reflexivity).
  split; [exact Hrun|].
  apply (folder_layout_idempotent store_unsorted fs' "g").
  - vm_compute; reflexivity.
  - vm_compute; reflexivity.
  - exact Hrun.
Defined.

(** X13: when a regular file has the path of one of the six folders
    below the existing directory [d], [create_folder_structure] raises
    [FileExistsError] at the first such folder in the order of its six
    calls.  The folders of the calls before that one are directories
    afterwards; no other path has changed, so the folders of the later
    calls are not made, and nothing that was in the store is lost. *)
Theorem folder_layout_blocked_by_file (fs : FS.store) (d p : string) :
  FS.isdir fs d = true →
  endswith "/" d = false →
  p ∈ OrganizerSpec.folder_list (OrganizerSpec.folders_in d) →
  FS.isfile fs p = true →
  ∃ (fs' : FS.store) (made : list string) (taken : string) (rest : list string),
    OrganizerSpec.folder_list (OrganizerSpec.folders_in d) = made ++ taken :: rest
    ∧ (∀ q, q ∈ made → FS.isfile fs q = false)
    ∧ FS.isfile fs taken = true
    ∧ Organizer.create_folder_structure d fs = (fs', inl Shutil.FileExistsError)
    ∧ (∀ q, q ∈ made → FS.isdir fs' q = true)
    ∧ (∀ q, q ∉ made → fs' !! q = fs !! q)
    ∧ fs ⊆ fs'.
Proof.
  intros Hd Hs Hp Hfile.
  destruct (create_folder_structure_first_taken fs d p Hd Hs Hp Hfile)
    as (made & taken & rest & Hlist & Hfree & Htaken & Hrun).
  exists (OrganizerSpec.add_dirs made fs), made, taken, rest.
  split; [done|]. split; [done|]. split; [done|]. split; [done|].
  split; [|split].
  - intros q Hq. unfold FS.isdir. by rewrite add_dirs_lookup_in.
  - intros q Hq. by apply add_dirs_lookup_out.
  - by apply add_dirs_subseteq.
Qed.

Lemma folder_layout_blocked_by_file_witness :
  FS.isfile store_blocked "g/callee_caller_graph" = true
  ∧ ∃ fs',
      Organizer.create_folder_structure "g" store_blocked
      = (fs', inl Shutil.FileExistsError)
      ∧ FS.isdir fs' "g/function_graphs" = true
      ∧ FS.isdir fs' "g/directory_graphs" = true
      ∧ fs' !! "g/callee_caller_graph" = Some (FS.File "")
      ∧ fs' !! "g/caller_callee_graph" = None.
Proof.
  assert (H1 : FS.isfile store_blocked "g/function_graphs" = false)
    by (vm_compute; reflexivity).
  assert (H2 : FS.isfile store_blocked "g/directory_graphs" = false)
    by (vm_compute; reflexivity).
  assert (H3 : FS.isfile store_blocked "g/callee_caller_graph" = true)
    by (vm_compute; reflexivity).
  split; [exact H3|].
  destruct (folder_layout_blocked_by_file store_blocked "g" "g/callee_caller_graph")
    as (fs' & made & taken & rest & Hlist & Hfree & Htaken & Hrun & Hdirs & Hout & _).
  - vm_compute; reflexivity.
  - vm_compute; reflexivity.
  - do 2 apply list_elem_of_further. apply list_elem_of_here.
  - exact H3.
  - assert (Hl : OrganizerSpec.folder_list (OrganizerSpec.folders_in "g")
                 = ["g/function_graphs"; "g/directory_graphs";
                    "g/callee_caller_graph"; "g/caller_callee_graph";
                    "g/callee_caller_graph/dot_files";
                    "g/caller_callee_graph/dot_files"])
      by (vm_compute; reflexivity).
    rewrite Hl in Hlist. clear Hl.
    assert (Hmade : made = ["g/function_graphs"; "g/directory_graphs"]).
    { clear Hrun Hdirs Hout.
      destruct made as [|m1 made].
      { injection Hlist as Heq _. rewrite <- Heq in Htaken.
        rewrite H1 in Htaken. discriminate Htaken. }
      injection Hlist as <- Hlist.
      destruct made as [|m2 made].
      { injection Hlist as Heq _. rewrite <- Heq in Htaken.
        rewrite H2 in Htaken. discriminate Htaken. }
      injection Hlist as <- Hlist.
      destruct made as [|m3 made]; [reflexivity|].
      injection Hlist as <- _.
      rewrite (Hfree "g/callee_caller_graph") in H3; [discriminate H3|].
      do 2 apply list_elem_of_further. apply list_elem_of_here. }
    subst made. clear Hlist Hfree Htaken.
    exists fs'. split; [exact Hrun|]. clear Hrun.
    split; [apply Hdirs, list_elem_of_here|].
    split; [apply Hdirs, list_elem_of_further, list_elem_of_here|].
    split.
    + rewrite Hout; [vm_compute; reflexivity|].
      intros Hin.
      repeat (apply elem_of_cons in Hin as [Hin|Hin]; [discriminate Hin|]).
      apply elem_of_nil in Hin. exact Hin.
    + rewrite Hout; [vm_compute; reflexivity|].
      intros Hin.
      repeat (apply elem_of_cons in Hin as [Hin|Hin]; [discriminate Hin|]).
      apply elem_of_nil in Hin. exact Hin.
Defined.


(** ** Copying one file *)

Section CopyFacts.

Import Shutil Organizer OrganizerSpec.

Lemma rpartition_tail c s h t :
  rpartition c s = Some (h, t) → str_in (String c "") t = false.
Proof.
  revert h. induction s as [|a s IH]; intros h; [done|].
  simpl. destruct (rpartition c s) as [[h' t']|] eqn:E.
  - intros [= _ <-]. by apply (IH h').
  - destruct (Ascii.eqb a c); [|done]. intros [= _ <-].
    clear IH. induction s as [|b s IH]; [done|].
    simpl in E. destruct (rpartition c s) as [[h' t']|]; [done|].
    destruct (Ascii.eqb b c) eqn:Eb; [done|].
    cbn [str_in]. rewrite startswith_cons, startswith_nil.
    rewrite Ascii.eqb_sym in Eb. rewrite Eb. simpl. by apply IH.
Qed.

Lemma rpartition_absent c s :
  rpartition c s = None → str_in (String c "") s = false.
Proof.
  induction s as [|a s IH]; [done|].
  intros H. simpl in H. destruct (rpartition c s) as [[h' t']|]; [done|].
  destruct (Ascii.eqb a c) eqn:Ea; [done|]. clear H.
  cbn [str_in]. rewrite startswith_cons, startswith_nil.
  rewrite Ascii.eqb_sym in Ea. rewrite Ea. simpl. by apply IH.
Qed.

Lemma basename_no_slash p : str_in "/" (basename p) = false.
Proof.
  unfold basename. destruct (rpartition "/" p) as [[h t]|] eqn:E.
  - by apply (rpartition_tail _ _ _ _ E).
  - by apply rpartition_absent.
Qed.

Lemma endswith_nonempty p s : p ≠ "" → endswith p s = true → s ≠ "".
Proof.
  intros Hp [t ->]%endswith_inv Ht.
  destruct t; [by rewrite app_nil_l' in Ht|by rewrite app_cons in Ht].
Qed.

Lemma copyfile_ok fs src dst text :
  fs !! src = Some (FS.File text) → dst ≠ src →
  FS.isdir fs dst = false → parent_error fs dst = None →
  copyfile src dst fs = (<[dst := FS.File text]> fs, inr dst).
Proof.
  intros Hsrc Hne Hdst Hpar. unfold copyfile. rewrite Hsrc.
  assert (String.eqb src dst = false) as -> by (apply String.eqb_neq; congruence).
  by rewrite Hdst, Hpar.
Qed.

Lemma copy2_ok fs src dst text :
  fs !! src = Some (FS.File text) → dst ≠ src →
  FS.isdir fs dst = false → parent_error fs dst = None →
  copy2 src dst fs = (<[dst := FS.File text]> fs, inr dst).
Proof.
  intros Hsrc Hne Hdst Hpar. unfold copy2. rewrite Hdst.
  by apply copyfile_ok.
Qed.

(** Copying into a folder that can take the file. *)
Lemma copy2_into fs src name folder text :
  fs !! src = Some (FS.File text) →
  name ≠ "" → str_in "/" name = false →
  can_take fs src name folder →
  copy2 src (join folder name) fs
  = (<[join folder name := FS.File text]> fs, inr (join folder name)).
Proof.
  intros Hsrc Hne Hn (Hdir & Hs & Hfree & Hdiff).
  apply copy2_ok; try done. by apply parent_error_child.
Qed.

Lemma isdir_insert_file fs p text q :
  FS.isdir fs p = false →
  FS.isdir (<[p := FS.File text]> fs) q = FS.isdir fs q.
Proof.
  unfold FS.isdir. intros Hp. destruct (decide (p = q)) as [->|Hpq].
  - rewrite lookup_insert_eq. by destruct (fs !! q) as [[|]|].
  - by rewrite lookup_insert_ne.
Qed.

Lemma can_take_insert_file fs p text src name folder :
  FS.isdir fs p = false →
  can_take fs src name folder →
  can_take (<[p := FS.File text]> fs) src name folder.
Proof.
  intros Hp (Hdir & Hs & Hfree & Hdiff). unfold can_take.
  by rewrite !isdir_insert_file.
Qed.

Lemma add_files_snoc ps p text fs :
  add_files (ps ++ [p]) text fs = <[p := FS.File text]> (add_files ps text fs).
Proof. unfold add_files. by rewrite foldl_snoc. Qed.

Lemma add_files_lookup_in ps p text fs :
  p ∈ ps → add_files ps text fs !! p = Some (FS.File text).
Proof.
  induction ps as [|q ps IH] using rev_ind; [by intros ?%elem_of_nil|].
  rewrite add_files_snoc. intros [Hin| ->%list_elem_of_singleton]%elem_of_app.
  - destruct (decide (q = p)) as [->|Hne].
    + by rewrite lookup_insert_eq.
    + rewrite lookup_insert_ne by done. by apply IH.
  - by rewrite lookup_insert_eq.
Qed.

Lemma add_files_lookup_out ps p text fs :
  p ∉ ps → add_files ps text fs !! p = fs !! p.
Proof.
  induction ps as [|q ps IH] using rev_ind; [done|].
  rewrite add_files_snoc. intros Hout.
  rewrite lookup_insert_ne.
  - apply IH. intros Hin. apply Hout, elem_of_app. by left.
  - intros ->. apply Hout, elem_of_app. right. by apply list_elem_of_singleton.
Qed.

(** The copies of one dot file. *)
Lemma copy_to_folders_ok fs src name fo text :
  fs !! src = Some (FS.File text) →
  name ≠ "" → str_in "/" name = false →
  (∀ folder, folder ∈ destinations fo name → can_take fs src name folder) →
  copy_to_folders src name fo fs
  = (add_files (destination_paths fo name) text fs,
     inr (default "" (head (destination_paths fo name)))).
Proof.
  intros Hsrc Hne Hn Htake.
  unfold copy_to_folders, destination_paths, destinations in *.
  destruct (startswith "dir_" name).
  - erewrite bind_ok; [|apply copy2_into; try done; apply Htake; set_solver].
    done.
  - assert (H1 : can_take fs src name (function_graphs fo)) by (apply Htake; set_solver).
    erewrite bind_ok; [|by apply copy2_into].
    destruct (endswith "_icgraph.dot" name); [|destruct (endswith "_cgraph.dot" name)].
    + assert (H2 : can_take fs src name (callee_caller_dot fo))
        by (apply Htake; set_solver).
      erewrite bind_ok; [done|]. erewrite bind_ok; [done|].
      apply copy2_into; try done.
      * rewrite lookup_insert_ne; [done|]. by destruct H1 as (_ & _ & _ & ?).
      * apply can_take_insert_file; [|done]. by destruct H1 as (_ & _ & ? & _).
    + assert (H2 : can_take fs src name (caller_callee_dot fo))
        by (apply Htake; set_solver).
      erewrite bind_ok; [done|]. erewrite bind_ok; [done|].
      apply copy2_into; try done.
      * rewrite lookup_insert_ne; [done|]. by destruct H1 as (_ & _ & _ & ?).
      * apply can_take_insert_file; [|done]. by destruct H1 as (_ & _ & ? & _).
    + done.
Qed.


Lemma process_single_file_found fs d f fo :
  FS.isfile fs f = true →
  process_single_file d f fo fs
  = if endswith ".dot" (basename f)
    then bind (copy_to_folders f (basename f) fo) (λ _, ret true) fs
    else (fs, inr false).
Proof.
  intros Hf. unfold process_single_file, bind at 1 2, gets. rewrite Hf. simpl.
  unfold bind at 1, ret at 1.
  by destruct (endswith ".dot" (basename f)).
Qed.

Lemma process_single_file_missing fs d f fo :
  FS.isfile fs f = false → FS.isfile fs (join d f) = false →
  process_single_file d f fo fs = (fs, inr false).
Proof.
  intros Hf Hp. unfold process_single_file, bind at 1 2, gets. rewrite Hf. simpl.
  unfold bind at 1. by rewrite Hp.
Qed.

Lemma process_single_file_in_folder fs d f fo :
  FS.isfile fs f = false → FS.isfile fs (join d f) = true →
  process_single_file d f fo fs = process_single_file d (join d f) fo fs.
Proof.
  intros Hf Hp. rewrite (process_single_file_found fs d (join d f)) by done.
  unfold process_single_file, bind at 1 2, gets. rewrite Hf. simpl.
  unfold bind at 1. rewrite Hp. unfold ret at 1, bind at 1.
  by destruct (endswith ".dot" (basename (join d f))).
Qed.

Lemma bind_ret_true_not_false {A} (m : io A) fs fs' :
  bind m (λ _, ret true) fs ≠ (fs', inr false).
Proof. unfold bind, ret. by destruct (m fs) as [? [?|?]]. Qed.

End CopyFacts.

(** X14: [process_single_file], given the path of a regular file whose
    name ends in [.dot] and folders that can take it, returns [True];
    afterwards each destination (the directory-graph folder for a name
    starting with [dir_]; else the function-graph folder, and with it
    the callee-caller folder for a name ending in [_icgraph.dot] or the
    caller-callee folder for one ending in [_cgraph.dot]) holds a file
    of that name with the same text, the source is still in place, and
    no other path has changed. *)
Theorem single_file_copied
    (fs : FS.store) (d f : string) (fo : Organizer.folders) (text : string) :
  fs !! f = Some (FS.File text) →
  endswith ".dot" (basename f) = true →
  (∀ folder, folder ∈ OrganizerSpec.destinations fo (basename f) →
             OrganizerSpec.can_take fs f (basename f) folder) →
  ∃ fs',
    Organizer.process_single_file d f fo fs = (fs', inr true)
    ∧ fs' !! f = Some (FS.File text)
    ∧ (∀ p, p ∈ OrganizerSpec.destination_paths fo (basename f) →
            fs' !! p = Some (FS.File text))
    ∧ (∀ q, q ∉ OrganizerSpec.destination_paths fo (basename f) →
            fs' !! q = fs !! q).
Proof.
  intros Hf Hdot Htake.
  assert (Hne : basename f ≠ "") by (by apply (endswith_nonempty ".dot")).
  assert (Hout : f ∉ OrganizerSpec.destination_paths fo (basename f)).
  { unfold OrganizerSpec.destination_paths.
    intros (folder & Heq & Hin)%list_elem_of_fmap.
    destruct (Htake folder Hin) as (_ & _ & _ & Hdiff). congruence. }
  exists (OrganizerSpec.add_files
            (OrganizerSpec.destination_paths fo (basename f)) text fs).
  split; [|split; [|split]].
  - rewrite process_single_file_found by (unfold FS.isfile; by rewrite Hf).
    rewrite Hdot. erewrite bind_ok; [done|].
    apply copy_to_folders_ok; try done. apply basename_no_slash.
  - by rewrite add_files_lookup_out.
  - intros p Hp. by apply add_files_lookup_in.
  - intros q Hq. by apply add_files_lookup_out.
Qed.

Lemma single_file_copied_witness :
  ∃ fs',
    Organizer.process_single_file "g" "g/b_icgraph.dot"
      (OrganizerSpec.folders_in "g") store_layout = (fs', inr true)
    ∧ fs' !! "g/b_icgraph.dot" = Some (FS.File "digraph b {}")
    ∧ fs' !! "g/function_graphs/b_icgraph.dot" = Some (FS.File "digraph b {}")
    ∧ fs' !! "g/callee_caller_graph/dot_files/b_icgraph.dot"
      = Some (FS.File "digraph b {}")
    ∧ fs' !! "g/caller_callee_graph/dot_files/b_icgraph.dot" = None.
Proof.
  destruct (single_file_copied store_layout "g" "g/b_icgraph.dot"
              (OrganizerSpec.folders_in "g") "digraph b {}")
    as (fs' & Hrun & Hsrc & Hin & Hout).
  - vm_compute; reflexivity.
  - vm_compute; reflexivity.
  - intros folder Hfo.
    repeat (apply elem_of_cons in Hfo as [->|Hfo];
            [repeat split; try (vm_compute; reflexivity); by vm_compute|]).
    by apply elem_of_nil in Hfo.
  - exists fs'. split; [exact Hrun|]. split; [exact Hsrc|].
    split; [|split].
    + apply Hin. apply list_elem_of_here.
    + apply Hin. apply list_elem_of_further, list_elem_of_here.
    + rewrite Hout; [vm_compute; reflexivity|].
      intros Hp.
      repeat (apply elem_of_cons in Hp as [Hp|Hp]; [by vm_compute in Hp|]).
      by apply elem_of_nil in Hp.
Defined.

(** X15: [process_single_file], given a dot file that already lies in
    the folder of its first copy, does not return: [copy2] raises
    [SameFileError], and the store is as before. *)
Theorem single_file_in_place_raises
    (fs : FS.store) (d name : string) (fo : Organizer.folders) :
  str_in "/" name = false →
  endswith ".dot" name = true →
  FS.isfile fs (join (OrganizerSpec.primary_folder fo name) name) = true →
  Organizer.process_single_file d
    (join (OrganizerSpec.primary_folder fo name) name) fo fs
  = (fs, inl Shutil.SameFileError).
Proof.
  intros Hn Hdot Hf. rewrite process_single_file_found by done.
  rewrite basename_join by done. rewrite Hdot.
  apply bind_err. unfold Organizer.copy_to_folders, OrganizerSpec.primary_folder in *.
  assert (Hcopy : ∀ p, FS.isfile fs p = true →
            Shutil.copy2 p p fs = (fs, inl Shutil.SameFileError)).
  { intros p Hp. unfold Shutil.copy2, Shutil.copyfile, FS.isdir, FS.isfile in *.
    destruct (fs !! p) as [[|]|] eqn:E; try done.
    rewrite E. by rewrite String.eqb_refl. }
  destruct (startswith "dir_" name); apply bind_err; by apply Hcopy.
Qed.

Lemma single_file_in_place_raises_witness :
  FS.isfile store_layout "g/function_graphs/c_cgraph.dot" = true
  ∧ Organizer.process_single_file "g" "g/function_graphs/c_cgraph.dot"
      (OrganizerSpec.folders_in "g") store_layout
    = (store_layout, inl Shutil.SameFileError).
Proof.
  split; [vm_compute; reflexivity|].
  apply (single_file_in_place_raises store_layout "g" "c_cgraph.dot"
           (OrganizerSpec.folders_in "g")).
  - vm_compute; reflexivity.
  - vm_compute; reflexivity.
  - vm_compute; reflexivity.
Defined.

(** X16: a [specific_file] that is no regular file by itself but names
    one inside [dot_folder] is processed exactly as the joined path. *)
Theorem single_file_found_in_folder
    (fs : FS.store) (d f : string) (fo : Organizer.folders) :
  FS.isfile fs f = false →
  FS.isfile fs (join d f) = true →
  Organizer.process_single_file d f fo fs
  = Organizer.process_single_file d (join d f) fo fs.
Proof. apply process_single_file_in_folder. Qed.

Lemma single_file_found_in_folder_witness :
  Organizer.process_single_file "g" "b_icgraph.dot"
    (OrganizerSpec.folders_in "g") store_layout
  = Organizer.process_single_file "g" "g/b_icgraph.dot"
      (OrganizerSpec.folders_in "g") store_layout.
Proof.
  apply (single_file_found_in_folder store_layout "g" "b_icgraph.dot").
  - vm_compute; reflexivity.
  - vm_compute; reflexivity.
Defined.

(** X17: [process_single_file] returns [False] exactly when neither
    [specific_file] nor its join with [dot_folder] is a regular file, or
    when the name of the file found does not end in [.dot]; the store
    is then unchanged. *)
Theorem single_file_refused
    (fs fs' : FS.store) (d f : string) (fo : Organizer.folders) :
  Organizer.process_single_file d f fo fs = (fs', inr false)
  ↔ fs' = fs
    ∧ ((FS.isfile fs f = false ∧ FS.isfile fs (join d f) = false)
       ∨ (FS.isfile fs f = true ∧ endswith ".dot" (basename f) = false)
       ∨ (FS.isfile fs f = false ∧ FS.isfile fs (join d f) = true
          ∧ endswith ".dot" (basename (join d f)) = false)).
Proof.
  split.
  - destruct (FS.isfile fs f) eqn:Hf.
    + rewrite process_single_file_found by done.
      destruct (endswith ".dot" (basename f)) eqn:Hdot.
      * by intros ?%bind_ret_true_not_false.
      * intros [= <-]. split; [done|]. right. by left.
    + destruct (FS.isfile fs (join d f)) eqn:Hp.
      * rewrite process_single_file_in_folder, process_single_file_found by done.
        destruct (endswith ".dot" (basename (join d f))) eqn:Hdot.
        -- by intros ?%bind_ret_true_not_false.
        -- intros [= <-]. split; [done|]. right. by right.
      * rewrite process_single_file_missing by done.
        intros [= <-]. split; [done|]. by left.
  - intros [-> [[Hf Hp]|[[Hf Hdot]|(Hf & Hp & Hdot)]]].
    + by apply process_single_file_missing.
    + rewrite process_single_file_found by done. by rewrite Hdot.
    + rewrite process_single_file_in_folder, process_single_file_found by done.
      by rewrite Hdot.
Qed.

(** ** Moving all files *)

Section MoveFacts.

Import Shutil Organizer OrganizerSpec.

Lemma NoDup_omap_inj {A B} (f : A → option B) (l : list A) :
  (∀ x y b, f x = Some b → f y = Some b → x = y) → NoDup l → NoDup (omap f l).
Proof.
  intros Hinj. induction 1 as [|x l Hx Hl IH]; simpl; [constructor|].
  destruct (f x) as [b|] eqn:E; [|done].
  constructor; [|done]. intros (y & Hy & Hfy)%list_elem_of_omap.
  by rewrite (Hinj x y b E Hfy) in Hx.
Qed.

Lemma listdir_NoDup fs d : NoDup (FS.listdir fs d).
Proof.
  unfold FS.listdir. apply NoDup_omap_inj.
  - by intros x y b (-> & _)%entry_name_spec (-> & _)%entry_name_spec.
  - apply (NoDup_fst_map_to_list fs).
Qed.

Lemma isdir_delete_file fs p q :
  FS.isdir fs p = false → FS.isdir (delete p fs) q = FS.isdir fs q.
Proof.
  unfold FS.isdir. intros Hp. destruct (decide (p = q)) as [->|Hpq].
  - rewrite lookup_delete_eq. by destruct (fs !! q) as [[|]|].
  - by rewrite lookup_delete_ne.
Qed.

Lemma isdir_add_files ps text fs q :
  (∀ p, p ∈ ps → FS.isdir fs p = false) →
  FS.isdir (add_files ps text fs) q = FS.isdir fs q.
Proof.
  revert q. induction ps as [|p ps IH] using rev_ind; intros q Hps; [done|].
  assert (Hps' : ∀ p', p' ∈ ps → FS.isdir fs p' = false).
  { intros p' Hp'. apply Hps, elem_of_app. by left. }
  rewrite add_files_snoc, isdir_insert_file; [by apply IH|].
  rewrite IH by done. apply Hps, elem_of_app. right. by apply list_elem_of_singleton.
Qed.

Lemma isfile_not_isdir fs p : FS.isfile fs p = true → FS.isdir fs p = false.
Proof. unfold FS.isfile, FS.isdir. by destruct (fs !! p) as [[|]|]. Qed.

Lemma isfile_lookup fs p :
  FS.isfile fs p = true ↔ ∃ text, fs !! p = Some (FS.File text).
Proof.
  unfold FS.isfile. split.
  - destruct (fs !! p) as [[|text]|]; try done. by exists text.
  - by intros [text ->].
Qed.

(** Moving a file onto the copy just made of it. *)
Lemma move_onto_copy fs src dst text :
  fs !! src = Some (FS.File text) → fs !! dst = Some (FS.File text) →
  src ≠ dst → parent_error fs dst = None →
  move src dst fs = (delete src fs, inr dst).
Proof.
  intros Hsrc Hdst Hne Hpar. unfold move. rewrite Hsrc.
  assert (FS.isdir fs dst = false) as ->
    by (apply isfile_not_isdir, isfile_lookup; eauto).
  simpl.
  assert (String.eqb src dst = false) as -> by (by apply String.eqb_neq).
  rewrite Hpar. f_equal. apply insert_id. by rewrite lookup_delete_ne.
Qed.

Lemma process_entry_skip fs d fo name :
  endswith ".dot" name = false → process_entry d fo name fs = (fs, inr tt).
Proof. intros H. unfold process_entry. by rewrite H. Qed.

Lemma destination_paths_basename fo name p :
  str_in "/" name = false → p ∈ destination_paths fo name → basename p = name.
Proof.
  intros Hn (folder & -> & _)%list_elem_of_fmap. by apply basename_join.
Qed.

Lemma destination_paths_head fo name :
  head (destination_paths fo name) = Some (join (primary_folder fo name) name).
Proof.
  unfold destination_paths, destinations, primary_folder.
  by destruct (startswith "dir_" name).
Qed.

Lemma primary_folder_destination fo name :
  primary_folder fo name ∈ destinations fo name.
Proof.
  unfold destinations, primary_folder.
  destruct (startswith "dir_" name); apply list_elem_of_here.
Qed.

(** One turn of the loop on a dot file. *)
Lemma process_entry_ok fs d fo name text :
  name ≠ "" → str_in "/" name = false → endswith ".dot" name = true →
  fs !! join d name = Some (FS.File text) →
  (∀ folder, folder ∈ destinations fo name →
             can_take fs (join d name) name folder) →
  process_entry d fo name fs
  = (delete (join d name) (add_files (destination_paths fo name) text fs), inr tt).
Proof.
  intros Hne Hn Hdot Hsrc Htake. unfold process_entry. rewrite Hdot.
  erewrite bind_ok; [|by apply copy_to_folders_ok].
  rewrite destination_paths_head. simpl.
  destruct (Htake _ (primary_folder_destination fo name))
    as (Hdir & Hs & Hfree & Hdiff).
  assert (Hnodir : ∀ p, p ∈ destination_paths fo name → FS.isdir fs p = false).
  { intros p (folder & -> & Hin)%list_elem_of_fmap.
    by destruct (Htake folder Hin) as (_ & _ & ? & _). }
  assert (Hout : join d name ∉ destination_paths fo name).
  { intros (folder & Heq & Hin)%list_elem_of_fmap.
    destruct (Htake folder Hin) as (_ & _ & _ & ?). congruence. }
  erewrite bind_ok; [done|].
  apply (move_onto_copy _ _ _ text).
  - by rewrite add_files_lookup_out.
  - apply add_files_lookup_in.
    apply list_elem_of_fmap. exists (primary_folder fo name). split; [done|].
    apply primary_folder_destination.
  - congruence.
  - apply parent_error_child; try done. by rewrite isdir_add_files.
Qed.

Lemma elem_of_touched d fo names q :
  q ∈ touched d fo names ↔
  ∃ name, name ∈ names ∧ endswith ".dot" name = true
          ∧ (q = join d name ∨ q ∈ destination_paths fo name).
Proof.
  unfold touched. rewrite list_elem_of_In, in_flat_map. split.
  - intros (name & Hin%list_elem_of_In & Hq%list_elem_of_In).
    destruct (endswith ".dot" name) eqn:E; [|by apply elem_of_nil in Hq].
    exists name. split; [done|]. split; [done|].
    by apply elem_of_cons in Hq.
  - intros (name & Hin & Hdot & Hq). exists name.
    split; [by apply list_elem_of_In|]. rewrite Hdot.
    apply list_elem_of_In, elem_of_cons. done.
Qed.

Lemma touched_basename d fo name q :
  str_in "/" name = false →
  q = join d name ∨ q ∈ destination_paths fo name → basename q = name.
Proof.
  intros Hn [->|Hq]; [by apply basename_join|].
  by apply (destination_paths_basename fo).
Qed.

(** The loop of [process_all_files] over any list of distinct names. *)
Lemma for_each_process_entry d fo names :
  ∀ fs,
    NoDup names →
    (∀ name, name ∈ names → name ≠ "" ∧ str_in "/" name = false) →
    (∀ name, name ∈ names → endswith ".dot" name = true →
       FS.isfile fs (join d name) = true
       ∧ ∀ folder, folder ∈ destinations fo name →
                   can_take fs (join d name) name folder) →
    ∃ fs',
      for_each names (process_entry d fo) fs = (fs', inr tt)
      ∧ (∀ name, name ∈ names → endswith ".dot" name = true →
           fs' !! join d name = None
           ∧ ∀ p, p ∈ destination_paths fo name → fs' !! p = fs !! join d name)
      ∧ (∀ q, q ∉ touched d fo names → fs' !! q = fs !! q)
      ∧ (∀ q, FS.isdir fs' q = FS.isdir fs q).
Proof.
  induction names as [|n rest IH]; intros fs Hnodup Hnames Hready.
  { exists fs. split; [done|]. split; [by intros ? ?%elem_of_nil|]. done. }
  apply NoDup_cons in Hnodup as [Hn Hnodup].
  assert (Hnames' : ∀ name, name ∈ rest → name ≠ "" ∧ str_in "/" name = false).
  { intros name Hin. apply Hnames. by apply list_elem_of_further. }
  destruct (Hnames n (list_elem_of_here _ _)) as [Hne Hslash].
  cbn [for_each].
  destruct (endswith ".dot" n) eqn:Hdot.
  - destruct (Hready n (list_elem_of_here _ _) Hdot) as [Hfile Htake].
    apply isfile_lookup in Hfile as [text Hsrc].
    set (fs2 := delete (join d n) (add_files (destination_paths fo n) text fs)).
    assert (Hnodir : ∀ p, p ∈ destination_paths fo n → FS.isdir fs p = false).
    { intros p (folder & -> & Hin)%list_elem_of_fmap.
      by destruct (Htake folder Hin) as (_ & _ & ? & _). }
    assert (Hout : join d n ∉ destination_paths fo n).
    { intros (folder & Heq & Hin)%list_elem_of_fmap.
      destruct (Htake folder Hin) as (_ & _ & _ & ?). congruence. }
    assert (Hisdir : ∀ q, FS.isdir fs2 q = FS.isdir fs q).
    { intros q. unfold fs2. rewrite isdir_delete_file.
      - by apply isdir_add_files.
      - rewrite isdir_add_files by done.
        apply isfile_not_isdir, isfile_lookup. eauto. }
    assert (Hother : ∀ q, basename q ≠ n → fs2 !! q = fs !! q).
    { intros q Hq. unfold fs2. rewrite lookup_delete_ne.
      - apply add_files_lookup_out. intros Hin. apply Hq.
        by apply (destination_paths_basename fo).
      - intros <-. apply Hq. by apply basename_join. }
    destruct (IH fs2) as (fs' & Hrun & Hdone & Hrest & Hdirs); try done.
    { intros name Hin Hd.
      destruct (Hnames' name Hin) as [_ Hsl].
      assert (Hdiff : name ≠ n) by (intros ->; done).
      destruct (Hready name (list_elem_of_further _ _ _ Hin) Hd) as [Hf Ht].
      split.
      - unfold FS.isfile. rewrite Hother; [done|]. by rewrite basename_join.
      - intros folder Hfo. destruct (Ht folder Hfo) as (? & ? & ? & ?).
        unfold can_take. by rewrite !Hisdir. }
    exists fs'. split; [|split; [|split]].
    + erewrite bind_ok; [exact Hrun|]. by apply process_entry_ok.
    + intros name [->|Hin]%elem_of_cons Hd.
      * assert (Hfree : ∀ q, basename q = n → q ∉ touched d fo rest).
        { intros q Hq (name & Hin & _ & Hcase)%elem_of_touched.
          destruct (Hnames' name Hin) as [_ Hsl].
          rewrite (touched_basename d fo name q Hsl Hcase) in Hq.
          by subst name. }
        split.
        -- rewrite Hrest by (apply Hfree; by apply basename_join).
           unfold fs2. by rewrite lookup_delete_eq.
        -- intros p Hp. rewrite Hsrc.
           rewrite Hrest
             by (apply Hfree; by apply (destination_paths_basename fo)).
           unfold fs2. rewrite lookup_delete_ne by (intros <-; done).
           by apply add_files_lookup_in.
      * destruct (Hdone name Hin Hd) as [Hgone Hcopies].
        destruct (Hnames' name Hin) as [_ Hsl].
        assert (Hdiff : name ≠ n) by (intros ->; done).
        split; [done|]. intros p Hp. rewrite (Hcopies p Hp).
        apply Hother. by rewrite basename_join.
    + intros q Hq. rewrite Hrest.
      * unfold fs2. rewrite lookup_delete_ne.
        -- apply add_files_lookup_out. intros Hin. apply Hq.
           apply elem_of_touched. exists n.
           split; [apply list_elem_of_here|]. split; [done|]. by right.
        -- intros <-. apply Hq. apply elem_of_touched. exists n.
           split; [apply list_elem_of_here|]. split; [done|]. by left.
      * intros (name & Hin & Hd & Hcase)%elem_of_touched. apply Hq.
        apply elem_of_touched. exists name.
        split; [by apply list_elem_of_further|]. done.
    + intros q. by rewrite Hdirs.
  - destruct (IH fs) as (fs' & Hrun & Hdone & Hrest & Hdirs); try done.
    { intros name Hin. apply Hready. by apply list_elem_of_further. }
    exists fs'. split; [|split; [|split]].
    + erewrite bind_ok; [exact Hrun|]. by apply process_entry_skip.
    + intros name [->|Hin]%elem_of_cons Hd; [congruence|]. by apply Hdone.
    + intros q Hq. apply Hrest.
      intros (name & Hin & Hd & Hcase)%elem_of_touched. apply Hq.
      apply elem_of_touched. exists name.
      split; [by apply list_elem_of_further|]. done.
    + done.
Qed.

End MoveFacts.

Section AllFilesFacts.

Import Shutil Organizer OrganizerSpec.

Lemma process_all_files_ok fs d fo :
  FS.isdir fs d = true →
  (∀ name, name ∈ FS.listdir fs d → endswith ".dot" name = true →
     FS.isdir fs (join d name) = false
     ∧ ∀ folder, folder ∈ destinations fo name →
                 can_take fs (join d name) name folder) →
  ∃ fs',
    process_all_files d fo fs = (fs', inr true)
    ∧ (∀ name, name ∈ FS.listdir fs d → endswith ".dot" name = true →
         fs' !! join d name = None
         ∧ ∀ p, p ∈ destination_paths fo name → fs' !! p = fs !! join d name)
    ∧ (∀ q, q ∉ touched d fo (FS.listdir fs d) → fs' !! q = fs !! q)
    ∧ (∀ q, FS.isdir fs' q = FS.isdir fs q).
Proof.
  intros Hd Hready.
  destruct (for_each_process_entry d fo (FS.listdir fs d) fs)
    as (fs' & Hrun & Hdone & Hrest & Hdirs).
  - apply listdir_NoDup.
  - by intros name (_ & ? & ?)%elem_of_listdir.
  - intros name Hin Hdot. destruct (Hready name Hin Hdot) as [Hnodir Htake].
    split; [|done].
    apply elem_of_listdir in Hin as ([e He] & _ & _).
    unfold FS.isfile, FS.isdir in *. rewrite He in *. by destruct e.
  - exists fs'. split; [|done].
    unfold process_all_files, listdir, bind at 1.
    unfold FS.isdir in Hd. destruct (fs !! d) as [[|]|]; try done.
    by erewrite bind_ok.
Qed.

(** The store that the loop leaves does not depend on the order in
    which the names are listed. *)
Lemma for_each_any_order fs d fo names fs' :
  FS.isdir fs d = true →
  (∀ name, name ∈ FS.listdir fs d → endswith ".dot" name = true →
     FS.isdir fs (join d name) = false
     ∧ ∀ folder, folder ∈ destinations fo name →
                 can_take fs (join d name) name folder) →
  names ≡ₚ FS.listdir fs d →
  process_all_files d fo fs = (fs', inr true) →
  for_each names (process_entry d fo) fs = (fs', inr tt).
Proof.
  intros Hd Hready Hperm Hrun.
  destruct (process_all_files_ok fs d fo Hd Hready)
    as (fs0 & Hrun0 & Hdone0 & Hrest0 & _).
  rewrite Hrun0 in Hrun. injection Hrun as ->.
  destruct (for_each_process_entry d fo names fs)
    as (fs1 & Hrun1 & Hdone1 & Hrest1 & _).
  - rewrite Hperm. apply listdir_NoDup.
  - intros name Hin. rewrite Hperm in Hin.
    by apply elem_of_listdir in Hin as (_ & ? & ?).
  - intros name Hin Hdot. rewrite Hperm in Hin.
    destruct (Hready name Hin Hdot) as [Hnodir Htake]. split; [|done].
    apply elem_of_listdir in Hin as ([e He] & _ & _).
    unfold FS.isfile, FS.isdir in *. rewrite He in *. by destruct e.
  - rewrite Hrun1. f_equal. apply map_eq. intros q.
    destruct (decide (q ∈ touched d fo (FS.listdir fs d))) as [Hq|Hq].
    + apply elem_of_touched in Hq as (name & Hin & Hdot & Hcase).
      assert (Hin1 : name ∈ names) by (by rewrite Hperm).
      destruct (Hdone0 name Hin Hdot) as [Hgone0 Hcopies0].
      destruct (Hdone1 name Hin1 Hdot) as [Hgone1 Hcopies1].
      destruct Hcase as [->|Hp]; [by rewrite Hgone0, Hgone1|].
      by rewrite Hcopies0, Hcopies1.
    + rewrite Hrest0 by done. apply Hrest1.
      intros (name & Hin & Hdot & Hcase)%elem_of_touched. apply Hq.
      apply elem_of_touched. exists name. by rewrite <- Hperm.
Qed.

Lemma process_all_files_not_false fs fs' d fo :
  process_all_files d fo fs ≠ (fs', inr false).
Proof.
  unfold process_all_files, bind at 1.
  destruct (listdir d fs) as [fs1 [e|names]]; [done|].
  apply bind_ret_true_not_false.
Qed.

Lemma length_join d x :
  str_in "/" x = false →
  String.length d + String.length x ≤ String.length (join d x).
Proof.
  intros Hx. rewrite join_plain by done. rewrite length_app'.
  destruct (dir_prefix_cases d) as [[-> ->]|[(t & -> & ->)|(_ & _ & ->)]];
    rewrite ?length_app'; simpl; lia.
Qed.

Lemma nonempty_length s : s ≠ "" → 0 < String.length s.
Proof. destruct s; [done|simpl; lia]. Qed.

(** The folders of the layout lie strictly below [d], and no dot file
    has the path of one of them. *)
Lemma folder_list_facts d folder :
  endswith "/" d = false →
  folder ∈ folder_list (folders_in d) →
  endswith "/" folder = false
  ∧ endswith ".dot" (basename folder) = false
  ∧ String.length d < String.length folder.
Proof.
  intros Hs Hin.
  assert (Hone : ∀ d' x, x ≠ "" → endswith "/" x = false → str_in "/" x = false →
            endswith ".dot" x = false →
            endswith "/" (join d' x) = false
            ∧ endswith ".dot" (basename (join d' x)) = false
            ∧ String.length d' < String.length (join d' x)).
  { intros d' x Hne He Hx Hdot. split; [by apply join_no_trailing_slash|].
    rewrite basename_join by done. split; [done|].
    pose proof (length_join d' x Hx). pose proof (nonempty_length x Hne). lia. }
  unfold folder_list, folders_in in Hin. cbn [function_graphs directory_graphs
    callee_caller_graph caller_callee_graph callee_caller_dot caller_callee_dot] in Hin.
  repeat (apply elem_of_cons in Hin as [->|Hin]); [..|by apply elem_of_nil in Hin].
  - by apply Hone.
  - by apply Hone.
  - by apply Hone.
  - by apply Hone.
  - destruct (Hone d "callee_caller_graph") as (? & ? & ?); try done.
    destruct (Hone (join d "callee_caller_graph") "dot_files") as (? & ? & ?);
      try done.
    repeat split; try done. lia.
  - destruct (Hone d "caller_callee_graph") as (? & ? & ?); try done.
    destruct (Hone (join d "caller_callee_graph") "dot_files") as (? & ? & ?);
      try done.
    repeat split; try done. lia.
Qed.

Lemma destinations_in_layout fo name folder :
  folder ∈ destinations fo name → folder ∈ folder_list fo.
Proof.
  unfold destinations, folder_list.
  destruct (startswith "dir_" name);
    [|destruct (endswith "_icgraph.dot" name);
      [|destruct (endswith "_cgraph.dot" name)]];
    set_solver.
Qed.

Lemma dot_file_not_folder d p :
  endswith "/" d = false →
  endswith ".dot" (basename p) = true → p ∉ folder_list (folders_in d).
Proof.
  intros Hs Hdot Hin.
  destruct (folder_list_facts d p Hs Hin) as (_ & Hno & _). congruence.
Qed.

(** The folder layout and then the loop, from the store before. *)
Lemma organize_all_ok fs d :
  FS.isdir fs d = true → endswith "/" d = false →
  (∀ p, p ∈ folder_list (folders_in d) → FS.isfile fs p = false) →
  (∀ name, name ∈ FS.listdir fs d → endswith ".dot" name = true →
     FS.isdir fs (join d name) = false
     ∧ ∀ folder, folder ∈ destinations (folders_in d) name →
                 FS.isdir fs (join folder name) = false) →
  ∃ fs',
    process_all_files d (folders_in d) (add_dirs (folder_list (folders_in d)) fs)
    = (fs', inr true)
    ∧ (∀ p, p ∈ folder_list (folders_in d) → FS.isdir fs' p = true)
    ∧ (∀ name, name ∈ FS.listdir fs d → endswith ".dot" name = true →
         fs' !! join d name = None
         ∧ ∀ p, p ∈ destination_paths (folders_in d) name →
                fs' !! p = fs !! join d name)
    ∧ (∀ q, q ∉ folder_list (folders_in d) →
            q ∉ touched d (folders_in d) (FS.listdir fs d) →
            fs' !! q = fs !! q).
Proof.
  intros Hd Hs Hfree Hready.
  set (fo := folders_in d) in *. set (fs1 := add_dirs (folder_list fo) fs).
  assert (Hsub : fs ⊆ fs1) by (by apply add_dirs_subseteq).
  assert (Hsame : ∀ q, endswith ".dot" (basename q) = true → fs1 !! q = fs !! q).
  { intros q Hq. apply add_dirs_lookup_out. by apply dot_file_not_folder. }
  assert (Hlist : ∀ name, endswith ".dot" name = true →
            name ∈ FS.listdir fs1 d ↔ name ∈ FS.listdir fs d).
  { intros name Hdot. rewrite !elem_of_listdir. split.
    - intros (Hsome & Hne & Hsl). rewrite Hsame in Hsome; [done|].
      by rewrite basename_join.
    - intros (Hsome & Hne & Hsl). rewrite Hsame; [done|].
      by rewrite basename_join. }
  assert (Htouched : ∀ q, q ∈ touched d fo (FS.listdir fs1 d)
                          ↔ q ∈ touched d fo (FS.listdir fs d)).
  { intros q. rewrite !elem_of_touched. split.
    - intros (name & Hin & Hdot & Hq). exists name. by rewrite <- Hlist.
    - intros (name & Hin & Hdot & Hq). exists name. by rewrite Hlist. }
  destruct (process_all_files_ok fs1 d fo) as (fs' & Hrun & Hdone & Hrest & Hdirs).
  - by apply (isdir_weaken fs).
  - intros name Hin Hdot. apply Hlist in Hin; [|done].
    destruct (Hready name Hin Hdot) as [Hnodir Hdest].
    apply elem_of_listdir in Hin as (_ & Hne & Hsl).
    split.
    + unfold FS.isdir. rewrite Hsame; [done|]. by rewrite basename_join.
    + intros folder Hfo.
      assert (Hin6 := destinations_in_layout fo name folder Hfo).
      destruct (folder_list_facts d folder Hs Hin6) as (Hfs & _ & Hlen).
      split; [|split; [done|split]].
      * unfold FS.isdir, fs1. by rewrite add_dirs_lookup_in.
      * unfold FS.isdir. rewrite Hsame by (by rewrite basename_join).
        by apply Hdest.
      * intros Heq. apply (f_equal dirname) in Heq.
        rewrite !dirname_join in Heq by done. subst folder. lia.
  - exists fs'. split; [done|]. split; [|split].
    + intros p Hp. rewrite Hdirs. unfold FS.isdir, fs1.
      by rewrite add_dirs_lookup_in.
    + intros name Hin Hdot.
      assert (Hin1 : name ∈ FS.listdir fs1 d) by (by apply Hlist).
      destruct (Hdone name Hin1 Hdot) as [Hgone Hcopies].
      split; [done|]. intros p Hp. rewrite (Hcopies p Hp).
      apply elem_of_listdir in Hin as (_ & Hne & Hsl).
      apply Hsame. by rewrite basename_join.
    + intros q Hq6 Hqt. rewrite Hrest by (by rewrite Htouched).
      by apply add_dirs_lookup_out.
Qed.

End AllFilesFacts.

(** X18: [process_all_files], on a directory in which every entry whose
    name ends in [.dot] is a regular file that its destination folders
    can take, returns [True]; afterwards every such entry is gone from
    the directory, each of its destinations holds a file of its name
    with its text, and no path other than these sources and
    destinations has changed.  The loop leaves the same store in
    whichever order the names are listed. *)
Theorem all_files_moved (fs : FS.store) (d : string) (fo : Organizer.folders) :
  FS.isdir fs d = true →
  (∀ name, name ∈ FS.listdir fs d → endswith ".dot" name = true →
     FS.isdir fs (join d name) = false
     ∧ ∀ folder, folder ∈ OrganizerSpec.destinations fo name →
                 OrganizerSpec.can_take fs (join d name) name folder) →
  ∃ fs',
    Organizer.process_all_files d fo fs = (fs', inr true)
    ∧ (∀ name, name ∈ FS.listdir fs d → endswith ".dot" name = true →
         fs' !! join d name = None
         ∧ ∀ p, p ∈ OrganizerSpec.destination_paths fo name →
                fs' !! p = fs !! join d name)
    ∧ (∀ q, q ∉ OrganizerSpec.touched d fo (FS.listdir fs d) →
            fs' !! q = fs !! q)
    ∧ (∀ names, names ≡ₚ FS.listdir fs d →
         Shutil.for_each names (Organizer.process_entry d fo) fs = (fs', inr tt)).
Proof.
  intros Hd Hready.
  destruct (process_all_files_ok fs d fo Hd Hready) as (fs' & Hrun & ? & ? & _).
  exists fs'. split; [done|]. split; [done|]. split; [done|].
  intros names Hperm. by apply (for_each_any_order fs d fo).
Qed.

(** X19: with no file named, or an empty name, [organize_dot_files]
    never returns [False]: it returns [True] or raises. *)
Theorem organize_all_never_false (fs fs' : FS.store) (d : string) :
  Organizer.organize_dot_files d None fs ≠ (fs', inr false)
  ∧ Organizer.organize_dot_files d (Some "") fs ≠ (fs', inr false).
Proof.
  split; unfold Organizer.organize_dot_files, Shutil.bind at 1;
    (destruct (Organizer.create_folder_structure d fs) as [fs1 [e|fo]]; [done|]);
    apply process_all_files_not_false.
Qed.

(** X20: [organize_dot_files] with no file named, on an existing
    directory [d] given without a trailing slash, in which no regular
    file has the path of a folder of the layout and no directory has
    the name of a dot file or the path of one of its copies, returns
    [True]; afterwards the six folders are directories, every entry of
    [d] whose name ends in [.dot] has left [d], each of its
    destinations holds a file of its name with its text, and nothing
    else has changed. *)
Theorem organize_all_files (fs : FS.store) (d : string) :
  FS.isdir fs d = true →
  endswith "/" d = false →
  (∀ p, p ∈ OrganizerSpec.folder_list (OrganizerSpec.folders_in d) →
        FS.isfile fs p = false) →
  (∀ name, name ∈ FS.listdir fs d → endswith ".dot" name = true →
     FS.isdir fs (join d name) = false
     ∧ ∀ folder,
         folder ∈ OrganizerSpec.destinations (OrganizerSpec.folders_in d) name →
         FS.isdir fs (join folder name) = false) →
  ∃ fs',
    Organizer.organize_dot_files d None fs = (fs', inr true)
    ∧ (∀ p, p ∈ OrganizerSpec.folder_list (OrganizerSpec.folders_in d) →
            FS.isdir fs' p = true)
    ∧ (∀ name, name ∈ FS.listdir fs d → endswith ".dot" name = true →
         fs' !! join d name = None
         ∧ ∀ p, p ∈ OrganizerSpec.destination_paths
                      (OrganizerSpec.folders_in d) name →
                fs' !! p = fs !! join d name)
    ∧ (∀ q, q ∉ OrganizerSpec.folder_list (OrganizerSpec.folders_in d) →
            q ∉ OrganizerSpec.touched d (OrganizerSpec.folders_in d)
                  (FS.listdir fs d) →
            fs' !! q = fs !! q).
Proof.
  intros Hd Hs Hfree Hready.
  destruct (organize_all_ok fs d Hd Hs Hfree Hready) as (fs' & Hrun & Hrest).
  exists fs'. split; [|exact Hrest].
  unfold Organizer.organize_dot_files.
  erewrite bind_ok; [exact Hrun|]. by apply create_folder_structure_free.
Qed.

(** A path is none of the members of a list of paths given in full. *)
Ltac not_listed H :=
  clear -H;
  repeat (apply elem_of_cons in H as [H|H]; [vm_compute in H; discriminate H|]);
  apply elem_of_nil in H; exact H.

Lemma all_files_moved_witness :
  ∃ fs',
    Organizer.process_all_files "g" (OrganizerSpec.folders_in "g") store_layout
    = (fs', inr true)
    ∧ fs' !! "g/b_icgraph.dot" = None
    ∧ fs' !! "g/function_graphs/b_icgraph.dot" = Some (FS.File "digraph b {}")
    ∧ fs' !! "g/callee_caller_graph/dot_files/b_icgraph.dot"
      = Some (FS.File "digraph b {}")
    ∧ fs' !! "g/notes.txt" = Some (FS.File "notes").
Proof.
  assert (Hl : FS.listdir store_layout "g"
               = ["callee_caller_graph"; "caller_callee_graph"; "notes.txt";
                  "function_graphs"; "b_icgraph.dot"; "directory_graphs"])
    by (vm_compute; reflexivity).
  destruct (all_files_moved store_layout "g" (OrganizerSpec.folders_in "g"))
    as (fs' & Hrun & Hdone & Hrest & _).
  - vm_compute; reflexivity.
  - intros name Hin Hdot. rewrite Hl in Hin. clear Hl.
    repeat (apply elem_of_cons in Hin as [->|Hin];
            [try (vm_compute in Hdot; discriminate Hdot)|]);
      [|apply elem_of_nil in Hin; destruct Hin].
    clear Hdot. split; [vm_compute; reflexivity|]. intros folder Hfo.
    repeat (apply elem_of_cons in Hfo as [->|Hfo];
            [split; [vm_compute; reflexivity|];
             split; [vm_compute; reflexivity|];
             split; [vm_compute; reflexivity|];
             intros Heq; vm_compute in Heq; discriminate Heq|]).
    apply elem_of_nil in Hfo; destruct Hfo.
  - rewrite Hl in Hdone, Hrest. clear Hl.
    destruct (Hdone "b_icgraph.dot") as [Hgone Hcopies].
    { do 4 apply list_elem_of_further. apply list_elem_of_here. }
    { vm_compute; reflexivity. }
    exists fs'. split; [exact Hrun|]. split; [exact Hgone|].
    split; [|split].
    + rewrite Hcopies; [vm_compute; reflexivity|]. apply list_elem_of_here.
    + rewrite Hcopies; [vm_compute; reflexivity|].
      apply list_elem_of_further, list_elem_of_here.
    + rewrite Hrest; [vm_compute; reflexivity|].
      intros Hp. not_listed Hp.
Defined.

Lemma organize_all_files_witness :
  ∃ fs',
    Organizer.organize_dot_files "g" None store_unsorted = (fs', inr true)
    ∧ FS.isdir fs' "g/caller_callee_graph/dot_files" = true
    ∧ fs' !! "g/a_cgraph.dot" = None
    ∧ fs' !! "g/caller_callee_graph/dot_files/a_cgraph.dot"
      = Some (FS.File "digraph a {}")
    ∧ fs' !! "g/directory_graphs/dir_x.dot" = Some (FS.File "digraph x {}")
    ∧ fs' !! "g/notes.txt" = Some (FS.File "notes").
Proof.
  assert (Hl : FS.listdir store_unsorted "g"
               = ["a_cgraph.dot"; "notes.txt"; "b_icgraph.dot"; "dir_x.dot"])
    by (vm_compute; reflexivity).
  destruct (organize_all_files store_unsorted "g")
    as (fs' & Hrun & Hdirs & Hdone & Hrest).
  - vm_compute; reflexivity.
  - vm_compute; reflexivity.
  - intros p Hp. clear Hl.
    repeat (apply elem_of_cons in Hp as [->|Hp]; [vm_compute; reflexivity|]).
    apply elem_of_nil in Hp; destruct Hp.
  - intros name Hin Hdot. rewrite Hl in Hin. clear Hl.
    repeat (apply elem_of_cons in Hin as [->|Hin];
            [try (vm_compute in Hdot; discriminate Hdot)|]);
      [..|apply elem_of_nil in Hin; destruct Hin];
      (clear Hdot; split; [vm_compute; reflexivity|]; intros folder Hfo;
       repeat (apply elem_of_cons in Hfo as [->|Hfo]; [vm_compute; reflexivity|]);
       apply elem_of_nil in Hfo; destruct Hfo).
  - rewrite Hl in Hdone, Hrest. clear Hl.
    destruct (Hdone "a_cgraph.dot") as [Hgone Hcopies].
    { apply list_elem_of_here. }
    { vm_compute; reflexivity. }
    destruct (Hdone "dir_x.dot") as [_ Hcopies'].
    { do 3 apply list_elem_of_further. apply list_elem_of_here. }
    { vm_compute; reflexivity. }
    exists fs'. split; [exact Hrun|]. split; [|split; [exact Hgone|split; [|split]]].
    + apply Hdirs. do 5 apply list_elem_of_further. apply list_elem_of_here.
    + rewrite Hcopies; [vm_compute; reflexivity|].
      apply list_elem_of_further, list_elem_of_here.
    + rewrite Hcopies'; [vm_compute; reflexivity|]. apply list_elem_of_here.
    + rewrite Hrest; [vm_compute; reflexivity| |].
      * intros Hp. not_listed Hp.
      * intros Hp. not_listed Hp.
Defined.

(** ** The organizer's folders and the processor's directions *)

Section DirectionFacts.

Import Shutil Organizer OrganizerSpec.

Lemma app_eq_app_string (x y u v : string) :
  x +:+ y = u +:+ v →
  (∃ w, u = x +:+ w ∧ y = w +:+ v) ∨ (∃ w, x = u +:+ w ∧ v = w +:+ y).
Proof.
  revert u. induction x as [|a x IH]; intros u.
  - rewrite app_nil_l'. intros ->. left. exists u. by rewrite app_nil_l'.
  - destruct u as [|b u].
    + rewrite app_nil_l'. intros <-. right. exists (String a x).
      by rewrite app_nil_l'.
    + rewrite !app_cons. intros [= <- H].
      destruct (IH u H) as [(w & -> & ->)|(w & -> & ->)].
      * left. exists w. by rewrite app_cons.
      * right. exists w. by rewrite app_cons.
Qed.

Lemma str_in_false (sub s : string) :
  (∀ pre post, s ≠ pre +:+ sub +:+ post) → str_in sub s = false.
Proof.
  intros H. destruct (str_in sub s) eqn:E; [|done].
  apply str_in_inv in E as (pre & post & ->). by destruct (H pre post).
Qed.

Lemma str_in_absent (sub pre post : string) :
  str_in sub (pre +:+ sub +:+ post) = false → False.
Proof. by rewrite str_in_intro. Qed.

(** A text without the character [c] that occurs in neither of two
    texts does not occur in the two joined by [c]. *)
Lemma str_in_across c a b sub :
  sub ≠ "" → str_in (String c "") sub = false →
  str_in sub a = false → str_in sub b = false →
  str_in sub (a +:+ String c b) = false.
Proof.
  intros Hne Hc Ha Hb. apply str_in_false. intros pre post E.
  apply app_eq_app_string in E as [(w & -> & E)|(w & -> & E)].
  - destruct w as [|w0 w].
    + rewrite app_nil_l' in E. destruct sub as [|s0 sub]; [done|].
      rewrite app_cons in E. injection E as <- _.
      apply (str_in_absent (String c "") "" sub).
      by rewrite app_nil_l', app_cons, app_nil_l'.
    + rewrite app_cons in E. injection E as _ ->.
      by apply (str_in_absent sub w post).
  - apply app_eq_app_string in E as [(w2 & -> & E)|(w2 & -> & E)].
    + apply (str_in_absent sub pre w2). by rewrite <- app_assoc' in Ha |- *.
    + destruct w2 as [|w0 w2].
      * rewrite app_nil_r' in Ha. apply (str_in_absent w pre "").
        by rewrite app_nil_r'.
      * rewrite app_cons in E. injection E as <- _.
        apply (str_in_absent (String c "") w w2).
        by rewrite app_cons, app_nil_l'.
Qed.

Lemma str_in_join sub d name :
  sub ≠ "" → str_in "/" sub = false →
  endswith "/" d = false → str_in "/" name = false →
  str_in sub d = false → str_in sub name = false →
  str_in sub (join d name) = false.
Proof.
  intros Hne Hsl Hd Hn Hsd Hsn. rewrite join_plain by done.
  destruct (dir_prefix_cases d) as [[-> ->]|[(t & -> & _)|(_ & _ & ->)]].
  - by rewrite app_nil_l'.
  - by rewrite endswith_intro in Hd.
  - rewrite app_assoc', app_cons, app_nil_l'. by apply str_in_across.
Qed.

Lemma str_in_suffix sub pre : str_in sub (pre +:+ sub) = true.
Proof.
  rewrite <- (app_nil_r' sub) at 2. apply str_in_intro.
Qed.

Lemma str_in_under sub d name :
  str_in "/" name = false →
  str_in sub name = true → str_in sub (join d name) = true.
Proof.
  intros Hn (pre & post & ->)%str_in_inv. rewrite join_plain by done.
  rewrite <- app_assoc'. apply str_in_intro.
Qed.

Lemma str_in_over sub d name :
  str_in "/" name = false →
  str_in sub d = true → str_in sub (join d name) = true.
Proof.
  intros Hn (pre & post & ->)%str_in_inv. rewrite join_plain by done.
  unfold dir_prefix. destruct (negb (truthy _) || endswith "/" _).
  - rewrite !app_assoc'. apply str_in_intro.
  - rewrite !app_assoc'. apply str_in_intro.
Qed.

Lemma startswith_both p q s :
  startswith p s = true → startswith q s = true →
  String.length p ≤ String.length q → startswith p q = true.
Proof.
  revert q s. induction p as [|a p IH]; intros q s; [done|].
  destruct q as [|b q]; [simpl; lia|]. destruct s as [|c s]; [done|].
  simpl. destruct (Ascii.eqb a c) eqn:Eac; [|done].
  destruct (Ascii.eqb b c) eqn:Ebc; [|done].
  apply Ascii.eqb_eq in Eac, Ebc. subst. rewrite Ascii.eqb_refl.
  intros Hp Hq Hlen. apply (IH q s); [done|done|lia].
Qed.

(** No name passes both tests on the end of the name, so the order of
    the two branches does not matter. *)
Lemma suffixes_exclusive name :
  endswith "_cgraph.dot" name = true → endswith "_icgraph.dot" name = false.
Proof.
  unfold endswith. intros Hc.
  destruct (startswith (String.rev "_icgraph.dot") (String.rev name)) eqn:Hic; [|done].
  assert (H : startswith (String.rev "_cgraph.dot") (String.rev "_icgraph.dot") = true).
  { apply (startswith_both _ _ _ Hc Hic). vm_compute. lia. }
  vm_compute in H. discriminate H.
Qed.

(** The header that a listing written for a dot file carries. *)
Lemma listing_direction fs graph p fs' out :
  generate_function_relationships_text fs graph p = (fs', Some out) →
  ∃ relationships,
    fs' !! out
    = Some (FS.File (relationships_text relationships p (str_in "_icgraph" p))).
Proof.
  unfold generate_function_relationships_text, write_relationships_to_file.
  rewrite write_spec. destruct (FS.isdir fs _); [done|].
  intros [= <- <-]. eexists. by rewrite lookup_insert_eq.
Qed.

(** The header that the combined file of a directory carries. *)
Lemma combined_direction fs directory dot_files fs' out :
  generate_combined_relationships_file fs directory dot_files = (fs', Some out) →
  ∃ all_relationships,
    fs' !! out
    = Some (FS.File
              (combined_text (get_output_dir_for_combined_file directory)
                 all_relationships
                 (str_in "callee_caller" (lower (basename directory))))).
Proof.
  unfold generate_combined_relationships_file.
  destruct (collect_unique_relationships fs _) as [all|]; [|done].
  rewrite write_spec. destruct (FS.isdir fs _); [done|].
  intros [= <- <-]. exists all. by rewrite lookup_insert_eq.
Qed.

Lemma callee_caller_direction d :
  str_in "callee_caller" (lower (basename (join d "callee_caller_graph"))) = true.
Proof. by rewrite basename_join. Qed.

Lemma caller_callee_direction d :
  str_in "callee_caller" (lower (basename (join d "caller_callee_graph"))) = false.
Proof. by rewrite basename_join. Qed.

Lemma layout_after_success fs d fs' fo :
  FS.isdir fs d = true → endswith "/" d = false →
  create_folder_structure d fs = (fs', inr fo) →
  fo = folders_in d ∧ fs' = add_dirs (folder_list (folders_in d)) fs.
Proof.
  intros Hd Hs Hrun.
  assert (Hfree := create_folder_structure_success_free fs d fs' fo Hd Hs Hrun).
  rewrite create_folder_structure_free in Hrun by done.
  by injection Hrun as <- <-.
Qed.

(** The folder layout and then the copies of one file, from the store
    before. *)
Lemma organize_single_ok fs d src text :
  FS.isdir fs d = true → endswith "/" d = false →
  (∀ p, p ∈ folder_list (folders_in d) → FS.isfile fs p = false) →
  fs !! src = Some (FS.File text) →
  endswith ".dot" (basename src) = true →
  (∀ folder, folder ∈ destinations (folders_in d) (basename src) →
     FS.isdir fs (join folder (basename src)) = false
     ∧ join folder (basename src) ≠ src) →
  organize_dot_files d (Some src) fs
  = (add_files (destination_paths (folders_in d) (basename src)) text
       (add_dirs (folder_list (folders_in d)) fs),
     inr true).
Proof.
  intros Hd Hs Hfree Hsrc Hdot Hdest.
  set (name := basename src) in *.
  assert (Hname : str_in "/" name = false) by apply basename_no_slash.
  assert (Hne : name ≠ "") by (by apply (endswith_nonempty ".dot")).
  assert (truthy src = true) as Htruthy.
  { destruct src; [|done]. by destruct Hne. }
  set (fs1 := add_dirs (folder_list (folders_in d)) fs).
  assert (Hsame : ∀ q, endswith ".dot" (basename q) = true → fs1 !! q = fs !! q).
  { intros q Hq. apply add_dirs_lookup_out. by apply dot_file_not_folder. }
  assert (Hsrc1 : fs1 !! src = Some (FS.File text)) by (by rewrite Hsame).
  unfold organize_dot_files.
  erewrite bind_ok; [|by apply create_folder_structure_free].
  rewrite Htruthy. fold fs1.
  rewrite process_single_file_found by (unfold FS.isfile; by rewrite Hsrc1).
  fold name. rewrite Hdot. erewrite bind_ok; [done|].
  apply copy_to_folders_ok; try done.
  intros folder Hfo. destruct (Hdest folder Hfo) as [Hnodir Hdiff].
  assert (Hin6 := destinations_in_layout (folders_in d) name folder Hfo).
  destruct (folder_list_facts d folder Hs Hin6) as (Hfs & _ & _).
  split; [|split; [done|split; [|done]]].
  - unfold FS.isdir, fs1. by rewrite add_dirs_lookup_in.
  - unfold FS.isdir. rewrite Hsame by (by rewrite basename_join). by apply Hnodir.
Qed.

(** What [organize_dot_files] does with one file that goes to the
    function graphs and to one of the two [dot_files] folders. *)
Lemma organize_single_two fs d src text name all p :
  FS.isdir fs d = true → endswith "/" d = false →
  (∀ q, q ∈ folder_list (folders_in d) → FS.isfile fs q = false) →
  basename src = name → endswith ".dot" name = true →
  destination_paths (folders_in d) name = [all; p] →
  fs !! src = Some (FS.File text) →
  FS.isdir fs all = false → FS.isdir fs p = false → src ≠ all → src ≠ p →
  ∃ fs',
    organize_dot_files d (Some src) fs = (fs', inr true)
    ∧ fs' !! p = Some (FS.File text)
    ∧ fs' !! all = Some (FS.File text)
    ∧ ∀ q, q ∉ folder_list (folders_in d) → q ≠ all → q ≠ p → fs' !! q = fs !! q.
Proof.
  intros Hd Hs Hfree Hbase Hdot Hpaths Hsrc Hall Hp Hsa Hsp. subst name.
  eexists. split.
  - apply (organize_single_ok fs d src text); try done.
    intros folder Hfo.
    assert (Hin : join folder (basename src)
                  ∈ destination_paths (folders_in d) (basename src)).
    { apply list_elem_of_fmap. by exists folder. }
    rewrite Hpaths in Hin.
    apply elem_of_cons in Hin as [->|Hin]; [done|].
    by apply list_elem_of_singleton in Hin as ->.
  - rewrite Hpaths. split; [|split].
    + apply add_files_lookup_in. apply list_elem_of_further, list_elem_of_here.
    + apply add_files_lookup_in. apply list_elem_of_here.
    + intros q Hq6 Hqa Hqp. rewrite add_files_lookup_out.
      * by apply add_dirs_lookup_out.
      * intros [->|Hin]%elem_of_cons; [done|].
        by apply list_elem_of_singleton in Hin.
Qed.

End DirectionFacts.

(** X21: [organize_dot_files], given a dot file whose name ends in
    [_icgraph.dot] (and does not start with [dir_]), copies it to
    [function_graphs] and to the [dot_files] folder of
    [callee_caller_graph], and nowhere else; processed at that second
    path, its listing is written into [callee_caller_graph] with the
    header of the inverted direction, which is also the header of the
    combined file of that folder. *)
Theorem inverted_graph_directions_agree (d stem : string) :
  endswith "/" d = false →
  str_in "/" stem = false →
  startswith "dir_" (stem +:+ "_icgraph.dot") = false →
  let name := stem +:+ "_icgraph.dot" in
  let all := join (join d "function_graphs") name in
  let graph_dir := join d "callee_caller_graph" in
  let p := join (join graph_dir "dot_files") name in
  (∀ fs src text,
     FS.isdir fs d = true →
     (∀ q, q ∈ OrganizerSpec.folder_list (OrganizerSpec.folders_in d) →
           FS.isfile fs q = false) →
     basename src = name →
     fs !! src = Some (FS.File text) →
     FS.isdir fs all = false → FS.isdir fs p = false →
     src ≠ all → src ≠ p →
     ∃ fs',
       Organizer.organize_dot_files d (Some src) fs = (fs', inr true)
       ∧ fs' !! p = Some (FS.File text)
       ∧ fs' !! all = Some (FS.File text)
       ∧ ∀ q, q ∉ OrganizerSpec.folder_list (OrganizerSpec.folders_in d) →
              q ≠ all → q ≠ p → fs' !! q = fs !! q)
  ∧ listing_path p = join graph_dir (stem +:+ "_icgraph_relationships.txt")
  ∧ (∀ fs graph fs' out,
       generate_function_relationships_text fs graph p = (fs', Some out) →
       ∃ relationships,
         fs' !! out = Some (FS.File (relationships_text relationships p true)))
  ∧ (∀ fs dot_files fs' out,
       generate_combined_relationships_file fs graph_dir dot_files
       = (fs', Some out) →
       ∃ all_relationships,
         fs' !! out
         = Some (FS.File (combined_text graph_dir all_relationships true))).
Proof.
  intros Hd Hstem Hdir name all graph_dir p.
  assert (Hname : str_in "/" name = false) by (by apply no_char_app).
  assert (Hs3 : endswith "/" graph_dir = false)
    by (by apply join_no_trailing_slash).
  assert (Hin : str_in "_icgraph" p = true).
  { apply str_in_under; [done|].
    apply (str_in_intro "_icgraph" stem ".dot"). }
  assert (Hic : endswith "_icgraph.dot" name = true)
    by apply (endswith_intro "_icgraph.dot" stem).
  assert (Hdot : endswith ".dot" name = true).
  { unfold name.
    change (stem +:+ "_icgraph.dot") with (stem +:+ "_icgraph" +:+ ".dot").
    rewrite <- app_assoc'. apply endswith_intro. }
  split; [|split; [|split]].
  - intros fs src text Hfs Hfree Hbase Hsrc Hall Hp Hsa Hsp.
    apply (organize_single_two fs d src text name all p); try done.
    unfold OrganizerSpec.destination_paths, OrganizerSpec.destinations.
    fold name in Hdir. by rewrite Hdir, Hic.
  - unfold p, name, graph_dir.
    change (stem +:+ "_icgraph.dot") with (stem +:+ "_icgraph" +:+ ".dot").
    rewrite <- (app_assoc' stem "_icgraph" ".dot").
    rewrite listing_path_join.
    + rewrite get_output_directory_dot_files; [|done|].
      * by rewrite app_assoc'.
      * rewrite app_assoc'. by apply no_char_app.
    + by apply no_char_app.
    + rewrite all_chars_app. by rewrite andb_false_r.
  - intros fs graph fs' out Hrun.
    apply listing_direction in Hrun as [relationships Hout].
    exists relationships. by rewrite Hin in Hout.
  - intros fs dot_files fs' out Hrun.
    apply combined_direction in Hrun as [all' Hout]. exists all'.
    unfold graph_dir in *. rewrite callee_caller_direction in Hout.
    unfold get_output_dir_for_combined_file in Hout.
    by rewrite basename_join in Hout.
Qed.

Lemma inverted_graph_directions_agree_witness :
  (∃ fs',
     Organizer.organize_dot_files "g" (Some "g/b_icgraph.dot") store_unsorted
     = (fs', inr true)
     ∧ fs' !! "g/callee_caller_graph/dot_files/b_icgraph.dot"
       = Some (FS.File "digraph b {}")
     ∧ fs' !! "g/function_graphs/b_icgraph.dot" = Some (FS.File "digraph b {}")
     ∧ fs' !! "g/caller_callee_graph/dot_files/b_icgraph.dot" = None)
  ∧ listing_path "g/callee_caller_graph/dot_files/b_icgraph.dot"
    = "g/callee_caller_graph/b_icgraph_relationships.txt"
  ∧ ∀ fs graph fs' out,
      generate_function_relationships_text fs graph
        "g/callee_caller_graph/dot_files/b_icgraph.dot" = (fs', Some out) →
      ∃ relationships,
        fs' !! out
        = Some (FS.File (relationships_text relationships
                           "g/callee_caller_graph/dot_files/b_icgraph.dot" true)).
Proof.
  destruct (inverted_graph_directions_agree "g" "b") as (Hcopy & Hpath & Hone & _).
  - vm_compute; reflexivity.
  - vm_compute; reflexivity.
  - vm_compute; reflexivity.
  - split; [|split; [exact Hpath | exact Hone]]. clear Hpath Hone.
    destruct (Hcopy store_unsorted "g/b_icgraph.dot" "digraph b {}")
      as (fs' & Hrun & Hp & Hall & Hrest).
    + vm_compute; reflexivity.
    + intros q Hq.
      repeat (apply elem_of_cons in Hq as [->|Hq]; [vm_compute; reflexivity|]).
      apply elem_of_nil in Hq; destruct Hq.
    + vm_compute; reflexivity.
    + vm_compute; reflexivity.
    + vm_compute; reflexivity.
    + vm_compute; reflexivity.
    + intros Heq; vm_compute in Heq; discriminate Heq.
    + intros Heq; vm_compute in Heq; discriminate Heq.
    + clear Hcopy. exists fs'. split; [exact Hrun|]. clear Hrun.
      split; [exact Hp|]. split; [exact Hall|].
      rewrite Hrest; [vm_compute; reflexivity| | |].
      * intros Hin.
        repeat (apply elem_of_cons in Hin as [Hin|Hin];
                [vm_compute in Hin; discriminate Hin|]).
        apply elem_of_nil in Hin. exact Hin.
      * intros Heq; vm_compute in Heq; discriminate Heq.
      * intros Heq; vm_compute in Heq; discriminate Heq.
Defined.

(** X22: a name that ends in [_cgraph.dot] never also ends in
    [_icgraph.dot]; [organize_dot_files], given a dot file of such a
    name (not starting with [dir_]), copies it to [function_graphs] and
    to the [dot_files] folder of [caller_callee_graph], and nowhere
    else.  The combined file of [caller_callee_graph] carries the
    header of the forward direction; the listing of the copy carries
    the same header when neither the folder path nor the name holds
    [_icgraph], and the header of the inverted direction when one of
    them does. *)
Theorem forward_graph_directions (d name : string) :
  endswith "/" d = false →
  str_in "/" name = false →
  startswith "dir_" name = false →
  endswith "_cgraph.dot" name = true →
  let all := join (join d "function_graphs") name in
  let graph_dir := join d "caller_callee_graph" in
  let p := join (join graph_dir "dot_files") name in
  endswith "_icgraph.dot" name = false
  ∧ (∀ fs src text,
       FS.isdir fs d = true →
       (∀ q, q ∈ OrganizerSpec.folder_list (OrganizerSpec.folders_in d) →
             FS.isfile fs q = false) →
       basename src = name →
       fs !! src = Some (FS.File text) →
       FS.isdir fs all = false → FS.isdir fs p = false →
       src ≠ all → src ≠ p →
       ∃ fs',
         Organizer.organize_dot_files d (Some src) fs = (fs', inr true)
         ∧ fs' !! p = Some (FS.File text)
         ∧ fs' !! all = Some (FS.File text)
         ∧ ∀ q, q ∉ OrganizerSpec.folder_list (OrganizerSpec.folders_in d) →
                q ≠ all → q ≠ p → fs' !! q = fs !! q)
  ∧ (∀ fs dot_files fs' out,
       generate_combined_relationships_file fs graph_dir dot_files
       = (fs', Some out) →
       ∃ all_relationships,
         fs' !! out
         = Some (FS.File (combined_text graph_dir all_relationships false)))
  ∧ (∀ fs graph fs' out,
       generate_function_relationships_text fs graph p = (fs', Some out) →
       ∃ relationships,
         fs' !! out
         = Some (FS.File (relationships_text relationships p
                            (str_in "_icgraph" d || str_in "_icgraph" name)))).
Proof.
  intros Hd Hname Hdir Hc all graph_dir p.
  assert (Hic := suffixes_exclusive name Hc).
  assert (Hs4 : endswith "/" graph_dir = false)
    by (by apply join_no_trailing_slash).
  assert (Hs5 : endswith "/" (join graph_dir "dot_files") = false)
    by (by apply join_no_trailing_slash).
  assert (Hdot : endswith ".dot" name = true).
  { apply endswith_inv in Hc as [t ->].
    change (t +:+ "_cgraph.dot") with (t +:+ "_cgraph" +:+ ".dot").
    rewrite <- app_assoc'. apply endswith_intro. }
  split; [done|]. split; [|split].
  - intros fs src text Hfs Hfree Hbase Hsrc Hall Hp Hsa Hsp.
    apply (organize_single_two fs d src text name all p); try done.
    unfold OrganizerSpec.destination_paths, OrganizerSpec.destinations.
    by rewrite Hdir, Hic, Hc.
  - intros fs dot_files fs' out Hrun.
    apply combined_direction in Hrun as [all' Hout]. exists all'.
    unfold graph_dir in *. rewrite caller_callee_direction in Hout.
    unfold get_output_dir_for_combined_file in Hout.
    by rewrite basename_join in Hout.
  - intros fs graph fs' out Hrun.
    apply listing_direction in Hrun as [relationships Hout].
    exists relationships. rewrite Hout. do 3 f_equal.
    unfold p, graph_dir.
    destruct (str_in "_icgraph" name) eqn:Hn.
    + rewrite orb_true_r. by apply str_in_under.
    + rewrite orb_false_r. destruct (str_in "_icgraph" d) eqn:Hind.
      * by repeat apply str_in_over.
      * repeat apply str_in_join; try done.
Qed.

Lemma forward_graph_directions_witness :
  (∃ fs',
     Organizer.organize_dot_files "g" (Some "g/a_cgraph.dot") store_unsorted
     = (fs', inr true)
     ∧ fs' !! "g/caller_callee_graph/dot_files/a_cgraph.dot"
       = Some (FS.File "digraph a {}")
     ∧ fs' !! "g/callee_caller_graph/dot_files/a_cgraph.dot" = None)
  ∧ (∀ fs graph fs' out,
       generate_function_relationships_text fs graph
         "g/caller_callee_graph/dot_files/a_cgraph.dot" = (fs', Some out) →
       ∃ relationships,
         fs' !! out
         = Some (FS.File (relationships_text relationships
                            "g/caller_callee_graph/dot_files/a_cgraph.dot" false)))
  ∧ (∀ fs graph fs' out,
       generate_function_relationships_text fs graph
         "g/caller_callee_graph/dot_files/x_icgraph_cgraph.dot" = (fs', Some out) →
       ∃ relationships,
         fs' !! out
         = Some (FS.File (relationships_text relationships
                            "g/caller_callee_graph/dot_files/x_icgraph_cgraph.dot"
                            true))).
Proof.
  split; [|split].
  - destruct (forward_graph_directions "g" "a_cgraph.dot") as (_ & Hcopy & _).
    + vm_compute; reflexivity.
    + vm_compute; reflexivity.
    + vm_compute; reflexivity.
    + vm_compute; reflexivity.
    + destruct (Hcopy store_unsorted "g/a_cgraph.dot" "digraph a {}")
        as (fs' & Hrun & Hp & Hall & Hrest).
      * vm_compute; reflexivity.
      * intros q Hq.
        repeat (apply elem_of_cons in Hq as [->|Hq]; [vm_compute; reflexivity|]).
        apply elem_of_nil in Hq; destruct Hq.
      * vm_compute; reflexivity.
      * vm_compute; reflexivity.
      * vm_compute; reflexivity.
      * vm_compute; reflexivity.
      * intros Heq; vm_compute in Heq; discriminate Heq.
      * intros Heq; vm_compute in Heq; discriminate Heq.
      * clear Hcopy. exists fs'. split; [exact Hrun|]. clear Hrun.
        split; [exact Hp|].
        rewrite Hrest; [vm_compute; reflexivity| | |].
        -- intros Hin.
           repeat (apply elem_of_cons in Hin as [Hin|Hin];
                   [vm_compute in Hin; discriminate Hin|]).
           apply elem_of_nil in Hin. exact Hin.
        -- intros Heq; vm_compute in Heq; discriminate Heq.
        -- intros Heq; vm_compute in Heq; discriminate Heq.
  - destruct (forward_graph_directions "g" "a_cgraph.dot") as (_ & _ & _ & Hone).
    + vm_compute; reflexivity.
    + vm_compute; reflexivity.
    + vm_compute; reflexivity.
    + vm_compute; reflexivity.
    + exact Hone.
  - destruct (forward_graph_directions "g" "x_icgraph_cgraph.dot")
      as (_ & _ & _ & Hone).
    + vm_compute; reflexivity.
    + vm_compute; reflexivity.
    + vm_compute; reflexivity.
    + vm_compute; reflexivity.
    + exact Hone.
Defined.

(** X23: on the store that a successful [create_folder_structure] in
    the existing directory [d] leaves, the master listing for [d] is
    not refused for want of the category directories: it is written,
    unless a directory has its path. *)
Theorem layout_admits_master_listing
    (fs fs' : FS.store) (d : string) (fo : Organizer.folders) :
  FS.isdir fs d = true →
  endswith "/" d = false →
  Organizer.create_folder_structure d fs = (fs', inr fo) →
  let output_path := join (dirname d) "master_function_relationships.txt" in
  generate_master_relationships_file fs' d
  = if FS.isdir fs' output_path then (fs', inl MasterIOError)
    else (<[output_path
            := FS.File (master_text d
                          (category_relationships fs' (Organizer.callee_caller_graph fo))
                          (category_relationships fs' (Organizer.caller_callee_graph fo)))]>
            fs',
          inr output_path).
Proof.
  intros Hd Hs Hrun output_path.
  destruct (layout_after_success fs d fs' fo Hd Hs Hrun) as [-> ->].
  rewrite generate_master_relationships_file_spec.
  assert (FS.isdir (OrganizerSpec.add_dirs
                      (OrganizerSpec.folder_list (OrganizerSpec.folders_in d)) fs)
            (join d "callee_caller_graph") = true) as ->.
  { unfold FS.isdir. rewrite add_dirs_lookup_in; [done|].
    do 2 apply list_elem_of_further. apply list_elem_of_here. }
  done.
Qed.

Lemma layout_admits_master_listing_witness :
  let fs' := OrganizerSpec.add_dirs
               (OrganizerSpec.folder_list (OrganizerSpec.folders_in "g"))
               store_unsorted in
  snd (generate_master_relationships_file fs' "g")
  = inr "master_function_relationships.txt".
Proof.
  intros fs'.
  rewrite (layout_admits_master_listing store_unsorted fs' "g"
             (OrganizerSpec.folders_in "g")).
  - vm_compute; reflexivity.
  - vm_compute; reflexivity.
  - vm_compute; reflexivity.
  - refine (bool_decide_eq_true_1 _ _); vm_compute; reflexivity.
Defined.

(** ** What the organizer never does to a directory *)

Section DirectoryFacts.

Import Shutil Organizer OrganizerSpec.

Lemma keeps_dirs_ret {A} (a : A) : keeps_dirs (ret a).
Proof. by intros fs fs' r [= <- _]. Qed.

Lemma keeps_dirs_gets {A} (f : FS.store → A) : keeps_dirs (gets f).
Proof. by intros fs fs' r [= <- _]. Qed.

Lemma keeps_dirs_bind {A B} (m : io A) (k : A → io B) :
  keeps_dirs m → (∀ a, keeps_dirs (k a)) → keeps_dirs (bind m k).
Proof.
  intros Hm Hk fs fs' r. unfold bind.
  destruct (m fs) as [fs1 [e|a]] eqn:E.
  - intros [= <- _]. by apply (Hm _ _ _ E).
  - intros Hrun q Hq. apply (Hk a _ _ _ Hrun). by apply (Hm _ _ _ E).
Qed.

Lemma keeps_dirs_mkdir p : keeps_dirs (mkdir p).
Proof.
  intros fs fs' r. unfold mkdir.
  destruct (truthy p && FS.exists_ fs p); [by intros [= <- _]|].
  destruct (parent_error fs p); [by intros [= <- _]|].
  intros [= <- _] q Hq. by apply isdir_insert_dir.
Qed.

Lemma keeps_dirs_makedirs_go fuel : ∀ name, keeps_dirs (makedirs_go fuel name).
Proof.
  induction fuel as [|fuel IH]; intros name fs fs' r.
  { by intros [= <- _]. }
  rewrite makedirs_go_S. cbv zeta.
  destruct (if truthy (basename name)
            then (dirname name, basename name)
            else (dirname (dirname name), basename (dirname name)))
    as [head tail].
  assert (Hlast : ∀ fs1, (∀ q, FS.isdir fs q = true → FS.isdir fs1 q = true) →
            match mkdir name fs1 with
            | (fs2, inr _) => (fs2, inr tt)
            | (fs2, inl e) =>
                if FS.isdir fs2 name then (fs2, inr tt) else (fs2, inl e)
            end = (fs', r) →
            ∀ q, FS.isdir fs q = true → FS.isdir fs' q = true).
  { intros fs1 H1. destruct (mkdir name fs1) as [fs2 [e|u]] eqn:E.
    - destruct (FS.isdir fs2 name); intros [= <- _] q Hq;
        by apply (keeps_dirs_mkdir name _ _ _ E), H1.
    - intros [= <- _] q Hq. by apply (keeps_dirs_mkdir name _ _ _ E), H1. }
  destruct (truthy head && truthy tail && negb (FS.exists_ fs head)).
  - destruct (makedirs_go fuel head fs) as [fs1 [e|u]] eqn:E.
    + assert (H1 := IH head _ _ _ E).
      destruct e; try (by intros [= <- _]).
      destruct (String.eqb tail "."); [by intros [= <- _]|].
      by apply Hlast.
    + assert (H1 := IH head _ _ _ E).
      destruct (String.eqb tail "."); [by intros [= <- _]|].
      by apply Hlast.
  - by apply Hlast.
Qed.

Lemma keeps_dirs_makedirs name : keeps_dirs (makedirs name).
Proof. apply keeps_dirs_makedirs_go. Qed.

Lemma keeps_dirs_listdir d : keeps_dirs (listdir d).
Proof.
  intros fs fs' r. unfold listdir.
  by destruct (fs !! d) as [[|]|]; intros [= <- _].
Qed.

Lemma keeps_dirs_copyfile src dst : keeps_dirs (copyfile src dst).
Proof.
  intros fs fs' r. unfold copyfile.
  destruct (fs !! src) as [[|text]|]; [| |by intros [= <- _]].
  - by destruct (String.eqb src dst); intros [= <- _].
  - destruct (String.eqb src dst); [by intros [= <- _]|].
    destruct (FS.isdir fs dst) eqn:Hdst; [by intros [= <- _]|].
    destruct (parent_error fs dst); [by intros [= <- _]|].
    intros [= <- _] q Hq. by rewrite isdir_insert_file.
Qed.

Lemma keeps_dirs_copy2 src dst : keeps_dirs (copy2 src dst).
Proof. intros fs fs' r. unfold copy2. apply keeps_dirs_copyfile. Qed.

Lemma keeps_dirs_move src dst : keeps_dirs (move src dst).
Proof.
  intros fs fs' r. unfold move.
  set (real_dst := if FS.isdir fs dst
                   then join dst (basename (rstrip is_slash src)) else dst).
  assert (Hreal : FS.isdir fs dst && FS.exists_ fs real_dst = false →
                  FS.isdir fs real_dst = false).
  { unfold real_dst. destruct (FS.isdir fs dst) eqn:Hdst; [|done]. simpl.
    unfold FS.exists_, FS.isdir. by destruct (fs !! _). }
  destruct (fs !! src) as [[|text]|] eqn:Hsrc.
  - by intros [= <- _].
  - destruct (FS.isdir fs dst && FS.exists_ fs real_dst) eqn:Hex;
      [by intros [= <- _]|].
    destruct (String.eqb src real_dst); [by intros [= <- _]|].
    destruct (parent_error fs real_dst); [by intros [= <- _]|].
    intros [= <- _] q Hq.
    rewrite isdir_insert_file.
    + rewrite isdir_delete_file; [done|].
      apply isfile_not_isdir, isfile_lookup. eauto.
    + rewrite isdir_delete_file; [by apply Hreal|].
      apply isfile_not_isdir, isfile_lookup. eauto.
  - by destruct (FS.isdir fs dst && FS.exists_ fs real_dst); intros [= <- _].
Qed.

Lemma keeps_dirs_for_each {A} (xs : list A) (body : A → io unit) :
  (∀ x, keeps_dirs (body x)) → keeps_dirs (for_each xs body).
Proof.
  intros Hbody. induction xs as [|x xs IH]; [apply keeps_dirs_ret|].
  cbn [for_each]. apply keeps_dirs_bind; [done|]. by intros _.
Qed.

Lemma keeps_dirs_create_folder_structure d : keeps_dirs (create_folder_structure d).
Proof.
  unfold create_folder_structure.
  repeat (apply keeps_dirs_bind; [apply keeps_dirs_makedirs|intros _]).
  apply keeps_dirs_ret.
Qed.

Lemma keeps_dirs_copy_to_folders src name fo :
  keeps_dirs (copy_to_folders src name fo).
Proof.
  unfold copy_to_folders. destruct (startswith "dir_" name).
  - apply keeps_dirs_bind; [apply keeps_dirs_copy2|intros _; apply keeps_dirs_ret].
  - apply keeps_dirs_bind; [apply keeps_dirs_copy2|intros _].
    apply keeps_dirs_bind; [|intros _; apply keeps_dirs_ret].
    destruct (endswith "_icgraph.dot" name); [|destruct (endswith "_cgraph.dot" name)].
    + apply keeps_dirs_bind; [apply keeps_dirs_copy2|intros _; apply keeps_dirs_ret].
    + apply keeps_dirs_bind; [apply keeps_dirs_copy2|intros _; apply keeps_dirs_ret].
    + apply keeps_dirs_ret.
Qed.

Lemma keeps_dirs_process_single_file d f fo :
  keeps_dirs (process_single_file d f fo).
Proof.
  unfold process_single_file.
  apply keeps_dirs_bind.
  - apply keeps_dirs_bind; [apply keeps_dirs_gets|intros is_file].
    destruct (negb is_file); [|apply keeps_dirs_ret].
    apply keeps_dirs_bind; [apply keeps_dirs_gets|intros possible].
    destruct possible; apply keeps_dirs_ret.
  - intros [found|]; [|apply keeps_dirs_ret].
    destruct (endswith ".dot" (basename found)); [|apply keeps_dirs_ret].
    apply keeps_dirs_bind; [apply keeps_dirs_copy_to_folders|].
    intros _. apply keeps_dirs_ret.
Qed.

Lemma keeps_dirs_process_entry d fo name : keeps_dirs (process_entry d fo name).
Proof.
  unfold process_entry. destruct (endswith ".dot" name); [|apply keeps_dirs_ret].
  apply keeps_dirs_bind; [apply keeps_dirs_copy_to_folders|intros dest].
  apply keeps_dirs_bind; [apply keeps_dirs_move|intros _; apply keeps_dirs_ret].
Qed.

Lemma keeps_dirs_process_all_files d fo : keeps_dirs (process_all_files d fo).
Proof.
  unfold process_all_files.
  apply keeps_dirs_bind; [apply keeps_dirs_listdir|intros names].
  apply keeps_dirs_bind; [|intros _; apply keeps_dirs_ret].
  apply keeps_dirs_for_each. intros name. apply keeps_dirs_process_entry.
Qed.

Lemma keeps_dirs_organize_dot_files d specific :
  keeps_dirs (organize_dot_files d specific).
Proof.
  unfold organize_dot_files.
  apply keeps_dirs_bind; [apply keeps_dirs_create_folder_structure|intros fo].
  destruct specific as [f|]; [destruct (truthy f)|].
  - apply keeps_dirs_process_single_file.
  - apply keeps_dirs_process_all_files.
  - apply keeps_dirs_process_all_files.
Qed.

(** Copying a directory raises. *)
Lemma copy2_directory fs src dst :
  FS.isdir fs src = true →
  ∃ e, copy2 src dst fs = (fs, inl e).
Proof.
  intros Hsrc. unfold copy2, copyfile, FS.isdir in *.
  destruct (fs !! src) as [[|]|]; try done.
  destruct (String.eqb src _); eauto.
Qed.

Lemma copy_to_folders_directory fs src name fo :
  FS.isdir fs src = true →
  ∃ e, copy_to_folders src name fo fs = (fs, inl e).
Proof.
  intros Hsrc. unfold copy_to_folders.
  destruct (startswith "dir_" name).
  - destruct (copy2_directory fs src (join (directory_graphs fo) name) Hsrc)
      as [e He].
    exists e. by apply bind_err.
  - destruct (copy2_directory fs src (join (function_graphs fo) name) Hsrc)
      as [e He].
    exists e. by apply bind_err.
Qed.

(** The loop raises when it reaches a name whose turn raises wherever
    a condition holds that no turn undoes. *)
Lemma for_each_raises {A} (body : A → io unit) (P : FS.store → Prop) x :
  (∀ y fs fs' r, body y fs = (fs', r) → P fs → P fs') →
  (∀ fs, P fs → ∃ fs' e, body x fs = (fs', inl e)) →
  ∀ xs fs, x ∈ xs → P fs → ∃ fs' e, for_each xs body fs = (fs', inl e).
Proof.
  intros Hkeep Hraise xs. induction xs as [|y xs IH]; intros fs Hin HP.
  { by apply elem_of_nil in Hin. }
  cbn [for_each]. unfold bind.
  destruct (body y fs) as [fs1 [e|u]] eqn:E; [eauto|].
  apply elem_of_cons in Hin as [->|Hin].
  - destruct (Hraise fs HP) as (fs2 & e & He). congruence.
  - apply IH; [done|]. by apply (Hkeep y fs fs1 (inr u)).
Qed.

Lemma process_all_files_directory_entry fs d fo name :
  FS.isdir fs d = true →
  name ∈ FS.listdir fs d →
  endswith ".dot" name = true →
  FS.isdir fs (join d name) = true →
  ∃ fs' e, process_all_files d fo fs = (fs', inl e).
Proof.
  intros Hd Hin Hdot Hdir.
  destruct (for_each_raises (process_entry d fo)
              (λ fs, FS.isdir fs (join d name) = true) name) with
    (xs := FS.listdir fs d) (fs := fs) as (fs' & e & Hrun); try done.
  - intros y fs0 fs1 r Hrun H0. by apply (keeps_dirs_process_entry d fo y _ _ _ Hrun).
  - intros fs0 H0. unfold process_entry. rewrite Hdot.
    destruct (copy_to_folders_directory fs0 (join d name) name fo H0) as [e He].
    exists fs0, e. by apply bind_err.
  - exists fs', e. unfold process_all_files, listdir, bind at 1.
    unfold FS.isdir in Hd. destruct (fs !! d) as [[|]|]; try done.
    by apply bind_err.
Qed.

End DirectoryFacts.

(** X24: whatever its arguments and whether it returns or raises,
    [organize_dot_files] removes no directory and puts no file in the
    place of one: every path that was a directory before the call is a
    directory after it.  The same holds for [create_folder_structure],
    [process_single_file] and [process_all_files] on their own. *)
Theorem organizer_keeps_directories
    (fs fs' : FS.store) (d : string) (specific : option string)
    (fo : Organizer.folders) (q : string) :
  FS.isdir fs q = true →
  (∀ r, Organizer.organize_dot_files d specific fs = (fs', r) →
        FS.isdir fs' q = true)
  ∧ (∀ r, Organizer.create_folder_structure d fs = (fs', r) →
          FS.isdir fs' q = true)
  ∧ (∀ f r, Organizer.process_single_file d f fo fs = (fs', r) →
            FS.isdir fs' q = true)
  ∧ (∀ r, Organizer.process_all_files d fo fs = (fs', r) →
          FS.isdir fs' q = true).
Proof.
  intros Hq. split; [|split; [|split]].
  - intros r Hrun. by apply (keeps_dirs_organize_dot_files d specific _ _ _ Hrun).
  - intros r Hrun. by apply (keeps_dirs_create_folder_structure d _ _ _ Hrun).
  - intros f r Hrun. by apply (keeps_dirs_process_single_file d f fo _ _ _ Hrun).
  - intros r Hrun. by apply (keeps_dirs_process_all_files d fo _ _ _ Hrun).
Qed.

Lemma organizer_keeps_directories_witness :
  FS.isdir store_dot_directory "g/old.dot" = true
  ∧ FS.isdir (fst (Organizer.organize_dot_files "g" None store_dot_directory))
      "g/old.dot" = true.
Proof.
  assert (Hq : FS.isdir store_dot_directory "g/old.dot" = true)
    by (vm_compute; reflexivity).
  split; [exact Hq|].
  destruct (Organizer.organize_dot_files "g" None store_dot_directory)
    as [fs' r] eqn:E.
  exact (proj1 (organizer_keeps_directories store_dot_directory fs' "g" None
                  (OrganizerSpec.folders_in "g") "g/old.dot" Hq) r E).
Defined.

(** X25: when an entry of the directory whose name ends in [.dot] is
    itself a directory, [process_all_files] does not return: copying
    that entry raises, and the loop has no handler. *)
Theorem all_files_raises_on_directory_entry
    (fs : FS.store) (d name : string) (fo : Organizer.folders) :
  FS.isdir fs d = true →
  name ∈ FS.listdir fs d →
  endswith ".dot" name = true →
  FS.isdir fs (join d name) = true →
  ∃ fs' e, Organizer.process_all_files d fo fs = (fs', inl e).
Proof. apply process_all_files_directory_entry. Qed.

Lemma all_files_raises_on_directory_entry_witness :
  ∃ fs' e,
    Organizer.process_all_files "g" (OrganizerSpec.folders_in "g")
      store_dot_directory = (fs', inl e).
Proof.
  apply (all_files_raises_on_directory_entry store_dot_directory "g" "old.dot").
  - vm_compute; reflexivity.
  - apply elem_of_listdir. split; [|split].
    + exists FS.Dir. vm_compute; reflexivity.
    + intros H; discriminate H.
    + vm_compute; reflexivity.
  - vm_compute; reflexivity.
  - vm_compute; reflexivity.
Defined.
